(** * Managed code indexing: git watcher and indexing orchestrator

    A shallow embedding of [GitWatcher] (scan, differential scan, change
    handling, start-up and disposal), of [ManagedIndexer] (per-root
    start-up, event handling, manifest fetch with its in-flight slot,
    upload scheduling), of [findUpDirectoryChain] and of the agent-rules
    loader, followed by the properties established about them.

    Conventions.
    - Strings are [string]s of code units below 256; the JavaScript string
      methods used by the source ([trim], [split(/\s+/)], [slice], [join],
      [toLowerCase]) are written out on that range.
    - A JavaScript [async] function runs synchronously up to its first
      [await]; what follows an [await] is a continuation run by a later
      turn of the event loop.  The watcher's methods are sequential, so
      they are modelled in a state/trace/error monad fed with the results
      of the git primitives; the orchestrator interleaves several pending
      continuations, so it is modelled as a transition system whose actions
      are the turns of the event loop.
    - Console logging and the [timestamp]/[details] fields of recorded
      errors carry no control flow and are left out (the watcher's
      [console.error] calls are kept, as trace entries).
    - Node's [path], [os] and [fs] functions are library code: [path] and
      [os.homedir] are parameters (class [Node.Path]), the answers of the
      file system are arguments.  A loop without a bound of its own takes
      a bound on its iterations and returns [None] when it is spent. *)

From stdpp Require Import base option list strings.
From Stdlib Require Import Ascii String Bool Arith ZArith Lia Sorted.

Open Scope string_scope.

(** ** JavaScript string primitives *)

Module Js.

(** [\s] of a JavaScript regular expression, and the white space removed by
    [String.prototype.trim], restricted to code units below 256:
    TAB, LF, VT, FF, CR, SPACE and NO-BREAK SPACE. *)
Definition is_space (c : ascii) : bool :=
  let n := nat_of_ascii c in
  ((9 <=? n) && (n <=? 13) || (n =? 32) || (n =? 160))%nat.

Fixpoint all_space (s : string) : bool :=
  match s with
  | EmptyString => true
  | String c s' => is_space c && all_space s'
  end.

Fixpoint no_space (s : string) : bool :=
  match s with
  | EmptyString => true
  | String c s' => negb (is_space c) && no_space s'
  end.

Definition is_empty (s : string) : bool :=
  match s with EmptyString => true | _ => false end.

(** A JavaScript string used as a condition: only the empty string is
    falsy. *)
Definition truthy (s : string) : bool := negb (is_empty s).

(** An optional (nullable / possibly undefined) string used as a condition. *)
Definition truthy_opt (o : option string) : bool :=
  match o with Some s => truthy s | None => false end.

Fixpoint trimStart (s : string) : string :=
  match s with
  | EmptyString => EmptyString
  | String c s' => if is_space c then trimStart s' else s
  end.

Fixpoint trimEnd (s : string) : string :=
  match s with
  | EmptyString => EmptyString
  | String c s' =>
      let r := trimEnd s' in
      if is_space c && is_empty r then EmptyString else String c r
  end.

(** [s.trim()] *)
Definition trim (s : string) : string := trimEnd (trimStart s).

(** Put a code unit in front of the first piece of a split. *)
Definition cons_head (c : ascii) (l : list string) : list string :=
  match l with
  | [] => [String c EmptyString]
  | t :: ts => String c t :: ts
  end.

(** Put a string in front of the first piece of a split. *)
Definition prepend (f : string) (l : list string) : list string :=
  match l with
  | [] => [f]
  | t :: ts => (f ++ t) :: ts
  end.

(** [s.split(/\s+/)]: the pieces between maximal runs of white space.  A
    string that starts (ends) with white space has an empty first (last)
    piece, and the empty string splits into one empty piece.  [in_run]
    tells that the previous code unit belonged to a separator. *)
Fixpoint split_run (in_run : bool) (s : string) : list string :=
  match s with
  | EmptyString => [EmptyString]
  | String c s' =>
      if is_space c
      then (if in_run then split_run true s'
            else EmptyString :: split_run true s')
      else cons_head c (split_run false s')
  end.

Definition split_ws (s : string) : list string := split_run false s.

(** [parts.join(sep)] *)
Fixpoint join (sep : string) (parts : list string) : string :=
  match parts with
  | [] => EmptyString
  | [p] => p
  | p :: ps => p ++ sep ++ join sep ps
  end.

(** [parts.slice(n)] for [n >= 0] *)
Definition slice {A} (n : nat) (parts : list A) : list A := drop n parts.

(** [toLowerCase] on code units below 256: A-Z, and the Latin-1 capitals
    U+00C0..U+00DE except the multiplication sign U+00D7. *)
Definition lower_char (c : ascii) : ascii :=
  let n := nat_of_ascii c in
  if ((65 <=? n) && (n <=? 90)
      || (192 <=? n) && (n <=? 222) && negb (n =? 215))%nat
  then ascii_of_nat (n + 32) else c.

Fixpoint toLowerCase (s : string) : string :=
  match s with
  | EmptyString => EmptyString
  | String c s' => String (lower_char c) (toLowerCase s')
  end.

Definition dquote : string := String (ascii_of_nat 34) EmptyString.

(** The template literal that wraps [f] in double quotes. *)
Definition quote (f : string) : string := dquote ++ f ++ dquote.

End Js.

(** ** Results of awaited operations *)

(** The outcome of an awaited call: the value of a fulfilled promise, or the
    message of the error thrown at the [await]. *)
Inductive Res (A : Type) : Type :=
| Ok (a : A)
| Err (msg : string).
Arguments Ok {A} a.
Arguments Err {A} msg.

Definition is_ok {A} (r : Res A) : bool :=
  match r with Ok _ => true | Err _ => false end.

(** ** GitWatcher *)

Module GitWatcher.

Record GitWatcherConfig := {
  cwd : string;
  defaultBranchOverride : option string;
}.

(** What an event's [watcher] back-reference gives access to: the identity
    of the emitting object ([===] compares it) and its [config.cwd]. *)
Record WatcherRef := {
  ref_id : nat;
  ref_cwd : string;
}.

Inductive GitWatcherEvent :=
| ScanStart (branch : string) (isBaseBranch : bool) (watcher : WatcherRef)
| ScanEnd (branch : string) (isBaseBranch : bool) (watcher : WatcherRef)
| FileChanged (filePath fileHash : string)
    (branch : string) (isBaseBranch : bool) (watcher : WatcherRef)
| FileDeleted (filePath : string)
    (branch : string) (isBaseBranch : bool) (watcher : WatcherRef)
| BranchChanged (previousBranch newBranch : string)
    (branch : string) (isBaseBranch : bool) (watcher : WatcherRef).

Definition ev_watcher (e : GitWatcherEvent) : WatcherRef :=
  match e with
  | ScanStart _ _ w | ScanEnd _ _ w | FileChanged _ _ _ _ w
  | FileDeleted _ _ _ w | BranchChanged _ _ _ _ w => w
  end.

Definition is_branch_changed (e : GitWatcherEvent) : bool :=
  match e with BranchChanged _ _ _ _ _ => true | _ => false end.

Record GitStateSnapshot := {
  branch : string;
  commit : string;
  isDetached : bool;
}.

Record GitDiff := {
  added : list string;
  modified : list string;
  deleted : list string;
}.

(** The private fields of a [GitWatcher] object; [oid] stands for the
    identity of the object.  The emitter and the watch handles are left
    to the trace. *)
Record GitWatcher := {
  oid : nat;
  config : GitWatcherConfig;
  currentState : option GitStateSnapshot;
  isProcessing : bool;
  defaultBranch : option string;
}.

Definition this_ref (w : GitWatcher) : WatcherRef :=
  {| ref_id := oid w; ref_cwd := cwd (config w) |}.

Definition set_currentState (s : option GitStateSnapshot) (w : GitWatcher) :=
  {| oid := oid w; config := config w; currentState := s;
     isProcessing := isProcessing w; defaultBranch := defaultBranch w |}.

Definition set_isProcessing (b : bool) (w : GitWatcher) :=
  {| oid := oid w; config := config w; currentState := currentState w;
     isProcessing := b; defaultBranch := defaultBranch w |}.

Definition set_defaultBranch (d : option string) (w : GitWatcher) :=
  {| oid := oid w; config := config w; currentState := currentState w;
     isProcessing := isProcessing w; defaultBranch := d |}.

(** What the lazily read output of a git command amounts to: the lines it
    yielded and, when the command failed, the error raised after them. *)
Record ExecResult := {
  yielded : list string;
  failure : option string;
}.

(** Observable effects of the watcher, in the order they happen. *)
Inductive Effect :=
| Emit (e : GitWatcherEvent)          (* this.emitter.emit("event", e) *)
| ExecGetLines (cmd : string)         (* execGetLines({ cmd, cwd, context }) *)
| CallScan                            (* this.scan() is entered *)
| ConsoleError (tag : string).        (* console.error(tag, error) *)

Definition emitted (t : list Effect) : list GitWatcherEvent :=
  omap (fun x => match x with Emit e => Some e | _ => None end) t.

Definition commands (t : list Effect) : list string :=
  omap (fun x => match x with ExecGetLines c => Some c | _ => None end) t.

Definition is_call_scan (x : Effect) : bool :=
  match x with CallScan => true | _ => false end.

Definition console_errors (t : list Effect) : list string :=
  omap (fun x => match x with ConsoleError tag => Some tag | _ => None end) t.

(** The answers of the git primitives to one invocation of [scan]. *)
Record ScanEnv := {
  sDetached : Res bool;                          (* isDetachedHead(cwd) *)
  sBranch : Res string;                          (* getCurrentBranch(cwd) *)
  sBase : Res string;                            (* getBaseBranch(cwd) *)
  sDiff : string -> string -> Res GitDiff;       (* getGitDiff(cur, base, cwd) *)
  sExec : string -> ExecResult;                  (* execGetLines, by command *)
}.

(** The answers of the git primitives to one change-handling cycle: the
    calls made by [handleGitChange] itself, and those of the rescan it
    may trigger. *)
Record CycleEnv := {
  cDetached : Res bool;
  cBranch : Res string;
  cCommit : Res string;
  cBase : Res string;
  cScan : ScanEnv;
}.

(** *** The monad of watcher methods

    A method transforms the object, appends to the trace, and either
    returns or throws. *)
Definition M (A : Type) : Type := GitWatcher -> Res A * GitWatcher * list Effect.

Definition ret {A} (a : A) : M A := fun w => (Ok a, w, []).
Definition throw {A} (msg : string) : M A := fun w => (Err msg, w, []).

Definition bind {A B} (m : M A) (f : A -> M B) : M B :=
  fun w =>
    match m w with
    | (Ok a, w1, t1) =>
        match f a w1 with (r, w2, t2) => (r, w2, (t1 ++ t2)%list) end
    | (Err e, w1, t1) => (Err e, w1, t1)
    end.

(** [await p] for a promise that settles with [r]. *)
Definition await {A} (r : Res A) : M A := fun w => (r, w, []).

Definition tell (x : Effect) : M unit := fun w => (Ok tt, w, [x]).
Definition this {A} (f : GitWatcher -> A) : M A := fun w => (Ok (f w), w, []).
Definition update (f : GitWatcher -> GitWatcher) : M unit :=
  fun w => (Ok tt, f w, []).

(** [try { m } catch (error) { h error }] *)
Definition try_catch {A} (m : M A) (h : string -> M A) : M A :=
  fun w =>
    match m w with
    | (Ok a, w1, t1) => (Ok a, w1, t1)
    | (Err e, w1, t1) =>
        match h e w1 with (r, w2, t2) => (r, w2, (t1 ++ t2)%list) end
    end.

(** [try { m } finally { f }], for an [f] that does not throw. *)
Definition try_finally {A} (m : M A) (f : GitWatcher -> GitWatcher) : M A :=
  fun w => match m w with (r, w1, t1) => (r, f w1, t1) end.


Notation "x <- m ;; k" := (bind m (fun x => k))
  (at level 100, m at next level, right associativity).
Notation "m ;;; k" := (bind m (fun _ => k))
  (at level 100, right associativity).

(** *** Methods *)

(** [getDefaultBranch()]: the cached name, else the configured override,
    else the base branch resolved by git; the result is cached. *)
Definition getDefaultBranch (base : Res string) : M string :=
  cached <- this defaultBranch ;;
  if Js.truthy_opt cached then ret (default EmptyString cached)
  else
    override <- this (fun w => defaultBranchOverride (config w)) ;;
    if Js.truthy_opt override then
      update (set_defaultBranch override) ;;;
      ret (default EmptyString override)
    else
      b <- await base ;;
      update (set_defaultBranch (Some b)) ;;;
      ret b.

(** The body shared by the two loops over [git ls-files -s] output: a line
    is trimmed, skipped when empty or when it has fewer than four fields,
    and otherwise yields [(filePath, fileHash)] with
    [fileHash = parts[1]] and [filePath = parts.slice(3).join(" ")]. *)
Definition parse_ls_line (line : string) : option (string * string) :=
  let trimmed := Js.trim line in
  if Js.is_empty trimmed then None
  else
    let parts := Js.split_ws trimmed in
    if (List.length parts <? 4)%nat then None
    else Some (Js.join " " (Js.slice 3 parts), nth 1 parts EmptyString).

(** [for await (const line of execGetLines({cmd, ...})) { ... emit ... }] *)
Fixpoint emit_lines (lines : list string)
    (mk : string -> string -> GitWatcherEvent) : M unit :=
  match lines with
  | [] => ret tt
  | line :: rest =>
      match parse_ls_line line with
      | None => emit_lines rest mk
      | Some (filePath, fileHash) =>
          tell (Emit (mk filePath fileHash)) ;;; emit_lines rest mk
      end
  end.

Definition for_await_lines (exec : string -> ExecResult) (cmd : string)
    (mk : string -> string -> GitWatcherEvent) : M unit :=
  tell (ExecGetLines cmd) ;;;
  emit_lines (yielded (exec cmd)) mk ;;;
  match failure (exec cmd) with
  | Some e => throw e
  | None => ret tt
  end.

(** [catch (error) { console.error(tag, error); throw error }] *)
Definition logged (tag : string) {A} (m : M A) : M A :=
  try_catch m (fun e => tell (ConsoleError tag) ;;; throw e).

(** [scanAllFiles(branch)] *)
Definition scanAllFiles (env : ScanEnv) (branch : string) : M unit :=
  logged "[GitWatcher] Error scanning all files:" (
    me <- this this_ref ;;
    tell (Emit (ScanStart branch true me)) ;;;
    for_await_lines (sExec env) "git ls-files -s"
      (fun filePath fileHash => FileChanged filePath fileHash branch true me) ;;;
    tell (Emit (ScanEnd branch true me))).

Fixpoint emit_deleted (files : list string) (branch : string)
    (me : WatcherRef) : M unit :=
  match files with
  | [] => ret tt
  | deletedFile :: rest =>
      tell (Emit (FileDeleted deletedFile branch false me)) ;;;
      emit_deleted rest branch me
  end.

(** The command built by [scanDiffFiles] for [filesToScan]. *)
Definition diff_command (filesToScan : list string) : string :=
  "git ls-files -s " ++ Js.join " " (map Js.quote filesToScan).

(** [scanDiffFiles(currentBranch, defaultBranch)] *)
Definition scanDiffFiles (env : ScanEnv)
    (currentBranch defaultBranch : string) : M unit :=
  logged "[GitWatcher] Error scanning diff files:" (
    me <- this this_ref ;;
    tell (Emit (ScanStart currentBranch false me)) ;;;
    diff <- await (sDiff env currentBranch defaultBranch) ;;
    emit_deleted (deleted diff) currentBranch me ;;;
    let filesToScan := (added diff ++ modified diff)%list in
    if (List.length filesToScan =? 0)%nat then
      tell (Emit (ScanEnd currentBranch false me))
    else
      for_await_lines (sExec env) (diff_command filesToScan)
        (fun filePath fileHash =>
           FileChanged filePath fileHash currentBranch false me) ;;;
      tell (Emit (ScanEnd currentBranch false me))).

(** [scan()] *)
Definition scan (env : ScanEnv) : M unit :=
  tell CallScan ;;;
  logged "[GitWatcher] Error during scan:" (
    detached <- await (sDetached env) ;;
    if detached : bool then ret tt
    else
      currentBranch <- await (sBranch env) ;;
      defaultBranch <- getDefaultBranch (sBase env) ;;
      let isOnDefaultBranch :=
        String.eqb (Js.toLowerCase currentBranch) (Js.toLowerCase defaultBranch) in
      if isOnDefaultBranch then scanAllFiles env currentBranch
      else scanDiffFiles env currentBranch defaultBranch).

(** [handleGitChange()] *)
Definition handleGitChange (env : CycleEnv) : M unit :=
  processing <- this isProcessing ;;
  if processing : bool then ret tt
  else
    try_finally
      (try_catch
         (update (set_isProcessing true) ;;;
          detached <- await (cDetached env) ;;
          if detached : bool then update (set_currentState None)
          else
            (* Promise.all([getCurrentBranch(cwd), getCurrentCommitSha(cwd)]) *)
            branch <- await (cBranch env) ;;
            commit <- await (cCommit env) ;;
            let newState :=
              {| branch := branch; commit := commit; isDetached := false |} in
            current <- this currentState ;;
            match current with
            | Some cur =>
                let branchChanged := negb (String.eqb (GitWatcher.branch cur) branch) in
                let commitChanged := negb (String.eqb (GitWatcher.commit cur) commit) in
                if negb branchChanged && negb commitChanged then ret tt
                else
                  (if branchChanged then
                     defaultBranch <- getDefaultBranch (cBase env) ;;
                     let isBaseBranch :=
                       String.eqb (Js.toLowerCase branch)
                                  (Js.toLowerCase defaultBranch) in
                     me <- this this_ref ;;
                     tell (Emit (BranchChanged (GitWatcher.branch cur) branch
                                   branch isBaseBranch me))
                   else ret tt) ;;;
                  scan (cScan env) ;;;
                  update (set_currentState (Some newState))
            | None => update (set_currentState (Some newState))
            end)
         (fun _ => tell (ConsoleError "[GitWatcher] Error handling git change:")))
      (set_isProcessing false).

(** *** The records of [git ls-files -s]

    The format the two loops expect, in the words of the source:
    [<mode> <hash> <stage> <path>].  Git itself puts a TAB before the
    path, the tests of the watcher a space; [sep] stands for either. *)
Record LsRecord := {
  mode : string;
  hash : string;
  stage : string;
  path : string;
}.

Definition ls_line (sep : string) (r : LsRecord) : string :=
  mode r ++ " " ++ hash r ++ " " ++ stage r ++ sep ++ path r.

(** A non-empty string without white space. *)
Definition is_field (s : string) : bool := Js.truthy s && Js.no_space s.

(** A non-empty string of white space. *)
Definition is_separator (s : string) : bool := Js.truthy s && Js.all_space s.

(** Mode, hash and stage are fields, and the path is not blank. *)
Definition well_formed (r : LsRecord) : bool :=
  is_field (mode r) && is_field (hash r) && is_field (stage r)
  && negb (Js.all_space (path r)).

(** What the loops make of a path: its white-space separated pieces,
    joined again by single spaces. *)
Definition normalized (p : string) : string :=
  Js.join " " (Js.split_ws (Js.trim p)).

(** Running a method on an object: the object afterwards, what happened,
    and how the call ended. *)
Definition outcome {A} (x : Res A * GitWatcher * list Effect) : Res A := x.1.1.
Definition after {A} (x : Res A * GitWatcher * list Effect) : GitWatcher := x.1.2.
Definition trace {A} (x : Res A * GitWatcher * list Effect) : list Effect := x.2.

(** *** Observations *)

(** The same object, apart from its cached default branch. *)
Definition same_object (w w' : GitWatcher) : Prop :=
  oid w' = oid w /\ config w' = config w /\
  currentState w' = currentState w /\ isProcessing w' = isProcessing w.

(** The events a loop over [lines] emits. *)
Definition file_events (mk : string -> string -> GitWatcherEvent)
    (lines : list string) : list Effect :=
  map (fun x => Emit (mk x.1 x.2)) (omap parse_ls_line lines).

(** [filesToScan] of [scanDiffFiles]. *)
Definition diff_files (d : GitDiff) : list string := (added d ++ modified d)%list.

(** Neither a [branch-changed] event nor an entry into [scan]. *)
Definition quiet (x : Effect) : bool :=
  match x with
  | Emit e => negb (is_branch_changed e)
  | CallScan => false
  | _ => true
  end.

(** The cached snapshot holds branch [b] and commit [c]. *)
Definition snapshot_is (w : GitWatcher) (b c : string) : Prop :=
  exists s, currentState w = Some s /\ branch s = b /\ commit s = c.

End GitWatcher.

(** ** ManagedIndexer *)

Module ManagedIndexer.

Import GitWatcher (WatcherRef, ref_id, ref_cwd, GitWatcherEvent, ev_watcher).

(** What the orchestrator takes from its platform and from modules of the
    repository that are constants or tables: Node's [path] functions, the
    table of supported extensions, and the capacity of the upload limiter. *)
Class Host := {
  path_extname : string -> string;
  path_isAbsolute : string -> bool;
  path_join : string -> string -> string;
  path_relative : string -> string -> string;
  scannerExtensions : list string;
  MANAGED_MAX_CONCURRENT_FILES : nat;
}.

Record ManifestFile := {
  filePath : string;
  fileHash : string;
}.

Record ServerManifest := {
  files : list ManifestFile;
}.

Inductive ErrorType :=
| E_setup | E_scan | E_file_upsert | E_git | E_manifest | E_config.

Record ErrorContext := {
  ctx_filePath : option string;
  ctx_branch : option string;
  ctx_operation : option string;
}.

Record ManagedIndexerError := {
  type : ErrorType;
  message : string;
  context : ErrorContext;
}.

Record ManagedIndexerConfig := {
  kilocodeToken : option string;
  kilocodeOrganizationId : option string;
}.

(** [ManagedIndexerWorkspaceFolderState]; [workspaceFolder] is the folder's
    [uri.fsPath], [watcher] the identity of the owned [GitWatcher], and
    [manifestFetchPromise] the identity of the pending fetch it refers to. *)
Record FolderState := {
  workspaceFolder : string;
  gitBranch : option string;
  projectId : option string;
  manifest : option ServerManifest;
  isIndexing : bool;
  watcher : option nat;
  repositoryUrl : option string;
  error : option ManagedIndexerError;
  manifestFetchPromise : option nat;
}.

Definition set_gitBranch (v : option string) (s : FolderState) :=
  {| workspaceFolder := workspaceFolder s; gitBranch := v;
     projectId := projectId s; manifest := manifest s;
     isIndexing := isIndexing s; watcher := watcher s;
     repositoryUrl := repositoryUrl s; error := error s;
     manifestFetchPromise := manifestFetchPromise s |}.

Definition set_projectId (v : option string) (s : FolderState) :=
  {| workspaceFolder := workspaceFolder s; gitBranch := gitBranch s;
     projectId := v; manifest := manifest s;
     isIndexing := isIndexing s; watcher := watcher s;
     repositoryUrl := repositoryUrl s; error := error s;
     manifestFetchPromise := manifestFetchPromise s |}.

Definition set_manifest (v : option ServerManifest) (s : FolderState) :=
  {| workspaceFolder := workspaceFolder s; gitBranch := gitBranch s;
     projectId := projectId s; manifest := v;
     isIndexing := isIndexing s; watcher := watcher s;
     repositoryUrl := repositoryUrl s; error := error s;
     manifestFetchPromise := manifestFetchPromise s |}.

Definition set_isIndexing (v : bool) (s : FolderState) :=
  {| workspaceFolder := workspaceFolder s; gitBranch := gitBranch s;
     projectId := projectId s; manifest := manifest s;
     isIndexing := v; watcher := watcher s;
     repositoryUrl := repositoryUrl s; error := error s;
     manifestFetchPromise := manifestFetchPromise s |}.

Definition set_watcher (v : option nat) (s : FolderState) :=
  {| workspaceFolder := workspaceFolder s; gitBranch := gitBranch s;
     projectId := projectId s; manifest := manifest s;
     isIndexing := isIndexing s; watcher := v;
     repositoryUrl := repositoryUrl s; error := error s;
     manifestFetchPromise := manifestFetchPromise s |}.

Definition set_repositoryUrl (v : option string) (s : FolderState) :=
  {| workspaceFolder := workspaceFolder s; gitBranch := gitBranch s;
     projectId := projectId s; manifest := manifest s;
     isIndexing := isIndexing s; watcher := watcher s;
     repositoryUrl := v; error := error s;
     manifestFetchPromise := manifestFetchPromise s |}.

Definition set_error (v : option ManagedIndexerError) (s : FolderState) :=
  {| workspaceFolder := workspaceFolder s; gitBranch := gitBranch s;
     projectId := projectId s; manifest := manifest s;
     isIndexing := isIndexing s; watcher := watcher s;
     repositoryUrl := repositoryUrl s; error := v;
     manifestFetchPromise := manifestFetchPromise s |}.

Definition set_manifestFetchPromise (v : option nat) (s : FolderState) :=
  {| workspaceFolder := workspaceFolder s; gitBranch := gitBranch s;
     projectId := projectId s; manifest := manifest s;
     isIndexing := isIndexing s; watcher := watcher s;
     repositoryUrl := repositoryUrl s; error := error s;
     manifestFetchPromise := v |}.

Definition has_error_type (t : ErrorType) (s : FolderState) : bool :=
  match error s with
  | Some e => match type e, t with
              | E_setup, E_setup | E_scan, E_scan
              | E_file_upsert, E_file_upsert | E_git, E_git
              | E_manifest, E_manifest | E_config, E_config => true
              | _, _ => false
              end
  | None => false
  end.

(** [if (state.error?.type === t) state.error = undefined] *)
Definition clear_error_of (t : ErrorType) (s : FolderState) : FolderState :=
  if has_error_type t s then set_error None s else s.

(** *** Start-up *)

(** The answers one workspace folder gets during start-up. *)
Record RootEnv := {
  r_isGitRepository : Res bool;
  r_getGitRepositoryInfo : Res (option string);  (* its [repositoryUrl] *)
  r_getCurrentBranch : Res string;
  r_getKilocodeConfig : Res (option string);     (* [config?.project?.id] *)
  r_getServerManifest : Res ServerManifest;
  r_newGitWatcher : Res nat;                     (* [new GitWatcher({ cwd })] *)
  r_onEvent : Res unit;                          (* [watcher.onEvent(...)] *)
}.

Definition initial_state (cwd : string) : FolderState :=
  {| workspaceFolder := cwd; gitBranch := None; projectId := None;
     manifest := None; isIndexing := false; watcher := None;
     repositoryUrl := None; error := None; manifestFetchPromise := None |}.

Definition startup_error (t : ErrorType) (prefix errorMessage operation : string)
    (branch : option string) : ManagedIndexerError :=
  {| type := t; message := prefix ++ errorMessage;
     context := {| ctx_filePath := None; ctx_branch := branch;
                   ctx_operation := Some operation |} |}.

(** The function mapped over [vscode.workspace.workspaceFolders] by
    [start]: [Ok None] is the [null] of a skipped folder, [Err] a rejection
    that no [catch] of the function handles. *)
Definition start_folder (cwd : string) (env : RootEnv)
    : Res (option FolderState) :=
  let state := initial_state cwd in
  match r_isGitRepository env with
  | Err e => Err e
  | Ok false => Ok None
  | Ok true =>
      (* Step 1, inside the outer [try] *)
      match r_getGitRepositoryInfo env, r_getCurrentBranch env with
      | Ok repositoryUrl, Ok gitBranch =>
          let state := set_repositoryUrl repositoryUrl
                         (set_gitBranch (Some gitBranch) state) in
          (* Step 2 *)
          match r_getKilocodeConfig env with
          | Ok projectId =>
              if negb (Js.truthy_opt projectId) then Ok None
              else
                let state := set_projectId projectId state in
                (* Step 3, with its own [try] *)
                match r_getServerManifest env with
                | Ok m =>
                    let state := set_manifest (Some m) state in
                    (* Step 4, with its own [try] *)
                    match r_newGitWatcher env with
                    | Ok w =>
                        let state := set_watcher (Some w) state in
                        (* the handler is registered after the assignment *)
                        match r_onEvent env with
                        | Ok _ => Ok (Some state)
                        | Err e =>
                            Ok (Some (set_error (Some
                              (startup_error E_scan
                                 "Failed to start file watcher: "
                                 e "start-watcher" (Some gitBranch))) state))
                        end
                    | Err e =>
                        Ok (Some (set_error (Some
                          (startup_error E_scan "Failed to start file watcher: "
                             e "start-watcher" (Some gitBranch))) state))
                    end
                | Err e =>
                    Ok (Some (set_error (Some
                      (startup_error E_manifest "Failed to fetch server manifest: "
                         e "fetch-manifest" (Some gitBranch))) state))
                end
          | Err e =>
              Ok (Some (set_error (Some
                (startup_error E_git "Failed to get git information: "
                   e "get-git-info" None)) state))
          end
      | Err e, _ | Ok _, Err e =>
          Ok (Some (set_error (Some
            (startup_error E_git "Failed to get git information: "
               e "get-git-info" None)) state))
      end
  end.

(** [Promise.all]: the values in order, or a rejection. *)
Fixpoint promise_all {A} (l : list (Res A)) : Res (list A) :=
  match l with
  | [] => Ok []
  | Ok a :: rest =>
      match promise_all rest with
      | Ok xs => Ok (a :: xs)
      | Err e => Err e
      end
  | Err e :: _ => Err e
  end.

(** [states.filter((s) => s !== null)] *)
Definition non_null {A} (l : list (option A)) : list A := omap id l.

(** [Promise.all(workspaceFolders.map(...))] followed by the filter. *)
Definition build_states (folders : list (string * RootEnv))
    : Res (list FolderState) :=
  match promise_all (map (fun f => start_folder f.1 f.2) folders) with
  | Ok states => Ok (non_null states)
  | Err e => Err e
  end.

(** *** The orchestrator and its pending work *)

(** The fields of the [ManagedIndexer] object that event handling reads
    and writes. *)
Record Indexer := {
  config : option ManagedIndexerConfig;
  isActive : bool;
  workspaceFolderState : list FolderState;
}.

(** [start()], up to the assignment of [this.workspaceFolderState]:
    [enabled] is the answer of [isEnabled()], which has stored [cfg] in
    [this.config].  The initial scans and watcher starts that follow are
    watcher activity, whose events reach [onEvent] below. *)
Definition start (cfg : ManagedIndexerConfig) (enabled : bool)
    (folders : list (string * RootEnv)) (this : Indexer)
    : Res unit * Indexer :=
  if (List.length folders =? 0)%nat then (Ok tt, this)
  else
    let this := {| config := Some cfg; isActive := isActive this;
                   workspaceFolderState := workspaceFolderState this |} in
    if negb enabled then (Ok tt, this)
    else if negb (Js.truthy_opt (kilocodeOrganizationId cfg))
            || negb (Js.truthy_opt (kilocodeToken cfg)) then (Ok tt, this)
    else
      let this := {| config := config this; isActive := true;
                     workspaceFolderState := workspaceFolderState this |} in
      match build_states folders with
      | Ok states =>
          (Ok tt, {| config := config this; isActive := true;
                     workspaceFolderState := states |})
      | Err e => (Err e, this)
      end.

(** What a call of [getManifest] hands to its caller: the cached manifest,
    or the result of the manifest fetch with the given identity. *)
Inductive ManifestPromise :=
| Cached (m : ServerManifest)
| Fetching (fetch : nat).

(** A manifest fetch started by [getManifest]: the folder state and the
    branch it captured, and how far it got. *)
Inductive FetchStage :=
| AwaitingConfig                      (* at [await getKilocodeConfig(...)] *)
| AwaitingManifest                    (* at [await getServerManifest(...)] *)
| Fulfilled (m : ServerManifest)
| Rejected (msg : string).

Record Fetch := {
  f_state : nat;
  f_branch : string;
  f_stage : FetchStage;
}.

Definition in_flight (f : Fetch) : bool :=
  match f_stage f with
  | AwaitingConfig | AwaitingManifest => true
  | Fulfilled _ | Rejected _ => false
  end.

(** An invocation of [onEvent] suspended at [await this.getManifest(...)]. *)
Inductive Handler :=
| OnBranchChanged (p : ManifestPromise)
| OnFileChanged (state : nat) (filePath fileHash branch : string)
    (isBaseBranch : bool) (watcher : WatcherRef) (p : ManifestPromise)
| Finished.

(** A function handed to [fileUpsertLimit]. *)
Inductive UploadStage :=
| Queued
| Reading (projectId absoluteFilePath : string)   (* at [await fs.readFile] *)
| Upserting                                       (* at [await upsertFile] *)
| Done.

Record Upload := {
  u_state : nat;
  u_filePath : string;
  u_fileHash : string;
  u_branch : string;
  u_isBaseBranch : bool;
  u_watcher : WatcherRef;
  u_stage : UploadStage;
}.

(** Calls that leave the orchestrator. *)
Inductive ApiCall :=
| GetKilocodeConfig (cwd : string) (repositoryUrl : option string)
| GetServerManifest (organizationId projectId branch token : string)
| ReadFile (absoluteFilePath : string)
| UpsertFile (fileBuffer fileHash filePath gitBranch : string)
    (isBaseBranch : bool) (organizationId : option string)
    (projectId : string) (kilocodeToken : option string).

(** The orchestrator between start-up and disposal, with the work it has
    pending; a fetch, handler or upload is named by its position. *)
Record World := {
  indexer : Indexer;
  fetches : list Fetch;
  handlers : list Handler;
  uploads : list Upload;
  calls : list ApiCall;
}.

Definition boot (this : Indexer) : World :=
  {| indexer := this; fetches := []; handlers := []; uploads := []; calls := [] |}.

Definition states (w : World) : list FolderState :=
  workspaceFolderState (indexer w).

Definition with_states (f : list FolderState -> list FolderState) (w : World) :=
  {| indexer := {| config := config (indexer w);
                   isActive := isActive (indexer w);
                   workspaceFolderState := f (states w) |};
     fetches := fetches w; handlers := handlers w;
     uploads := uploads w; calls := calls w |}.

(** Assignments to fields of the folder state object at position [i]. *)
Definition on_state (i : nat) (f : FolderState -> FolderState) (w : World) :=
  with_states (alter f i) w.

Definition with_fetches (f : list Fetch -> list Fetch) (w : World) :=
  {| indexer := indexer w; fetches := f (fetches w); handlers := handlers w;
     uploads := uploads w; calls := calls w |}.

Definition with_handlers (f : list Handler -> list Handler) (w : World) :=
  {| indexer := indexer w; fetches := fetches w; handlers := f (handlers w);
     uploads := uploads w; calls := calls w |}.

Definition with_uploads (f : list Upload -> list Upload) (w : World) :=
  {| indexer := indexer w; fetches := fetches w; handlers := handlers w;
     uploads := f (uploads w); calls := calls w |}.

Definition call (c : ApiCall) (w : World) :=
  {| indexer := indexer w; fetches := fetches w; handlers := handlers w;
     uploads := uploads w; calls := (calls w ++ [c])%list |}.

Definition set_stage (s : FetchStage) (f : Fetch) : Fetch :=
  {| f_state := f_state f; f_branch := f_branch f; f_stage := s |}.

Definition set_upload_stage (s : UploadStage) (u : Upload) : Upload :=
  {| u_state := u_state u; u_filePath := u_filePath u;
     u_fileHash := u_fileHash u; u_branch := u_branch u;
     u_isBaseBranch := u_isBaseBranch u; u_watcher := u_watcher u;
     u_stage := s |}.

(** *** Manifest fetch *)

Section Orchestrator.

Context `{Host}.

Definition manifest_error (errorMessage branch : string) : ManagedIndexerError :=
  {| type := E_manifest;
     message := "Failed to fetch manifest: " ++ errorMessage;
     context := {| ctx_filePath := None; ctx_branch := Some branch;
                   ctx_operation := Some "fetch-manifest" |} |}.

(** [state.gitBranch === branch] *)
Definition on_branch (state : FolderState) (branch : string) : bool :=
  bool_decide (gitBranch state = Some branch).

(** [getManifest(state, branch)] up to its [return]; [state] is the object
    at position [i].  A new fetch runs up to its first [await], the call of
    [getKilocodeConfig], before its promise is stored in the slot. *)
Definition getManifest (i : nat) (state : FolderState) (branch : string)
    (w : World) : ManifestPromise * World :=
  (* if (state.manifestFetchPromise && state.gitBranch === branch) *)
  let reused :=
    match manifestFetchPromise state with
    | Some p => if on_branch state branch then Some p else None
    | None => None
    end in
  match reused with
  | Some p => (Fetching p, w)
  | None =>
      (* if (state.manifest && state.gitBranch === branch) *)
      let cached :=
        match manifest state with
        | Some m => if on_branch state branch then Some m else None
        | None => None
        end in
      match cached with
      | Some m => (Cached m, w)
      | None =>
          let fetch := List.length (fetches w) in
          let w := on_state i (set_gitBranch (Some branch)) w in
          let w := call (GetKilocodeConfig (workspaceFolder state)
                           (repositoryUrl state)) w in
          let w := with_fetches
                     (fun l => (l ++ [{| f_state := i; f_branch := branch;
                                         f_stage := AwaitingConfig |}])%list) w in
          let w := on_state i (set_manifestFetchPromise (Some fetch)) w in
          (Fetching fetch, w)
      end
  end.

(** The [catch] and [finally] blocks of a fetch that fails with [msg]. *)
Definition fetch_fails (fetch : nat) (f : Fetch) (msg : string) (w : World) : World :=
  let w := on_state (f_state f)
             (set_error (Some (manifest_error msg (f_branch f)))) w in
  let w := on_state (f_state f) (set_manifestFetchPromise None) w in
  with_fetches (alter (set_stage (Rejected msg)) fetch) w.

(** The fetch resumes after [await getKilocodeConfig(...)], which settled
    with [r] (the [config?.project?.id] of the resolved configuration). *)
Definition config_settles (fetch : nat) (r : Res (option string)) (w : World)
    : World :=
  match fetches w !! fetch with
  | Some f =>
      match f_stage f with
      | AwaitingConfig =>
          match r with
          | Ok projectId =>
              if negb (Js.truthy_opt projectId) then
                fetch_fails fetch f
                  ("No project ID found for workspace folder "
                   ++ default EmptyString
                        (workspaceFolder <$> states w !! f_state f)) w
              else
                let w := on_state (f_state f) (set_projectId projectId) w in
                match config (indexer w) with
                | Some {| kilocodeToken := Some token;
                          kilocodeOrganizationId := Some organizationId |} =>
                    if Js.truthy token && Js.truthy organizationId then
                      let w := call (GetServerManifest organizationId
                                       (default EmptyString projectId)
                                       (f_branch f) token) w in
                      with_fetches (alter (set_stage AwaitingManifest) fetch) w
                    else
                      fetch_fails fetch f
                        "Missing required configuration for manifest fetch" w
                | _ =>
                    fetch_fails fetch f
                      "Missing required configuration for manifest fetch" w
                end
          | Err e => fetch_fails fetch f e w
          end
      | _ => w
      end
  | None => w
  end.

(** The fetch resumes after [await getServerManifest(...)]. *)
Definition manifest_settles (fetch : nat) (r : Res ServerManifest) (w : World)
    : World :=
  match fetches w !! fetch with
  | Some f =>
      match f_stage f with
      | AwaitingManifest =>
          match r with
          | Ok m =>
              let w := on_state (f_state f) (set_manifest (Some m)) w in
              let w := on_state (f_state f) (clear_error_of E_manifest) w in
              let w := on_state (f_state f) (set_manifestFetchPromise None) w in
              with_fetches (alter (set_stage (Fulfilled m)) fetch) w
          | Err e => fetch_fails fetch f e w
          end
      | _ => w
      end
  | None => w
  end.

(** How the promise returned by [getManifest] has settled, if it has. *)
Definition settled (p : ManifestPromise) (w : World) : option (Res ServerManifest) :=
  match p with
  | Cached m => Some (Ok m)
  | Fetching fetch =>
      match f_stage <$> fetches w !! fetch with
      | Some (Fulfilled m) => Some (Ok m)
      | Some (Rejected msg) => Some (Err msg)
      | _ => None
      end
  end.

(** *** Event handling *)

Definition suspend (h : Handler) (w : World) : World :=
  with_handlers (fun l => (l ++ [h])%list) w.

(** [manifest.files.some((f) => f.filePath === filePath && f.fileHash === fileHash)] *)
Definition already_indexed (m : ServerManifest) (path hash : string) : bool :=
  existsb (fun f => String.eqb (filePath f) path && String.eqb (fileHash f) hash)
          (files m).

(** [scannerExtensions.includes(path.extname(filePath).toLowerCase())] *)
Definition supported (path : string) : bool :=
  bool_decide (Js.toLowerCase (path_extname path) ∈ scannerExtensions).

(** [onEvent(event)] up to its first [await] or its [return]. *)
Definition onEvent (event : GitWatcherEvent) (w : World) : World :=
  if negb (isActive (indexer w)) then w
  else
    match list_find (fun s => watcher s = Some (ref_id (ev_watcher event)))
                    (states w) with
    | None => w
    | Some (i, state) =>
        if negb (bool_decide (is_Some (watcher state))) then w
        else if negb (Js.truthy_opt (projectId state))
                || negb (Js.truthy_opt (gitBranch state)) then w
        else
          match event with
          | GitWatcher.BranchChanged _ newBranch _ _ _ =>
              let '(p, w) := getManifest i state newBranch w in
              suspend (OnBranchChanged p) w
          | GitWatcher.ScanStart _ _ _ =>
              let w := on_state i (set_isIndexing true) w in
              on_state i (set_error None) w
          | GitWatcher.ScanEnd _ _ _ =>
              on_state i (set_isIndexing false) w
          | GitWatcher.FileDeleted _ _ _ _ => w
          | GitWatcher.FileChanged filePath fileHash branch isBaseBranch watcher =>
              if negb (supported filePath) then w
              else
                let '(p, w) := getManifest i state branch w in
                suspend (OnFileChanged i filePath fileHash branch
                           isBaseBranch watcher p) w
          end
    end.

(** [onEvent] resumes after [await this.getManifest(...)], once the promise
    has settled. *)
Definition resume (handler : nat) (w : World) : World :=
  match handlers w !! handler with
  | Some (OnBranchChanged p) =>
      match settled p w with
      | Some _ => with_handlers (<[handler := Finished]>) w
      | None => w
      end
  | Some (OnFileChanged i filePath fileHash branch isBaseBranch watcher p) =>
      match settled p w with
      | Some (Ok manifest) =>
          let w := with_handlers (<[handler := Finished]>) w in
          if already_indexed manifest filePath fileHash then w
          else
            with_uploads
              (fun l => (l ++ [{| u_state := i; u_filePath := filePath;
                                  u_fileHash := fileHash; u_branch := branch;
                                  u_isBaseBranch := isBaseBranch;
                                  u_watcher := watcher;
                                  u_stage := Queued |}])%list) w
      | Some (Err _) => with_handlers (<[handler := Finished]>) w
      | None => w
      end
  | _ => w
  end.

(** *** Uploads *)

Definition upsert_error (errorMessage : string) (u : Upload) : ManagedIndexerError :=
  {| type := E_file_upsert;
     message := "Failed to upsert file: " ++ errorMessage;
     context := {| ctx_filePath := Some (u_filePath u);
                   ctx_branch := Some (u_branch u);
                   ctx_operation := Some "file-upsert" |} |}.

Definition finish_upload (task : nat) (w : World) : World :=
  with_uploads (alter (set_upload_stage Done) task) w.

(** The [catch] block of an upload. *)
Definition upload_fails (task : nat) (u : Upload) (msg : string) (w : World)
    : World :=
  finish_upload task
    (on_state (u_state u) (set_error (Some (upsert_error msg u))) w).

Definition is_queued (u : Upload) : bool :=
  match u_stage u with Queued => true | _ => false end.

Definition is_running (u : Upload) : bool :=
  match u_stage u with Reading _ _ | Upserting => true | _ => false end.

(** The limiter lets a queued function run when it is the oldest one
    queued and fewer than [MANAGED_MAX_CONCURRENT_FILES] are running. *)
Definition may_start (task : nat) (w : World) : bool :=
  forallb (fun u => negb (is_queued u)) (take task (uploads w))
  && (List.length (List.filter is_running (uploads w))
      <? MANAGED_MAX_CONCURRENT_FILES)%nat.

(** The limiter starts the function: it runs up to [await fs.readFile]. *)
Definition start_upload (task : nat) (w : World) : World :=
  match uploads w !! task with
  | Some u =>
      if is_queued u && may_start task w then
        let configured :=
          match config (indexer w) with
          | Some c => Js.truthy_opt (kilocodeToken c)
                      && Js.truthy_opt (kilocodeOrganizationId c)
          | None => false
          end in
        match states w !! u_state u with
        | Some state =>
            if configured && Js.truthy_opt (projectId state) then
              let cwd := ref_cwd (u_watcher u) in
              let absoluteFilePath :=
                if path_isAbsolute (u_filePath u) then u_filePath u
                else path_join cwd (u_filePath u) in
              let w := call (ReadFile absoluteFilePath) w in
              with_uploads
                (alter (set_upload_stage
                          (Reading (default EmptyString (projectId state))
                                   absoluteFilePath)) task) w
            else finish_upload task w
        | None => finish_upload task w
        end
      else w
  | None => w
  end.

(** The function resumes after [await fs.readFile(...)]. *)
Definition read_settles (task : nat) (r : Res string) (w : World) : World :=
  match uploads w !! task with
  | Some u =>
      match u_stage u with
      | Reading projectId absoluteFilePath =>
          match r with
          | Ok fileBuffer =>
              let relativeFilePath :=
                path_relative (ref_cwd (u_watcher u)) absoluteFilePath in
              match config (indexer w) with
              | Some c =>
                  let w := call (UpsertFile fileBuffer (u_fileHash u)
                                   relativeFilePath (u_branch u)
                                   (u_isBaseBranch u)
                                   (kilocodeOrganizationId c) projectId
                                   (kilocodeToken c)) w in
                  with_uploads (alter (set_upload_stage Upserting) task) w
              | None =>
                  upload_fails task u
                    "Cannot read properties of null (reading 'kilocodeOrganizationId')" w
              end
          | Err e => upload_fails task u e w
          end
      | _ => w
      end
  | None => w
  end.

(** The function resumes after [await upsertFile(...)]. *)
Definition upsert_settles (task : nat) (r : Res unit) (w : World) : World :=
  match uploads w !! task with
  | Some u =>
      match u_stage u with
      | Upserting =>
          match r with
          | Ok _ =>
              finish_upload task
                (on_state (u_state u) (clear_error_of E_file_upsert) w)
          | Err e => upload_fails task u e w
          end
      | _ => w
      end
  | None => w
  end.

(** *** Turns of the event loop *)

Inductive Action :=
| Deliver (event : GitWatcherEvent)
| ConfigSettles (fetch : nat) (r : Res (option string))
| ManifestSettles (fetch : nat) (r : Res ServerManifest)
| Resume (handler : nat)
| StartUpload (task : nat)
| ReadSettles (task : nat) (r : Res string)
| UpsertSettles (task : nat) (r : Res unit).

Definition step (w : World) (a : Action) : World :=
  match a with
  | Deliver event => onEvent event w
  | ConfigSettles fetch r => config_settles fetch r w
  | ManifestSettles fetch r => manifest_settles fetch r w
  | Resume handler => resume handler w
  | StartUpload task => start_upload task w
  | ReadSettles task r => read_settles task r w
  | UpsertSettles task r => upsert_settles task r w
  end.

Definition run (w : World) (l : list Action) : World := foldl step w l.

(** *** Observations *)

(** The fetches in flight for the folder state at [i] and [branch]. *)
Definition in_flight_for (i : nat) (branch : string) (w : World) : list Fetch :=
  List.filter
    (fun f => Nat.eqb (f_state f) i && String.eqb (f_branch f) branch
              && in_flight f)
    (fetches w).

(** The calls of the manifest-fetch API for [branch]. *)
Definition manifest_calls (branch : string) (w : World) : list ApiCall :=
  List.filter
    (fun c => match c with
              | GetServerManifest _ _ b _ => String.eqb b branch
              | _ => false
              end) (calls w).

Definition is_upsert (c : ApiCall) : bool :=
  match c with UpsertFile _ _ _ _ _ _ _ _ => true | _ => false end.

(** The function [onEvent] hands to the limiter for a changed file. *)
Definition queued (i : nat) (path hash branch : string) (isBaseBranch : bool)
    (watcher : WatcherRef) : Upload :=
  {| u_state := i; u_filePath := path; u_fileHash := hash; u_branch := branch;
     u_isBaseBranch := isBaseBranch; u_watcher := watcher; u_stage := Queued |}.

(** The value of [state.manifestFetchPromise] for the folder state at [i]. *)
Definition slot (i : nat) (w : World) : option nat :=
  states w !! i ≫= manifestFetchPromise.

End Orchestrator.

(** The call of [isGitRepository] for this folder settles with an answer,
    yes or no. *)
Definition check_settles (f : string * RootEnv) : bool :=
  is_ok (r_isGitRepository f.2).

End ManagedIndexer.

(** ** Concrete inputs

    The repositories, answers and event sequences at which the properties
    below are evaluated; several are the scenarios of the test suites. *)

Module Examples.

Import GitWatcher ManagedIndexer.

(** *** A stand-in for Node's [path] module on POSIX paths *)

Fixpoint last_dot (s : string) : option string :=
  match s with
  | EmptyString => None
  | String c s' =>
      match last_dot s' with
      | Some r => Some r
      | None => if Ascii.eqb c "."%char then Some s else None
      end
  end.

Fixpoint after_slash (s : string) : option string :=
  match s with
  | EmptyString => None
  | String c s' =>
      match after_slash s' with
      | Some r => Some r
      | None => if Ascii.eqb c "/"%char then Some s' else None
      end
  end.

(** From the last dot of the last path segment, a leading dot apart. *)
Definition posix_extname (s : string) : string :=
  match default s (after_slash s) with
  | String _ rest => default EmptyString (last_dot rest)
  | EmptyString => EmptyString
  end.

Definition posix_relative (from to : string) : string :=
  if String.prefix (from ++ "/") to
  then String.substring (String.length from + 1) (String.length to) to
  else to.

#[global] Instance posix_host : Host := {|
  path_extname := posix_extname;
  path_isAbsolute := String.prefix "/";
  path_join := fun a b => a ++ "/" ++ b;
  path_relative := posix_relative;
  scannerExtensions := [".ts"; ".tsx"; ".js"; ".py"; ".md"];
  MANAGED_MAX_CONCURRENT_FILES := 10;
|}.

(** *** Watchers *)

Definition fresh_watcher : GitWatcher :=
  {| oid := 7;
     GitWatcher.config :=
       {| cwd := "/test/repo"; defaultBranchOverride := None |};
     currentState := None; isProcessing := false; defaultBranch := None |}.

(** The watcher after a scan and [start()] on [main] at commit [abc123]. *)
Definition started_watcher : GitWatcher :=
  {| oid := 7;
     GitWatcher.config :=
       {| cwd := "/test/repo"; defaultBranchOverride := None |};
     currentState :=
       Some {| branch := "main"; commit := "abc123"; isDetached := false |};
     isProcessing := false; defaultBranch := Some "main" |}.

Definition me : WatcherRef := {| ref_id := 7; ref_cwd := "/test/repo" |}.

Definition no_output : ExecResult := {| yielded := []; failure := None |}.

Definition no_diff : string -> string -> Res GitDiff :=
  fun _ _ => Err "not on a feature branch".

(** *** Scans *)

Definition tracked : list LsRecord :=
  [ {| mode := "100644"; hash := "e69de29bb2d1d6434b8b29ae775ad8c2e48c5391";
       stage := "0"; path := "README.md" |};
    {| mode := "100644"; hash := "abc123";
       stage := "0"; path := "path with spaces/file.ts" |} ].

(** On [main], the base branch, with the files of [tracked]. *)
Definition on_main (records : list LsRecord) : ScanEnv :=
  {| sDetached := Ok false; sBranch := Ok "main"; sBase := Ok "main";
     sDiff := no_diff;
     sExec := fun cmd =>
       if String.eqb cmd "git ls-files -s"
       then {| yielded := map (ls_line " ") records; failure := None |}
       else no_output |}.

Definition changed : list LsRecord :=
  [ {| mode := "100644"; hash := "abc123"; stage := "0"; path := "new-file.ts" |};
    {| mode := "100644"; hash := "def456"; stage := "0";
       path := "existing-file.ts" |} ].

(** On [feature/test], with [diff] against [main]; the batched command
    answers with [records]. *)
Definition on_feature (diff : GitDiff) (records : list LsRecord) : ScanEnv :=
  {| sDetached := Ok false; sBranch := Ok "feature/test"; sBase := Ok "main";
     sDiff := fun _ _ => Ok diff;
     sExec := fun cmd =>
       if String.eqb cmd (diff_command (diff_files diff))
       then {| yielded := map (ls_line " ") records; failure := None |}
       else no_output |}.

Definition two_changes : GitDiff :=
  {| added := ["new-file.ts"]; modified := ["existing-file.ts"]; deleted := [] |}.

Definition only_a_deletion : GitDiff :=
  {| added := []; modified := []; deleted := ["old-file.ts"] |}.

(** A tracked file whose name has two consecutive spaces. *)
Definition double_spaced : LsRecord :=
  {| mode := "100644"; hash := "abc123"; stage := "0"; path := "my  file.ts" |}.

Definition one_addition : GitDiff :=
  {| added := ["my  file.ts"]; modified := []; deleted := [] |}.

(** *** Change-handling cycles *)

(** [main] to [feature/test] at the same commit. *)
Definition branch_switch : CycleEnv :=
  {| cDetached := Ok false; cBranch := Ok "feature/test";
     cCommit := Ok "abc123"; cBase := Ok "main";
     cScan := on_feature two_changes changed |}.

(** A new commit on [main]. *)
Definition new_commit : CycleEnv :=
  {| cDetached := Ok false; cBranch := Ok "main";
     cCommit := Ok "def456"; cBase := Ok "main";
     cScan := on_main tracked |}.

(** A new commit on [main], and git fails during the rescan. *)
Definition new_commit_failing_rescan : CycleEnv :=
  {| cDetached := Ok false; cBranch := Ok "main";
     cCommit := Ok "def456"; cBase := Ok "main";
     cScan := {| sDetached := Ok false; sBranch := Ok "main";
                 sBase := Ok "main"; sDiff := no_diff;
                 sExec := fun _ => {| yielded := [];
                                      failure := Some "Git command failed" |} |} |}.

(** The watcher after [start()] on [main] at commit [abc123], when no
    scan has resolved the base branch. *)
Definition started_unresolved : GitWatcher :=
  {| oid := 7;
     GitWatcher.config :=
       {| cwd := "/test/repo"; defaultBranchOverride := None |};
     currentState :=
       Some {| branch := "main"; commit := "abc123"; isDetached := false |};
     isProcessing := false; defaultBranch := None |}.

(** [main] to [feature/test], and [getBaseBranch] rejects. *)
Definition branch_switch_without_base : CycleEnv :=
  {| cDetached := Ok false; cBranch := Ok "feature/test";
     cCommit := Ok "abc123"; cBase := Err "no remote";
     cScan := on_feature two_changes changed |}.

(** *** Start-up *)

Definition test_config : ManagedIndexerConfig :=
  {| kilocodeToken := Some "test-token";
     kilocodeOrganizationId := Some "test-org-id" |}.

Definition manifest_of_main : ServerManifest :=
  {| files := [ {| filePath := "test.ts"; fileHash := "abc123" |} ] |}.

(** A folder whose start-up succeeds on branch [main]. *)
Definition healthy (watcher : nat) : RootEnv :=
  {| r_isGitRepository := Ok true;
     r_getGitRepositoryInfo := Ok (Some "https://github.com/test/repo");
     r_getCurrentBranch := Ok "main";
     r_getKilocodeConfig := Ok (Some "test-project-id");
     r_getServerManifest := Ok manifest_of_main;
     r_newGitWatcher := Ok watcher;
     r_onEvent := Ok tt |}.

Definition manifest_down : RootEnv :=
  {| r_isGitRepository := Ok true;
     r_getGitRepositoryInfo := Ok (Some "https://github.com/test/other");
     r_getCurrentBranch := Ok "main";
     r_getKilocodeConfig := Ok (Some "other-project-id");
     r_getServerManifest := Err "API error";
     r_newGitWatcher := Ok 3;
     r_onEvent := Ok tt |}.

Definition git_down : RootEnv :=
  {| r_isGitRepository := Ok true;
     r_getGitRepositoryInfo := Err "Git command failed";
     r_getCurrentBranch := Ok "main";
     r_getKilocodeConfig := Ok (Some "third-project-id");
     r_getServerManifest := Ok manifest_of_main;
     r_newGitWatcher := Ok 4;
     r_onEvent := Ok tt |}.

Definition stopped : Indexer :=
  {| config := None; isActive := false; workspaceFolderState := [] |}.

(** The orchestrator after [start()] with the single folder
    [/test/repo], on [main]. *)
Definition started : Indexer :=
  (start test_config true [("/test/repo", healthy 7)] stopped).2.

(** *** Events *)

Definition branch_changed (previous new : string) : GitWatcherEvent :=
  BranchChanged previous new new false me.

Definition file_changed (path hash branch : string) : GitWatcherEvent :=
  FileChanged path hash branch false me.

(** Three switches in a row, [feature/a], [feature/b], [feature/a] again,
    while the manifest service has not answered yet. *)
Definition back_and_forth : list Action :=
  [ Deliver (branch_changed "main" "feature/a");
    Deliver (branch_changed "feature/a" "feature/b");
    Deliver (branch_changed "feature/b" "feature/a");
    ConfigSettles 0 (Ok (Some "test-project-id"));
    ConfigSettles 1 (Ok (Some "test-project-id"));
    ConfigSettles 2 (Ok (Some "test-project-id")) ].

(** A file of [feature/test] arrives, the manifest fetch for that branch
    fails, and the same file arrives again. *)
Definition failed_fetch_then_retry : list Action :=
  [ Deliver (file_changed "test.ts" "abc123" "feature/test");
    ConfigSettles 0 (Ok (Some "test-project-id"));
    ManifestSettles 0 (Err "API error");
    Resume 0;
    Deliver (file_changed "test.ts" "abc123" "feature/test") ].

(** A branch change and a file of the new branch arrive before the
    manifest of that branch does. *)
Definition two_events_one_branch : list Action :=
  [ Deliver (branch_changed "main" "feature/test");
    Deliver (file_changed "test.ts" "abc123" "feature/test");
    ConfigSettles 0 (Ok (Some "test-project-id"));
    ManifestSettles 0 (Ok {| files := [] |}) ].

(** A folder state that owns a watcher but has no project id. *)
Definition half_initialised : Indexer :=
  {| config := Some test_config; isActive := true;
     workspaceFolderState :=
       [ set_watcher (Some 7)
           (set_gitBranch (Some "main") (initial_state "/test/repo")) ] |}.

End Examples.

(** ** Further observations

    Predicates and measures used to state what the watcher and the
    orchestrator keep true along every run. *)

Module WatcherObs.

Import GitWatcher.

(** A [file-changed] or [file-deleted] event of the scan of [b]. *)
Definition file_event_of (b : string) (base : bool) (me : WatcherRef)
    (e : GitWatcherEvent) : Prop :=
  (exists p h, e = FileChanged p h b base me) \/
  (exists p, e = FileDeleted p b base me).

(** The same answers, except that of [getBaseBranch]. *)
Definition with_base (base : Res string) (env : ScanEnv) : ScanEnv :=
  {| sDetached := sDetached env; sBranch := sBranch env; sBase := base;
     sDiff := sDiff env; sExec := sExec env |}.

(** A [file-changed] event carries a hash without white space and a
    non-empty path whose pieces are separated by single spaces. *)
Definition clean_entry (x : Effect) : Prop :=
  match x with
  | Emit (FileChanged p h _ _ _) =>
      is_field h = true /\ Js.truthy p = true /\ normalized p = p
  | _ => True
  end.

End WatcherObs.

Module IndexerObs.

Import ManagedIndexer.
Import GitWatcher (WatcherRef, ref_id, ref_cwd, GitWatcherEvent, ev_watcher).

(** Whenever the slot of a folder state is set, it names a fetch that is
    in flight for that state and for the branch the state is on. *)
Definition slots_name_pending_fetches (w : World) : Prop :=
  forall i st p,
    states w !! i = Some st -> manifestFetchPromise st = Some p ->
    exists f, fetches w !! p = Some f /\ in_flight f = true /\
              f_state f = i /\ gitBranch st = Some (f_branch f).

Definition count {A} (P : A -> bool) (l : list A) : nat :=
  List.length (List.filter P l).

(** The uploads at [await fs.readFile] or [await upsertFile]. *)
Definition running (w : World) : nat := count is_running (uploads w).

Definition past_read (u : Upload) : bool :=
  match u_stage u with Upserting | Done => true | _ => false end.

Definition is_file_handler (h : Handler) : bool :=
  match h with OnFileChanged _ _ _ _ _ _ _ => true | _ => false end.

Definition is_file_delivery (a : Action) : bool :=
  match a with Deliver (GitWatcher.FileChanged _ _ _ _ _) => true | _ => false end.

Definition upserts (w : World) : nat := count is_upsert (calls w).

(** Changed files waiting for their manifest or handed to the limiter. *)
Definition pending_files (w : World) : nat :=
  List.length (uploads w) + count is_file_handler (handlers w).

(** The events delivered during a run, in order. *)
Definition deliveries (l : list Action) : list GitWatcherEvent :=
  omap (fun a => match a with Deliver e => Some e | _ => None end) l.

(** The branch an event makes [onEvent] ask the manifest for, if any, is
    not the empty string. *)
Definition names_its_branch (e : GitWatcherEvent) : bool :=
  match e with
  | GitWatcher.FileChanged _ _ b _ _ => Js.truthy b
  | GitWatcher.BranchChanged _ nb _ _ _ => Js.truthy nb
  | _ => true
  end.

(** Whether the last bracket among [events] opened a scan. *)
Definition scanning (before : bool) (events : list GitWatcherEvent) : bool :=
  foldl (fun v e => match e with
                    | GitWatcher.ScanStart _ _ _ => true
                    | GitWatcher.ScanEnd _ _ _ => false
                    | _ => v
                    end) before events.

(** The orchestrator is active and the watcher [id] resolves to the
    initialised folder state at [i], whose indexing flag is [v]. *)
Definition owns (id i : nat) (v : bool) (w : World) : Prop :=
  isActive (indexer w) = true /\
  exists st, list_find (fun s => watcher s = Some id) (states w) = Some (i, st) /\
             Js.truthy_opt (projectId st) = true /\
             Js.truthy_opt (gitBranch st) = true /\ isIndexing st = v.

(** An assignment that keeps the watcher and the indexing flag of a folder
    state, and keeps its project id and branch non-empty. *)
Definition benign (g : FolderState -> FolderState) : Prop :=
  forall s, watcher (g s) = watcher s /\ isIndexing (g s) = isIndexing s /\
            (Js.truthy_opt (projectId s) = true ->
             Js.truthy_opt (projectId (g s)) = true) /\
            (Js.truthy_opt (gitBranch s) = true ->
             Js.truthy_opt (gitBranch (g s)) = true).

(** What [start] leaves in a folder state: no fetch pending, not indexing;
    a watcher only with a manifest, a manifest only with a project id, a
    project id only with a branch; and a watcher whenever there is no
    error. *)
Definition consistent (st : FolderState) : Prop :=
  manifestFetchPromise st = None /\ isIndexing st = false /\
  (is_Some (watcher st) -> is_Some (manifest st)) /\
  (is_Some (manifest st) -> Js.truthy_opt (projectId st) = true) /\
  (Js.truthy_opt (projectId st) = true -> is_Some (gitBranch st)) /\
  (error st = None -> is_Some (watcher st)).

(** The folders for which the function mapped by [start] returns [null]:
    those that are no git repository, and those whose configuration, once
    the git information is read, has no project id. *)
Definition skipped (env : RootEnv) : bool :=
  match r_isGitRepository env with
  | Ok false => true
  | Ok true =>
      match r_getGitRepositoryInfo env, r_getCurrentBranch env,
            r_getKilocodeConfig env with
      | Ok _, Ok _, Ok projectId => negb (Js.truthy_opt projectId)
      | _, _, _ => false
      end
  | Err _ => false
  end.

Definition is_file_deleted (e : GitWatcherEvent) : bool :=
  match e with GitWatcher.FileDeleted _ _ _ _ => true | _ => false end.

(** The manifest [m] held in [state] was obtained for [branch]: at
    start-up, from the answers [env], or by a fetch of this root for
    [branch] that the manifest service has answered with [m]. *)
Definition obtained_for (w : World) (i : nat) (state : FolderState)
    (branch : string) (m : ServerManifest) : Prop :=
  (exists cwd env,
     start_folder cwd env = Ok (Some state) /\
     r_getCurrentBranch env = Ok branch /\ r_getServerManifest env = Ok m)
  \/ (exists p f,
        fetches w !! p = Some f /\ f_state f = i /\ f_branch f = branch /\
        f_stage f = Fulfilled m).

(** Between [w] and [w'] the changed file of [upload] was reconciled
    against [m]: nothing was handed to the limiter if [m] lists its path
    and hash, and exactly [upload] otherwise; the upsert API was not
    called meanwhile. *)
Definition reconciled (w w' : World) (m : ServerManifest) (upload : Upload)
    : Prop :=
  uploads w'
  = (uploads w ++
     if already_indexed m (u_filePath upload) (u_fileHash upload) then []
     else [upload])%list /\
  List.filter is_upsert (calls w') = List.filter is_upsert (calls w).

(** The folder state at [i] is on [branch] and holds the manifest [m]. *)
Definition holds_manifest (w : World) (i : nat) (branch : string)
    (m : ServerManifest) : Prop :=
  exists st, states w !! i = Some st /\
             manifest st = Some m /\ gitBranch st = Some branch.

End IndexerObs.

(** ** More concrete inputs *)

Module MoreExamples.

Import GitWatcher ManagedIndexer Examples.

Definition tab : string := String (ascii_of_nat 9) EmptyString.

Definition spaced_record : LsRecord :=
  {| mode := "100644"; hash := "abc123"; stage := "0";
     path := "path with spaces/file.ts" |}.

(** A watcher configured with the default branch [develop]. *)
Definition overridden_watcher : GitWatcher :=
  {| oid := 7;
     GitWatcher.config :=
       {| cwd := "/test/repo"; defaultBranchOverride := Some "develop" |};
     currentState := None; isProcessing := false; defaultBranch := None |}.

(** HEAD is detached. *)
Definition head_detached : CycleEnv :=
  {| cDetached := Ok true; cBranch := Err "detached"; cCommit := Ok "def456";
     cBase := Ok "main"; cScan := on_main tracked |}.

(** *** Orchestrator states *)

(** The folder state at index [i]. *)
Definition folder_state (w : World) (i : nat) : FolderState :=
  default (initial_state EmptyString) (states w !! i).

(** After a switch from [main] to [feature/a], nothing answered yet. *)
Definition on_feature_a : World :=
  run (boot started) [Deliver (branch_changed "main" "feature/a")].

(** A scan of [main] has started and reported one file. *)
Definition scan_under_way : list Action :=
  [ Deliver (ScanStart "main" true me);
    Deliver (FileChanged "test.ts" "abc123" "main" true me);
    ConfigSettles 0 (Ok (Some "test-project-id")) ].

(** The orchestrator after [start()] with two healthy folders. *)
Definition two_roots : Indexer :=
  (start test_config true
     [("/test/repo", healthy 7); ("/test/other", healthy 8)] stopped).2.

(** A folder that is no git repository. *)
Definition not_a_repository : RootEnv :=
  {| r_isGitRepository := Ok false;
     r_getGitRepositoryInfo := Err "not a git repository";
     r_getCurrentBranch := Err "not a git repository";
     r_getKilocodeConfig := Ok None;
     r_getServerManifest := Ok manifest_of_main;
     r_newGitWatcher := Ok 5;
     r_onEvent := Ok tt |}.

(** A repository whose configuration names no project. *)
Definition no_project : RootEnv :=
  {| r_isGitRepository := Ok true;
     r_getGitRepositoryInfo := Ok (Some "https://github.com/test/bare");
     r_getCurrentBranch := Ok "main";
     r_getKilocodeConfig := Ok None;
     r_getServerManifest := Ok manifest_of_main;
     r_newGitWatcher := Ok 6;
     r_onEvent := Ok tt |}.

(** The orchestrator after [start()] with five folders, two of which are
    skipped. *)
Definition five_roots : Indexer :=
  (start test_config true
     [("/test/repo", healthy 7); ("/test/plain", not_a_repository);
      ("/test/other", manifest_down); ("/test/bare", no_project);
      ("/test/third", git_down)] stopped).2.

(** A folder for which [isGitRepository] rejects. *)
Definition unreadable : RootEnv :=
  {| r_isGitRepository := Err "EACCES";
     r_getGitRepositoryInfo := Ok (Some "https://github.com/test/repo");
     r_getCurrentBranch := Ok "main";
     r_getKilocodeConfig := Ok (Some "test-project-id");
     r_getServerManifest := Ok manifest_of_main;
     r_newGitWatcher := Ok 9;
     r_onEvent := Ok tt |}.

End MoreExamples.

(** * Node's [path] and [os] modules

    src/src/core/fs/find-up.ts and the agent-rules loader call Node's
    [path] functions and [os.homedir()].  They are library code: the
    development is parametric in them, and the examples instantiate them
    with stand-ins for POSIX paths. *)

Module Node.

Class Path := {
  (** [path.resolve(...segments)] *)
  resolve : list string -> string;
  (** [path.dirname(p)] *)
  dirname : string -> string;
  (** [path.relative(from, to)] *)
  relative : string -> string -> string;
  (** [path.isAbsolute(p)] *)
  is_absolute : string -> bool;
  (** [path.join(...segments)] *)
  join_paths : list string -> string;
  (** [os.homedir()] *)
  homedir : string;
}.

End Node.

(** * src/src/core/fs/find-up.ts *)

Module FindUp.

Import Js Node.

Section FindUp.
Context `{Path}.

(** The [while (true)] loop of [findUpDirectoryChain], from the value of
    [current]; each iteration pushes [current].  The loop has no bound of
    its own: [fuel] bounds the number of iterations, and [None] is a loop
    still running when the fuel is spent. *)
Fixpoint climb (fuel : nat) (normalizedStop : option string) (current : string)
    : option (list string) :=
  match fuel with
  | O => None
  | S fuel =>
      if truthy_opt normalizedStop
         && bool_decide (Some current = normalizedStop)
      then Some [current]
      else
        let parent := dirname current in
        if bool_decide (parent = current) then Some [current]
        else (fun directories => current :: directories)
               <$> climb fuel normalizedStop parent
  end.

Definition findUpDirectoryChain (fuel : nat) (startDir : string)
    (stopDir : option string) : option (list string) :=
  let normalizedStart := resolve [startDir] in
  let normalizedStop :=
    match stopDir with
    | Some stop => if truthy stop then Some (resolve [stop]) else None
    | None => None
    end in
  climb fuel normalizedStop normalizedStart.

End FindUp.

End FindUp.

(** * The agent-rules loader

    src/src/services/kilocode/__tests__/CloudAgentService.test.ts, the
    part that holds [agent-rules.ts].  String lengths are counted in code
    units; [orderIndex] and the character budget are integers. *)

Module AgentRules.

Import Js Node.

Definition newline : string := String (ascii_of_nat 10) EmptyString.

Definition AGENT_RULE_FILENAME : string := "AGENTS.md".
Definition MAX_AGENT_RULE_FILES : Z := 6.
Definition MAX_AGENT_RULE_CHARS : Z := 10000.
Definition AGENT_RULES_PRELOADED_NOTICE : string :=
  "(The following rules are loaded automatically from AGENTS.md files and are already available in this context. Do not use read_file for AGENTS.md unless troubleshooting.)"
  ++ newline.

Record AgentRuleContent := {
  filename : string;
  content : string;
  orderIndex : Z;
}.

Record AgentRuleFile := {
  f_filename : string;
  f_resolvedPath : string;
  f_content : string;
  f_orderIndex : Z;
}.

Record AgentRulesOptions := {
  cwd : string;
  activePath : option string;
  readFile : string -> Res string;
}.

(** The functions of [fs/promises] the loader looks for.  A function that
    is missing ([typeof fs.lstat !== "function"]) is [None].  The answer
    of [lstat] and [stat] is what the test on the returned object finds:
    [None] when the object or its method is missing, else the result of
    [isSymbolicLink()] (of [isFile()]). *)
Record Fs := {
  fs_lstat : option (string -> Res (option bool));
  fs_readlink : option (string -> Res string);
  fs_stat : option (string -> Res (option bool));
}.

(** [s.length] *)
Definition len (s : string) : Z := Z.of_nat (String.length s).

(** [s.slice(0, e)] for an integer [e]: a negative [e] counts from the
    end. *)
Definition slice_to (s : string) (e : Z) : string :=
  let to := if (e <? 0)%Z then Z.max (len s + e) 0 else Z.min e (len s) in
  substring 0 (Z.to_nat to) s.

(** [s.startsWith(p)] *)
Definition startsWith (s p : string) : bool := String.prefix p s.

(** A stable sort, as [Array.prototype.sort] is: [x] is put before the
    first element it does not compare greater than, so elements that
    compare equal keep their order. *)
Fixpoint insert_by {A} (cmp : A -> A -> Z) (x : A) (l : list A) : list A :=
  match l with
  | [] => [x]
  | y :: l' => if (cmp x y <=? 0)%Z then x :: l else y :: insert_by cmp x l'
  end.

Definition sort_by {A} (cmp : A -> A -> Z) (l : list A) : list A :=
  foldr (insert_by cmp) [] l.

Definition truncationNote : string := newline ++ "[truncated]".

Definition truncateAgentRulesContent (content : string) (maxLength : Z) : string :=
  if (len content <=? maxLength)%Z then content
  else if (maxLength <=? len truncationNote)%Z then slice_to content maxLength
  else slice_to content (maxLength - len truncationNote) ++ truncationNote.

(** An element of [selectedRules]. *)
Record SelectedRule := {
  header : string;
  s_content : string;
  s_orderIndex : Z;
}.

Definition rule_header (filename : string) : string :=
  "# Agent Rules Standard (" ++ filename ++ "):" ++ newline.

(** The [for] loop of [buildAgentRulesOutput] from [remainingChars]; the
    result is [selectedRules] in the order of the pushes. *)
Fixpoint select_rules (prioritizedRules : list AgentRuleContent)
    (remainingChars : Z) : list SelectedRule :=
  match prioritizedRules with
  | [] => []
  | rule :: rest =>
      let header := rule_header (filename rule) in
      if (remainingChars <=? len header)%Z
      then select_rules rest remainingChars
      else
        let maxContentLength := (remainingChars - len header)%Z in
        let truncatedContent :=
          truncateAgentRulesContent (content rule) maxContentLength in
        let selected := {| header := header; s_content := truncatedContent;
                           s_orderIndex := orderIndex rule |} in
        let remainingChars :=
          (remainingChars - (len header + len truncatedContent))%Z in
        if (remainingChars <=? 0)%Z then [selected]
        else selected :: select_rules rest remainingChars
  end.

Definition render (rule : SelectedRule) : string :=
  header rule ++ s_content rule.

Definition buildAgentRulesOutput (ruleContents : list AgentRuleContent) : string :=
  if (List.length ruleContents =? 0)%nat then EmptyString
  else
    let prioritizedRules :=
      sort_by (fun a b => (orderIndex b - orderIndex a)%Z) ruleContents in
    let remainingChars :=
      (MAX_AGENT_RULE_CHARS - (len AGENT_RULES_PRELOADED_NOTICE + 1))%Z in
    if (remainingChars <=? 0)%Z then EmptyString
    else
      let selectedRules := select_rules prioritizedRules remainingChars in
      let body :=
        join (newline ++ newline)
          (map render
             (sort_by (fun a b => (s_orderIndex a - s_orderIndex b)%Z)
                selectedRules)) in
      if truthy body then AGENT_RULES_PRELOADED_NOTICE ++ newline ++ body
      else EmptyString.

(** [value.replace(/\\/g, "/")] *)
Fixpoint toPosixPath (value : string) : string :=
  match value with
  | EmptyString => EmptyString
  | String c rest =>
      String (if Ascii.eqb c (ascii_of_nat 92) then "/"%char else c)
        (toPosixPath rest)
  end.

Section Loader.
Context `{Path}.
Variable fs : Fs.

Definition normalizePathForCompare (value : string) : string :=
  resolve [value].

Definition isPathWithin (parent child : string) : bool :=
  if negb (truthy parent) || negb (truthy child) then false
  else
    let relativePath := relative parent child in
    is_empty relativePath
    || negb (startsWith relativePath "..") && negb (is_absolute relativePath).

Definition getAgentRulesSearchStart (cwd : string) (activePath : option string)
    : string :=
  match activePath with
  | None => cwd
  | Some active =>
      if negb (truthy active) then cwd
      else
        let activeDir := dirname active in
        if isPathWithin cwd activeDir then activeDir else cwd
  end.

(** [null] is [None]; every rejection is caught. *)
Definition resolveAgentRuleFilePath (agentPath : string) : option string :=
  match fs_lstat fs with
  | None => Some agentPath
  | Some lstat =>
      match lstat agentPath with
      | Err _ => None
      | Ok stats =>
          if negb (default false stats) then Some agentPath
          else
            match fs_readlink fs, fs_stat fs with
            | Some readlink, Some stat =>
                match readlink agentPath with
                | Err _ => Some agentPath
                | Ok linkTarget =>
                    let resolvedTarget :=
                      resolve [dirname agentPath; linkTarget] in
                    match stat resolvedTarget with
                    | Err _ => Some agentPath
                    | Ok resolvedStats =>
                        if negb (default false resolvedStats) then None
                        else Some resolvedTarget
                    end
                end
            | _, _ => Some agentPath
            end
      end
  end.

Definition readAgentRulesFile (filePath : string)
    (readFile : string -> Res string) : Res (option (string * string)) :=
  match resolveAgentRuleFilePath filePath with
  | None => Ok None
  | Some resolvedPath =>
      if negb (truthy resolvedPath) then Ok None
      else
        match readFile resolvedPath with
        | Err e => Err e
        | Ok content =>
            if negb (truthy content) then Ok None
            else Ok (Some (resolvedPath, content))
        end
  end.

(** The loop over [directories], from the values of [seenPaths] and
    [localRules]. *)
Fixpoint read_directories (normalizedCwd : string)
    (readFile : string -> Res string) (directories : list string)
    (seenPaths : list string) (localRules : list AgentRuleFile)
    : Res (list string * list AgentRuleFile) :=
  match directories with
  | [] => Ok (seenPaths, localRules)
  | dirPath :: rest =>
      let agentPath := join_paths [dirPath; AGENT_RULE_FILENAME] in
      match readAgentRulesFile agentPath readFile with
      | Err e => Err e
      | Ok None => read_directories normalizedCwd readFile rest seenPaths localRules
      | Ok (Some (resolvedPath, content)) =>
          if bool_decide (resolvedPath ∈ seenPaths)
          then read_directories normalizedCwd readFile rest seenPaths localRules
          else
            let relativePath := relative normalizedCwd agentPath in
            let label :=
              toPosixPath (if truthy relativePath then relativePath
                           else AGENT_RULE_FILENAME) in
            read_directories normalizedCwd readFile rest
              (seenPaths ++ [resolvedPath])
              (localRules ++
               [ {| f_filename := label; f_resolvedPath := resolvedPath;
                    f_content := content;
                    f_orderIndex := Z.of_nat (List.length localRules) |} ])
      end
  end.

(** [localRules.slice(-n)] for [n > 0] *)
Definition slice_last {A} (n : Z) (l : list A) : list A :=
  drop (Z.to_nat (Z.max (Z.of_nat (List.length l) - n) 0)) l.

(** The body of [loadAgentRulesContent] up to the call of
    [buildAgentRulesOutput]: the value of [ruleContents] there.  [None] is
    a directory walk still running when the fuel is spent, [Err] a
    rejection. *)
Definition collect_rules (fuel : nat) (options : AgentRulesOptions)
    : option (Res (list AgentRuleContent)) :=
  let normalizedCwd := normalizePathForCompare (cwd options) in
  let searchStart :=
    normalizePathForCompare
      (getAgentRulesSearchStart normalizedCwd (activePath options)) in
  let startDir :=
    if isPathWithin normalizedCwd searchStart then searchStart
    else normalizedCwd in
  match FindUp.findUpDirectoryChain fuel startDir (Some normalizedCwd) with
  | None => None
  | Some chain =>
      let directories := reverse chain in
      Some
        match read_directories normalizedCwd (readFile options) directories [] [] with
        | Err e => Err e
        | Ok (seenPaths, localRules) =>
            let globalAgentsPath :=
              join_paths [homedir; ".kilocode"; AGENT_RULE_FILENAME] in
            match readAgentRulesFile globalAgentsPath (readFile options) with
            | Err e => Err e
            | Ok globalRule =>
                let global :=
                  match globalRule with
                  | Some (resolvedPath, content) =>
                      if bool_decide (resolvedPath ∈ seenPaths) then None
                      else Some content
                  | None => None
                  end in
                let ruleContents :=
                  match global with
                  | Some content =>
                      [ {| filename := "~/.kilocode/AGENTS.md";
                           content := content; orderIndex := (-1)%Z |} ]
                  | None => []
                  end in
                let globalCount : Z :=
                  match global with Some _ => 1%Z | None => 0%Z end in
                let maxLocalFiles :=
                  Z.max 0 (MAX_AGENT_RULE_FILES - globalCount) in
                let localRulesLimited :=
                  if (0 <? maxLocalFiles)%Z
                  then slice_last maxLocalFiles localRules else [] in
                Ok (ruleContents ++
                    map (fun rule =>
                           {| filename := f_filename rule;
                              content := f_content rule;
                              orderIndex := f_orderIndex rule |})
                        localRulesLimited)%list
            end
        end
  end.

Definition loadAgentRulesContent (fuel : nat) (options : AgentRulesOptions)
    : option (Res string) :=
  match collect_rules fuel options with
  | None => None
  | Some (Err e) => Some (Err e)
  | Some (Ok ruleContents) => Some (Ok (buildAgentRulesOutput ruleContents))
  end.

End Loader.

End AgentRules.

(** * The watcher's life cycle

    [start()], [setupGitWatchers()], [onEvent()] and [dispose()] of
    [GitWatcher].  Besides the fields of the object modelled above they
    use [this.disposables], one entry per open [fs.watch] handle, and the
    listeners of [this.emitter]. *)

Module Lifecycle.

Import Js Node GitWatcher.

(** An open [fs.watch] handle: the watched path, and whether it was
    opened with [{ recursive: true }]. *)
Record FsWatcher := {
  target : string;
  recursive : bool;
}.

Record Live := {
  object : GitWatcher;
  disposables : list FsWatcher;
  listeners : list nat;
}.

Definition with_object (f : GitWatcher -> GitWatcher) (w : Live) : Live :=
  {| object := f (object w); disposables := disposables w;
     listeners := listeners w |}.

Definition push_disposable (d : FsWatcher) (w : Live) : Live :=
  {| object := object w; disposables := disposables w ++ [d];
     listeners := listeners w |}.

(** What [start()] finds: the answers of the git primitives, of
    [fs.existsSync], and whether [fs.watch] opens a handle or throws. *)
Record StartEnv := {
  aDetached : Res bool;
  aBranch : Res string;
  aCommit : Res string;
  aGitHeadPath : Res string;
  aExists : string -> bool;
  aWatch : FsWatcher -> Res unit;
}.

Inductive Note :=
| Warn (tag : string)
| Error (tag : string)
| Close (d : FsWatcher).

(** [onEvent(handler)] *)
Definition onEvent (handler : nat) (w : Live) : Live :=
  {| object := object w; disposables := disposables w;
     listeners := listeners w ++ [handler] |}.

Section Lifecycle.
Context `{Path}.

(** One of the three inner [try] blocks of [setupGitWatchers]: [guard] is
    the [fs.existsSync] test, where there is one. *)
Definition watch (env : StartEnv) (guard : bool) (d : FsWatcher) (tag : string)
    (w : Live) : Live * list Note :=
  if guard then
    match aWatch env d with
    | Ok _ => (push_disposable d w, [])
    | Err _ => (w, [Warn tag])
    end
  else (w, []).

Definition setupGitWatchers (env : StartEnv) (w : Live) : Live * list Note :=
  match aGitHeadPath env with
  | Err _ => (w, [Error "[GitWatcher] Failed to setup git watchers:"])
  | Ok gitHeadPath =>
      let absoluteGitHeadPath :=
        if is_absolute gitHeadPath then gitHeadPath
        else join_paths [cwd (config (object w)); gitHeadPath] in
      let '(w, notes1) :=
        watch env true {| target := absoluteGitHeadPath; recursive := false |}
          "[GitWatcher] Could not watch HEAD:" w in
      let gitDir := dirname absoluteGitHeadPath in
      let refsHeadsPath := join_paths [gitDir; "refs"; "heads"] in
      let '(w, notes2) :=
        watch env (aExists env refsHeadsPath)
          {| target := refsHeadsPath; recursive := true |}
          "[GitWatcher] Could not watch branch refs:" w in
      let packedRefsPath := join_paths [gitDir; "packed-refs"] in
      let '(w, notes3) :=
        watch env (aExists env packedRefsPath)
          {| target := packedRefsPath; recursive := false |}
          "[GitWatcher] Could not watch packed-refs:" w in
      (w, (notes1 ++ notes2 ++ notes3)%list)
  end.

(** The awaits of [start()] before [setupGitWatchers()]: the assignment
    to make to [this.currentState], if any, or the rejection. *)
Definition initial_snapshot (env : StartEnv) : Res (option GitStateSnapshot) :=
  match aDetached env with
  | Err e => Err e
  | Ok true => Ok None
  | Ok false =>
      match aBranch env, aCommit env with
      | Ok branch, Ok commit =>
          Ok (Some {| branch := branch; commit := commit; isDetached := false |})
      | Err e, _ => Err e
      | _, Err e => Err e
      end
  end.

(** [start()] *)
Definition start (env : StartEnv) (w : Live) : Live * list Note :=
  match initial_snapshot env with
  | Err _ => (w, [Error "[GitWatcher] Failed to initialize watcher:"])
  | Ok None => setupGitWatchers env w
  | Ok (Some snapshot) =>
      setupGitWatchers env (with_object (set_currentState (Some snapshot)) w)
  end.

End Lifecycle.

(** [dispose()] *)
Definition dispose (w : Live) : Live * list Note :=
  ({| object := object w; disposables := []; listeners := [] |},
   map Close (disposables w)).

(** *** Observations *)

Section Observations.
Context `{Path}.

(** The handle [setupGitWatchers] keeps for one of its three targets:
    the test on the target passes and [fs.watch] does not throw. *)
Definition installed (env : StartEnv) (guard : bool) (d : FsWatcher)
    : list FsWatcher :=
  if guard && is_ok (aWatch env d) then [d] else [].

(** The value of [absoluteGitHeadPath]. *)
Definition absolute_head (cwd gitHeadPath : string) : string :=
  if is_absolute gitHeadPath then gitHeadPath
  else join_paths [cwd; gitHeadPath].

(** The handles [setupGitWatchers] keeps for a HEAD at [head]. *)
Definition handles (env : StartEnv) (head : string) : list FsWatcher :=
  let refsHeadsPath := join_paths [dirname head; "refs"; "heads"] in
  let packedRefsPath := join_paths [dirname head; "packed-refs"] in
  (installed env true {| target := head; recursive := false |}
   ++ installed env (aExists env refsHeadsPath)
        {| target := refsHeadsPath; recursive := true |}
   ++ installed env (aExists env packedRefsPath)
        {| target := packedRefsPath; recursive := false |})%list.

End Observations.

Definition closed (notes : list Note) : list FsWatcher :=
  omap (fun n => match n with Close d => Some d | _ => None end) notes.

Definition errors (notes : list Note) : list string :=
  omap (fun n => match n with Error tag => Some tag | _ => None end) notes.

End Lifecycle.

(** ** Observations on the agent-rules loader *)

Module RulesObs.

Import Js Node AgentRules.

(** The characters left for the rule sections once the notice and the
    line feed after it are accounted for. *)
Definition budget : Z :=
  (MAX_AGENT_RULE_CHARS - (len AGENT_RULES_PRELOADED_NOTICE + 1))%Z.

(** What separates two sections of the output. *)
Definition separator : string := newline ++ newline.

(** The section of a rule when nothing is cut. *)
Definition section_of (rule : AgentRuleContent) : string :=
  rule_header (filename rule) ++ content rule.

(** How every header starts. *)
Definition marker : string := "# Agent Rules Standard (".

(** The element pushed to [selectedRules] for a rule whose content is
    not cut. *)
Definition selected_whole (rule : AgentRuleContent) : SelectedRule :=
  {| header := rule_header (filename rule); s_content := content rule;
     s_orderIndex := orderIndex rule |}.

(** The characters of a list of strings, separators not counted. *)
Definition total (parts : list string) : Z :=
  foldr (fun part sum => (len part + sum)%Z) 0%Z parts.

(** The header of a rule does not fit the budget. *)
Definition header_too_long (rule : AgentRuleContent) : Prop :=
  (budget <= len (rule_header (filename rule)))%Z.

(** Order indices grow strictly along the list. *)
Definition ascending (rules : list AgentRuleContent) : Prop :=
  StronglySorted (fun a b => (orderIndex a < orderIndex b)%Z) rules.

(** The value of [startDir] in [loadAgentRulesContent]: where the walk
    towards the workspace folder starts. *)
Definition start_directory `{Path} (options : AgentRulesOptions) : string :=
  let normalizedCwd := normalizePathForCompare (cwd options) in
  let searchStart :=
    normalizePathForCompare
      (getAgentRulesSearchStart normalizedCwd (activePath options)) in
  if isPathWithin normalizedCwd searchStart then searchStart
  else normalizedCwd.

(** The local rules carry their position as order index and a non-empty
    content. *)
Definition indexed (localRules : list AgentRuleFile) : Prop :=
  forall i rule, localRules !! i = Some rule ->
    f_orderIndex rule = Z.of_nat i /\ truthy (f_content rule) = true.

(** The rule content pushed for a local rule. *)
Definition content_of (rule : AgentRuleFile) : AgentRuleContent :=
  {| filename := f_filename rule; content := f_content rule;
     orderIndex := f_orderIndex rule |}.

End RulesObs.

(** ** Observations on the directory chain *)

Module ChainObs.

Import Js Node FindUp.

Section ChainObs.
Context `{Path}.

(** The value of [normalizedStop]. *)
Definition stop_of (stopDir : option string) : option string :=
  match stopDir with
  | Some stop => if truthy stop then Some (resolve [stop]) else None
  | None => None
  end.

(** The test that ends the walk at the stop directory. *)
Definition at_stop (normalizedStop : option string) (current : string) : bool :=
  truthy_opt normalizedStop && bool_decide (Some current = normalizedStop).

(** [current] after [n] steps to the parent. *)
Definition ancestor (n : nat) (current : string) : string :=
  Nat.iter n dirname current.

End ChainObs.

End ChainObs.

(** ** Concrete inputs for the agent-rules loader *)

Module RulesExamples.

Import Js Node FindUp AgentRules RulesObs.

(** *** A stand-in for Node's [path] on normalised POSIX paths *)

(** The text before the last slash, if there is a slash. *)
Fixpoint before_last_slash (s : string) : option string :=
  match s with
  | EmptyString => None
  | String c s' =>
      match before_last_slash s' with
      | Some r => Some (String c r)
      | None => if Ascii.eqb c "/"%char then Some EmptyString else None
      end
  end.

Definition posix_dirname (p : string) : string :=
  match before_last_slash p with
  | Some EmptyString => "/"
  | Some parent => parent
  | None => "."
  end.

Definition posix_resolve (segments : list string) : string :=
  foldl (fun base segment =>
           if is_empty segment then base
           else if String.prefix "/" segment then segment
           else if String.eqb base "/" then "/" ++ segment
           else base ++ "/" ++ segment)
        "/" segments.

Definition posix_relative_to (from to : string) : string :=
  if String.eqb from to then EmptyString
  else if String.prefix (from ++ "/") to
  then substring (String.length from + 1) (String.length to) to
  else to.

Definition posix_join (segments : list string) : string :=
  match join "/" (List.filter truthy segments) with
  | EmptyString => "."
  | joined => joined
  end.

#[global] Instance posix_path : Path := {|
  resolve := posix_resolve;
  dirname := posix_dirname;
  relative := posix_relative_to;
  is_absolute := String.prefix "/";
  join_paths := posix_join;
  homedir := "/home/user";
|}.

(** *** File systems *)

(** The files of a file system, each with its content. *)
Definition lookup_file (files : list (string * string)) (p : string)
    : option string :=
  snd <$> List.find (fun f => String.eqb (fst f) p) files.

(** [fs/promises] over [files], none of them a symbolic link. *)
Definition fs_of (files : list (string * string)) : Fs :=
  {| fs_lstat := Some (fun p => match lookup_file files p with
                                | Some _ => Ok (Some false)
                                | None => Err "ENOENT"
                                end);
     fs_readlink := Some (fun _ => Err "EINVAL");
     fs_stat := Some (fun _ => Err "ENOENT") |}.

Definition read_from (files : list (string * string)) (p : string) : Res string :=
  match lookup_file files p with
  | Some text => Ok text
  | None => Err "ENOENT"
  end.

(** Rules for everyone, for the repository and for one of its services. *)
Definition nested_files : list (string * string) :=
  [ ("/home/user/.kilocode/AGENTS.md", "Global rules");
    ("/repo/AGENTS.md", "Root rules");
    ("/repo/services/AGENTS.md", "Service rules") ].

Definition in_service (readFile : string -> Res string) : AgentRulesOptions :=
  {| cwd := "/repo"; activePath := Some "/repo/services/service.ts";
     readFile := readFile |}.

Definition nested_rules : list AgentRuleContent :=
  [ {| filename := "~/.kilocode/AGENTS.md"; content := "Global rules";
       orderIndex := (-1)%Z |};
    {| filename := "AGENTS.md"; content := "Root rules"; orderIndex := 0%Z |};
    {| filename := "services/AGENTS.md"; content := "Service rules";
       orderIndex := 1%Z |} ].

Definition nested_output : string :=
  AGENT_RULES_PRELOADED_NOTICE ++ newline
  ++ "# Agent Rules Standard (~/.kilocode/AGENTS.md):" ++ newline
  ++ "Global rules" ++ newline ++ newline
  ++ "# Agent Rules Standard (AGENTS.md):" ++ newline
  ++ "Root rules" ++ newline ++ newline
  ++ "# Agent Rules Standard (services/AGENTS.md):" ++ newline
  ++ "Service rules".

(** Every candidate is a regular file that cannot be read. *)
Definition locked_fs : Fs :=
  {| fs_lstat := Some (fun _ => Ok (Some false));
     fs_readlink := Some (fun _ => Err "EINVAL");
     fs_stat := Some (fun _ => Err "ENOENT") |}.

(** A text of [n] letters. *)
Fixpoint letters (n : nat) : string :=
  match n with
  | O => EmptyString
  | S n => String "a"%char (letters n)
  end.

(** A short rule of a nested directory and a long rule of the root. *)
Definition long_and_short : list AgentRuleContent :=
  [ {| filename := "AGENTS.md"; content := letters (200 * 100); orderIndex := 0%Z |};
    {| filename := "services/AGENTS.md"; content := "Service rules";
       orderIndex := 1%Z |} ].

End RulesExamples.

(** ** Concrete inputs for the watcher's life cycle *)

Module LifeExamples.

Import Js Node GitWatcher Lifecycle Examples RulesExamples.

(** A watcher that has just been constructed and given one listener. *)
Definition constructed : Live :=
  onEvent 0 {| object := fresh_watcher; disposables := []; listeners := [] |}.

(** A repository on [main] with loose refs and no [packed-refs]. *)
Definition repository : StartEnv :=
  {| aDetached := Ok false; aBranch := Ok "main"; aCommit := Ok "abc123";
     aGitHeadPath := Ok ".git/HEAD";
     aExists := fun p => String.eqb p "/test/repo/.git/refs/heads";
     aWatch := fun _ => Ok tt |}.

Definition head_watcher : FsWatcher :=
  {| target := "/test/repo/.git/HEAD"; recursive := false |}.

Definition refs_watcher : FsWatcher :=
  {| target := "/test/repo/.git/refs/heads"; recursive := true |}.

(** A notification that finds [main] at [abc123]. *)
Definition nothing_new : CycleEnv :=
  {| cDetached := Ok false; cBranch := Ok "main"; cCommit := Ok "abc123";
     cBase := Ok "main"; cScan := on_main tracked |}.

End LifeExamples.

(** * Properties *)

(** ** Facts about the string primitives *)

Module JsFacts.

Import Js GitWatcher.

Lemma append_cons c (s t : string) : String c s ++ t = String c (s ++ t).
Proof. reflexivity. Qed.

Lemma append_nil_l (t : string) : EmptyString ++ t = t.
Proof. reflexivity. Qed.

Lemma append_nil_r (s : string) : s ++ EmptyString = s.
Proof. induction s; rewrite ?append_cons, ?append_nil_l; congruence. Qed.

Lemma append_assoc (a b c : string) : (a ++ b) ++ c = a ++ (b ++ c).
Proof. induction a; rewrite ?append_cons, ?append_nil_l; congruence. Qed.

Ltac app_simpl := rewrite ?append_cons, ?append_nil_l; simpl.

Lemma split_run_nonempty b s : split_run b s <> [].
Proof.
  revert b. induction s as [|c s IH]; intros b; simpl; [done|].
  destruct (is_space c).
  - destruct b; [apply IH | done].
  - specialize (IH false). destruct (split_run false s); done.
Qed.

Lemma split_run_field b f s :
  truthy f = true -> no_space f = true ->
  split_run b (f ++ s) = prepend f (split_run false s).
Proof.
  revert b. induction f as [|c f IH]; intros b Ht Hn; [done|].
  simpl in Hn. apply andb_prop in Hn as [Hc Hn].
  apply negb_true_iff in Hc. app_simpl. rewrite Hc.
  destruct f as [|c' f'].
  - app_simpl. pose proof (split_run_nonempty false s).
    destruct (split_run false s); done.
  - rewrite (IH false); [|done|done].
    pose proof (split_run_nonempty false s).
    destruct (split_run false s); done.
Qed.

Lemma split_run_true_space w s :
  all_space w = true -> split_run true (w ++ s) = split_run true s.
Proof.
  induction w as [|c w IH]; intros Hw; [done|].
  simpl in Hw. apply andb_prop in Hw as [Hc Hw]. app_simpl. rewrite Hc. auto.
Qed.

Lemma split_run_separator w s :
  truthy w = true -> all_space w = true ->
  split_run false (w ++ s) = EmptyString :: split_run true s.
Proof.
  destruct w as [|c w]; intros Ht Hw; [done|].
  simpl in Hw. apply andb_prop in Hw as [Hc Hw]. app_simpl. rewrite Hc.
  f_equal. by apply split_run_true_space.
Qed.

Lemma split_run_trimStart s : split_run true s = split_run false (trimStart s).
Proof.
  induction s as [|c s IH]; [done|]. simpl.
  destruct (is_space c) eqn:Hc; [done|]. simpl. by rewrite Hc.
Qed.

Lemma trimEnd_empty s : is_empty (trimEnd s) = all_space s.
Proof.
  induction s as [|c s IH]; [done|]. simpl.
  destruct (is_space c); simpl; [|done].
  rewrite IH. by destruct (all_space s).
Qed.

Lemma trimEnd_app x y :
  all_space y = false -> trimEnd (x ++ y) = x ++ trimEnd y.
Proof.
  intros Hy. induction x as [|c x IH]; [done|]. app_simpl. rewrite IH.
  assert (is_empty (x ++ trimEnd y) = false) as ->.
  { pose proof (trimEnd_empty y) as E. rewrite Hy in E.
    destruct x; [done|done]. }
  by rewrite andb_false_r.
Qed.

Lemma trimStart_field f s :
  truthy f = true -> no_space f = true -> trimStart (f ++ s) = f ++ s.
Proof.
  destruct f as [|c f]; intros Ht Hn; [done|].
  simpl in Hn. apply andb_prop in Hn as [Hc _].
  apply negb_true_iff in Hc. app_simpl. by rewrite Hc.
Qed.

Lemma trim_comm s : trimStart (trimEnd s) = trimEnd (trimStart s).
Proof.
  induction s as [|c s IH]; [done|]. simpl.
  destruct (is_space c) eqn:Hc; simpl.
  - destruct (is_empty (trimEnd s)) eqn:He.
    + rewrite <- IH. by destruct (trimEnd s).
    + simpl. by rewrite Hc.
  - by rewrite Hc.
Qed.

Lemma all_space_app x y : all_space (x ++ y) = all_space x && all_space y.
Proof.
  induction x as [|c x IH]; [done|]. app_simpl. rewrite IH.
  by rewrite andb_assoc.
Qed.

Lemma field_not_blank f : is_field f = true -> all_space f = false.
Proof.
  unfold is_field. destruct f as [|c f]; [done|]. simpl.
  intros [Hc _]%andb_prop. apply negb_true_iff in Hc. by rewrite Hc.
Qed.

Lemma prepend_nil_r f l : prepend f (EmptyString :: l) = f :: l.
Proof. simpl. by rewrite append_nil_r. Qed.

Lemma split_field_sep b f w s :
  is_field f = true -> is_separator w = true ->
  split_run b (f ++ w ++ s) = f :: split_run true s.
Proof.
  intros [??]%andb_prop [??]%andb_prop.
  rewrite split_run_field by done.
  rewrite split_run_separator by done. apply prepend_nil_r.
Qed.

Lemma parse_ls_record sep r :
  is_separator sep = true -> well_formed r = true ->
  parse_ls_line (ls_line sep r) = Some (normalized (path r), hash r).
Proof.
  intros Hsep Hwf. unfold well_formed in Hwf.
  apply andb_prop in Hwf as [Hwf Hp]. apply andb_prop in Hwf as [Hwf H3].
  apply andb_prop in Hwf as [H1 H2]. apply negb_true_iff in Hp.
  assert (is_separator " " = true) as Hsp by done.
  unfold parse_ls_line, ls_line.
  assert (trim (mode r ++ " " ++ hash r ++ " " ++ stage r ++ sep ++ path r)
          = mode r ++ " " ++ hash r ++ " " ++ stage r ++ sep ++ trimEnd (path r))
    as ->.
  { unfold trim. apply andb_prop in H1 as [??].
    rewrite trimStart_field by done.
    rewrite <- !append_assoc. rewrite trimEnd_app by done.
    by rewrite !append_assoc. }
  assert (is_empty (mode r ++ " " ++ hash r ++ " " ++ stage r ++ sep
                    ++ trimEnd (path r)) = false) as ->.
  { destruct (mode r); done. }
  unfold split_ws.
  rewrite split_field_sep by done.
  rewrite split_field_sep by done.
  rewrite split_field_sep by done.
  rewrite split_run_trimStart, trim_comm.
  pose proof (split_run_nonempty false (trimEnd (trimStart (path r)))) as Hne.
  unfold normalized, trim, split_ws.
  destruct (split_run false (trimEnd (trimStart (path r)))); done.
Qed.

Lemma trimEnd_field f : is_field f = true -> trimEnd f = f.
Proof.
  unfold is_field. intros [_ Hn]%andb_prop.
  induction f as [|c f IH]; [done|]. simpl in *.
  apply andb_prop in Hn as [Hc Hn]. apply negb_true_iff in Hc.
  rewrite Hc, IH by done. done.
Qed.

Lemma join_cons2 sep p q ps : join sep (p :: q :: ps) = p ++ sep ++ join sep (q :: ps).
Proof. reflexivity. Qed.

Lemma join_not_blank ws : ws <> [] -> Forall (fun f => is_field f = true) ws ->
  all_space (join " " ws) = false.
Proof.
  intros Hne Hall. destruct Hall as [|f ws Hf Hall]; [done|].
  destruct ws as [|q ws].
  - simpl. by apply field_not_blank.
  - rewrite join_cons2, all_space_app, field_not_blank by done. done.
Qed.

Lemma trimEnd_join ws : Forall (fun f => is_field f = true) ws ->
  trimEnd (join " " ws) = join " " ws.
Proof.
  induction 1 as [|f ws Hf Hall IH]; [done|].
  destruct ws as [|q ws].
  - simpl. by apply trimEnd_field.
  - rewrite join_cons2. rewrite <- append_assoc.
    rewrite trimEnd_app by (apply join_not_blank; done). by rewrite IH.
Qed.

Lemma split_join b ws : ws <> [] -> Forall (fun f => is_field f = true) ws ->
  split_run b (join " " ws) = ws.
Proof.
  intros Hne Hall. revert b. induction Hall as [|f ws Hf Hall IH]; [done|].
  intros b. destruct ws as [|q ws].
  - simpl. apply andb_prop in Hf as [??].
    rewrite <- (append_nil_r f) at 1. rewrite split_run_field by done.
    simpl. by rewrite append_nil_r.
  - rewrite join_cons2. rewrite split_field_sep by done.
    f_equal. by apply IH.
Qed.

Lemma normalized_single_spaced ws :
  ws <> [] -> Forall (fun f => is_field f = true) ws ->
  normalized (join " " ws) = join " " ws.
Proof.
  intros Hne Hall. unfold normalized, trim, split_ws.
  assert (trimStart (join " " ws) = join " " ws) as ->.
  { destruct Hall as [|f ws Hf Hall]; [done|].
    apply andb_prop in Hf as [??].
    destruct ws as [|q ws]; [simpl|rewrite join_cons2].
    - rewrite <- (append_nil_r f). by apply trimStart_field.
    - by apply trimStart_field. }
  rewrite trimEnd_join by done. by rewrite split_join.
Qed.

End JsFacts.

(** ** Facts about the watcher *)

Module GitWatcherFacts.

Import Js GitWatcher JsFacts Examples.

Lemma getDefaultBranch_run base w :
  exists r w', getDefaultBranch base w = (r, w', []) /\ same_object w w'.
Proof.
  unfold getDefaultBranch, bind, this, ret, update, await, same_object.
  destruct (truthy_opt (defaultBranch w)); [by eauto 10|].
  destruct (truthy_opt (defaultBranchOverride (config w))); [by eauto 10|].
  destruct base; by eauto 10.
Qed.

Lemma this_ref_same w w' : same_object w w' -> this_ref w' = this_ref w.
Proof. intros (?&?&?&?). unfold this_ref. congruence. Qed.

Lemma emit_lines_run lines mk w :
  emit_lines lines mk w = (Ok tt, w, file_events mk lines).
Proof.
  induction lines as [|l lines IH]; [done|].
  unfold file_events in *. simpl.
  destruct (parse_ls_line l) as [[p h]|]; simpl; [|done].
  unfold bind, tell. by rewrite IH.
Qed.

Lemma emit_deleted_run files b me w :
  emit_deleted files b me w
  = (Ok tt, w, map (fun f => Emit (FileDeleted f b false me)) files).
Proof.
  induction files as [|f files IH]; [done|].
  simpl. unfold bind, tell. by rewrite IH.
Qed.

Lemma parse_records sep records :
  is_separator sep = true ->
  Forall (fun r => well_formed r = true) records ->
  omap parse_ls_line (map (ls_line sep) records)
  = map (fun r => (normalized (path r), hash r)) records.
Proof.
  intros Hsep. induction 1 as [|r rs Hr _ IH]; [done|].
  simpl. rewrite parse_ls_record by done. simpl. f_equal. exact IH.
Qed.

Lemma emitted_app t1 t2 : emitted (t1 ++ t2) = (emitted t1 ++ emitted t2)%list.
Proof. unfold emitted. apply omap_app. Qed.

Lemma emitted_file_events mk lines :
  emitted (file_events mk lines)
  = map (fun x => mk x.1 x.2) (omap parse_ls_line lines).
Proof.
  unfold file_events, emitted. induction (omap parse_ls_line lines); [done|].
  simpl. by f_equal.
Qed.

(** C2. On the base branch (HEAD attached, current and base branch equal
    up to case) with the tracked files [records], [scan()] returns normally
    and emits exactly [ScanStart] with [isBaseBranch = true], one
    [FileChanged] per record in order, carrying the hash field of the
    record and the path as the loop parses it, and [ScanEnd]. *)
Theorem full_scan_complete (w : GitWatcher) (env : ScanEnv)
    (current base sep : string) (records : list LsRecord) :
  sDetached env = Ok false ->
  sBranch env = Ok current ->
  outcome (getDefaultBranch (sBase env) w) = Ok base ->
  toLowerCase current = toLowerCase base ->
  is_separator sep = true ->
  Forall (fun r => well_formed r = true) records ->
  sExec env "git ls-files -s"
    = {| yielded := map (ls_line sep) records; failure := None |} ->
  outcome (scan env w) = Ok tt /\
  emitted (trace (scan env w))
  = (ScanStart current true (this_ref w)
     :: map (fun r => FileChanged (normalized (path r)) (hash r)
                        current true (this_ref w)) records
     ++ [ScanEnd current true (this_ref w)])%list.
Proof.
  intros Hdet Hbr Hbase Hlow Hsep Hwf Hexec.
  destruct (getDefaultBranch_run (sBase env) w) as (r & w' & Hrun & Hsame).
  rewrite Hrun in Hbase. unfold outcome in Hbase. simpl in Hbase. subst r.
  unfold scan, logged, try_catch, bind, tell, await. rewrite Hdet, Hbr, Hrun.
  rewrite Hlow, String.eqb_refl.
  unfold scanAllFiles, logged, try_catch, bind, tell, this, for_await_lines, bind, tell.
  rewrite Hexec. simpl. rewrite emit_lines_run. simpl.
  rewrite (this_ref_same _ _ Hsame). split; [done|].
  unfold trace. simpl. rewrite app_nil_r, emitted_app, emitted_file_events.
  rewrite parse_records by done. rewrite map_map. simpl. done.
Qed.

Lemma commands_app t1 t2 : commands (t1 ++ t2) = (commands t1 ++ commands t2)%list.
Proof. unfold commands. apply omap_app. Qed.

Lemma commands_file_events mk lines : commands (file_events mk lines) = [].
Proof.
  unfold file_events, commands. induction (omap parse_ls_line lines); done.
Qed.

Lemma emitted_deleted b me (files : list string) :
  emitted (map (fun f => Emit (FileDeleted f b false me)) files)
  = map (fun f => FileDeleted f b false me) files.
Proof. unfold emitted. induction files; [done|]. simpl. by f_equal. Qed.

Lemma commands_deleted b me (files : list string) :
  commands (map (fun f => Emit (FileDeleted f b false me)) files) = [].
Proof. unfold commands. induction files; done. Qed.

(** C4, amended. On a branch other than the base branch, [scan()] emits
    [ScanStart] with [isBaseBranch = false], one [FileDeleted] per deleted
    path, one [FileChanged] per record answered by the hash lookup, and
    [ScanEnd]; it issues a single command with every added or modified path
    in double quotes when there is such a path, and no command when there
    is none. *)
Theorem diff_scan_batched (w : GitWatcher) (env : ScanEnv)
    (current base sep : string) (diff : GitDiff) (records : list LsRecord) :
  sDetached env = Ok false ->
  sBranch env = Ok current ->
  outcome (getDefaultBranch (sBase env) w) = Ok base ->
  toLowerCase current <> toLowerCase base ->
  sDiff env current base = Ok diff ->
  is_separator sep = true ->
  Forall (fun r => well_formed r = true) records ->
  (diff_files diff <> [] ->
   sExec env (diff_command (diff_files diff))
   = {| yielded := map (ls_line sep) records; failure := None |}) ->
  outcome (scan env w) = Ok tt /\
  emitted (trace (scan env w))
  = (ScanStart current false (this_ref w)
     :: map (fun f => FileDeleted f current false (this_ref w)) (deleted diff)
     ++ match diff_files diff with
        | [] => []
        | _ => map (fun r => FileChanged (normalized (path r)) (hash r)
                               current false (this_ref w)) records
        end
     ++ [ScanEnd current false (this_ref w)])%list /\
  commands (trace (scan env w))
  = match diff_files diff with
    | [] => []
    | files => [diff_command files]
    end.
Proof.
  intros Hdet Hbr Hbase Hlow Hdiff Hsep Hwf Hexec.
  destruct (getDefaultBranch_run (sBase env) w) as (r & w' & Hrun & Hsame).
  rewrite Hrun in Hbase. unfold outcome in Hbase. simpl in Hbase. subst r.
  unfold scan, logged, try_catch, bind, tell, await. rewrite Hdet, Hbr, Hrun.
  apply String.eqb_neq in Hlow. rewrite Hlow.
  unfold scanDiffFiles, logged, try_catch, bind, tell, this, await.
  rewrite Hdiff, emit_deleted_run. rewrite (this_ref_same _ _ Hsame).
  unfold diff_files in *.
  destruct (added diff ++ modified diff)%list as [|f files] eqn:Hfiles.
  - simpl. unfold outcome, trace. simpl. split; [done|].
    rewrite ?emitted_app, ?commands_app, ?emitted_deleted, ?commands_deleted.
    done.
  - simpl. unfold for_await_lines, bind, tell.
    rewrite Hexec by done. simpl. rewrite emit_lines_run. simpl.
    unfold outcome, trace. simpl. split; [done|].
    rewrite ?app_nil_r.
    rewrite ?emitted_app, ?commands_app, ?emitted_deleted, ?commands_deleted.
    simpl.
    rewrite ?emitted_app, ?commands_app, ?emitted_file_events,
      ?commands_file_events.
    rewrite parse_records by done. rewrite map_map. done.
Qed.

Lemma quiet_file_events b base me lines :
  forallb quiet (file_events (fun p h => FileChanged p h b base me) lines) = true.
Proof.
  unfold file_events. induction (omap parse_ls_line lines); [done|]. simpl. done.
Qed.

Lemma quiet_deleted b me (files : list string) :
  forallb quiet (map (fun f => Emit (FileDeleted f b false me)) files) = true.
Proof. induction files; done. Qed.

Lemma for_await_lines_run exec cmd b base me w :
  exists r t, for_await_lines exec cmd (fun p h => FileChanged p h b base me) w
              = (r, w, t) /\ forallb quiet t = true.
Proof.
  unfold for_await_lines, bind, tell. rewrite emit_lines_run.
  destruct (failure (exec cmd)); simpl; eexists _, _; (split; [done|]);
    simpl; rewrite app_nil_r; apply quiet_file_events.
Qed.

Lemma scanAllFiles_run env b w :
  exists r t, scanAllFiles env b w = (r, w, t) /\ forallb quiet t = true.
Proof.
  unfold scanAllFiles, logged, try_catch, bind, this, tell.
  destruct (for_await_lines_run (sExec env) "git ls-files -s" b true (this_ref w) w)
    as (r & t & -> & Ht).
  destruct r; simpl; eexists _, _; (split; [done|]); simpl;
    rewrite ?forallb_app, Ht; done.
Qed.

Lemma scanDiffFiles_run env b d w :
  exists r t, scanDiffFiles env b d w = (r, w, t) /\ forallb quiet t = true.
Proof.
  unfold scanDiffFiles, logged, try_catch, bind, this, tell, await.
  destruct (sDiff env b d) as [diff|e]; [|by eexists _, _].
  rewrite emit_deleted_run.
  destruct (List.length (added diff ++ modified diff) =? 0)%nat.
  - simpl. eexists _, _. split; [done|]. simpl.
    rewrite forallb_app, quiet_deleted. done.
  - destruct (for_await_lines_run (sExec env)
                (diff_command (added diff ++ modified diff)) b false (this_ref w) w)
      as (r & t & -> & Ht).
    destruct r; simpl; eexists _, _; (split; [done|]); simpl;
      rewrite ?forallb_app, ?quiet_deleted, ?Ht; done.
Qed.

Lemma scan_run env w :
  exists r w' t, scan env w = (r, w', CallScan :: t)
                 /\ same_object w w' /\ forallb quiet t = true.
Proof.
  assert (same_object w w) as Hrefl by done.
  unfold scan, logged, try_catch, bind, tell, await, ret.
  destruct (sDetached env) as [[|]|e]; [by eexists _, _, _| |by eexists _, _, _].
  destruct (sBranch env) as [b|e]; [|by eexists _, _, _].
  destruct (getDefaultBranch_run (sBase env) w) as (r & w' & -> & Hsame).
  destruct r as [d|e]; [|by eexists _, _, _].
  destruct (toLowerCase b =? toLowerCase d).
  - destruct (scanAllFiles_run env b w') as (r & t & -> & Ht).
    destruct r; simpl; eexists _, _, _; (split; [done|]); (split; [done|]);
      rewrite ?forallb_app, ?Ht; done.
  - destruct (scanDiffFiles_run env b d w') as (r & t & -> & Ht).
    destruct r; simpl; eexists _, _, _; (split; [done|]); (split; [done|]);
      rewrite ?forallb_app, ?Ht; done.
Qed.

(** C6, amended. After a change-handling cycle that resolves branch [b] and
    commit [c] (HEAD attached) and logs no error, the cached snapshot holds
    [b] and [c], whether or not they differ from the previous snapshot. *)
Theorem snapshot_fresh (w : GitWatcher) (env : CycleEnv) (b c : string) :
  isProcessing w = false ->
  cDetached env = Ok false ->
  cBranch env = Ok b ->
  cCommit env = Ok c ->
  console_errors (trace (handleGitChange env w)) = [] ->
  snapshot_is (after (handleGitChange env w)) b c.
Proof.
  intros Hp Hd Hb Hc.
  unfold handleGitChange, try_finally, try_catch, bind, this, update, await, tell, ret.
  rewrite Hp, Hd, Hb, Hc. simpl.
  destruct (currentState w) as [cur|] eqn:Hcur; simpl.
  2:{ intros _. by eexists. }
  destruct (branch cur =? b) eqn:Ebr; simpl.
  - destruct (commit cur =? c) eqn:Eco; simpl.
    + intros _. unfold snapshot_is, after. simpl. rewrite Hcur.
      apply String.eqb_eq in Ebr, Eco. by eexists.
    + destruct (scan_run (cScan env) (set_isProcessing true w))
        as (r & w' & t & -> & _ & _).
      destruct r; simpl; [intros _; by eexists|].
      unfold trace, console_errors. simpl. rewrite omap_app. simpl.
      intros Habs. by apply app_eq_nil in Habs as [_ ?].
  - destruct (getDefaultBranch_run (cBase env) (set_isProcessing true w))
      as (r & w1 & -> & _).
    destruct r as [d|e]; simpl.
    + destruct (scan_run (cScan env) w1) as (r & w' & t & -> & _ & _).
      destruct r; simpl; [intros _; by eexists|].
      unfold trace, console_errors. simpl. rewrite omap_app. simpl.
      intros Habs. by apply app_eq_nil in Habs as [_ ?].
    + unfold trace, console_errors. simpl. done.
Qed.

Lemma getDefaultBranch_outcome base w w' :
  defaultBranch w' = defaultBranch w -> config w' = config w ->
  outcome (getDefaultBranch base w') = outcome (getDefaultBranch base w).
Proof.
  intros E1 E2.
  unfold outcome, getDefaultBranch, bind, this, ret, update, await.
  rewrite E1.
  destruct (truthy_opt (defaultBranch w)); [done|]. simpl. rewrite E2.
  destruct (truthy_opt (defaultBranchOverride (config w))); [done|].
  by destruct base.
Qed.

(** C7. A cycle that finds another branch than the cached one (the base
    branch being resolved) emits one [BranchChanged] with the previous and
    the new name and then enters [scan()]: the trace starts with that event,
    then the entry into [scan()], and holds no other [BranchChanged] and no
    other entry.  A cycle that finds the same branch at another commit
    enters [scan()] first thing and emits no [BranchChanged]. *)
Theorem branch_change_announced_before_rescan
    (w : GitWatcher) (env : CycleEnv) (cur : GitStateSnapshot) (b c : string) :
  isProcessing w = false ->
  cDetached env = Ok false ->
  cBranch env = Ok b ->
  cCommit env = Ok c ->
  currentState w = Some cur ->
  (branch cur <> b ->
   forall base, outcome (getDefaultBranch (cBase env) w) = Ok base ->
   exists rest,
     trace (handleGitChange env w)
     = Emit (BranchChanged (branch cur) b b
               (toLowerCase b =? toLowerCase base) (this_ref w))
       :: CallScan :: rest
     /\ forallb quiet rest = true) /\
  (branch cur = b -> commit cur <> c ->
   exists rest,
     trace (handleGitChange env w) = CallScan :: rest
     /\ forallb quiet rest = true).
Proof.
  intros Hp Hd Hb Hc Hcur. split.
  - intros Hne base Hbase. apply String.eqb_neq in Hne.
    unfold handleGitChange, try_finally, try_catch, bind, this, update, await, tell, ret.
    rewrite Hp, Hd, Hb, Hc. simpl. rewrite Hcur. simpl. rewrite Hne. simpl.
    destruct (getDefaultBranch_run (cBase env) w) as (r & w1 & Hrun & Hs).
    rewrite Hrun in Hbase. unfold outcome in Hbase. simpl in Hbase. subst r.
    destruct (getDefaultBranch_run (cBase env) (set_isProcessing true w))
      as (r' & w1' & Hrun' & Hs').
    assert (r' = Ok base) as ->.
    { pose proof (getDefaultBranch_outcome (cBase env) w
                    (set_isProcessing true w) eq_refl eq_refl) as E.
      unfold outcome in E. rewrite Hrun, Hrun' in E. done. }
    rewrite Hrun'. simpl.
    destruct (scan_run (cScan env) w1') as (r & w2 & t & -> & _ & Ht).
    assert (this_ref w1' = this_ref w) as ->.
    { rewrite (this_ref_same _ _ Hs'). done. }
    destruct r; simpl; unfold trace; simpl; eexists; (split; [done|]);
      rewrite ?forallb_app, Ht; done.
  - intros Heq Hne. apply String.eqb_neq in Hne. apply String.eqb_eq in Heq.
    unfold handleGitChange, try_finally, try_catch, bind, this, update, await, tell, ret.
    rewrite Hp, Hd, Hb, Hc. simpl. rewrite Hcur. simpl.
    rewrite Heq, Hne. simpl.
    destruct (scan_run (cScan env) (set_isProcessing true w))
      as (r & w2 & t & -> & _ & Ht).
    destruct r; simpl; unfold trace; simpl; eexists; (split; [done|]);
      rewrite ?forallb_app, Ht; done.
Qed.

(** The full scan of the test suite, with a path that contains spaces. *)
Lemma full_scan_complete_witness :
  emitted (trace (scan (on_main tracked) fresh_watcher))
  = [ ScanStart "main" true me;
      FileChanged "README.md" "e69de29bb2d1d6434b8b29ae775ad8c2e48c5391"
        "main" true me;
      FileChanged "path with spaces/file.ts" "abc123" "main" true me;
      ScanEnd "main" true me ].
Proof.
  apply (full_scan_complete fresh_watcher (on_main tracked)
           "main" "main" " " tracked);
    first [ reflexivity | repeat constructor ].
Defined.

(** C4 as stated fails: when no file was added or modified, the scan runs
    from [ScanStart] to [ScanEnd] without issuing any hash-lookup command. *)
Lemma diff_scan_without_files_issues_no_command :
  outcome (scan (on_feature only_a_deletion []) fresh_watcher) = Ok tt /\
  emitted (trace (scan (on_feature only_a_deletion []) fresh_watcher))
  = [ ScanStart "feature/test" false me;
      FileDeleted "old-file.ts" "feature/test" false me;
      ScanEnd "feature/test" false me ] /\
  ~ (exists cmd,
       commands (trace (scan (on_feature only_a_deletion []) fresh_watcher))
       = [cmd]).
Proof.
  split; [reflexivity|]. split; [reflexivity|].
  intros [cmd Hcmd]. vm_compute in Hcmd. discriminate Hcmd.
Qed.

(** The differential scan of the test suite. *)
Lemma diff_scan_batched_witness :
  emitted (trace (scan (on_feature two_changes changed) fresh_watcher))
  = [ ScanStart "feature/test" false me;
      FileChanged "new-file.ts" "abc123" "feature/test" false me;
      FileChanged "existing-file.ts" "def456" "feature/test" false me;
      ScanEnd "feature/test" false me ] /\
  commands (trace (scan (on_feature two_changes changed) fresh_watcher))
  = [ diff_command ["new-file.ts"; "existing-file.ts"] ].
Proof.
  apply (diff_scan_batched fresh_watcher (on_feature two_changes changed)
           "feature/test" "main" " " two_changes changed);
    first [ reflexivity | discriminate | repeat constructor ].
Defined.

(** C6 as stated fails: the cycle observes a new commit on [main], git
    fails during the rescan, the cycle ends normally (the error is logged
    and the processing flag released), and the cached snapshot still holds
    the previous commit. *)
Lemma snapshot_stale_after_failed_rescan :
  outcome (handleGitChange new_commit_failing_rescan started_watcher) = Ok tt /\
  isProcessing (after (handleGitChange new_commit_failing_rescan started_watcher))
  = false /\
  cBranch new_commit_failing_rescan = Ok "main" /\
  cCommit new_commit_failing_rescan = Ok "def456" /\
  ~ snapshot_is (after (handleGitChange new_commit_failing_rescan started_watcher))
      "main" "def456".
Proof.
  repeat (split; [reflexivity|]).
  intros (s & Hs & _ & Hc). vm_compute in Hs.
  injection Hs as <-. discriminate Hc.
Qed.

(** A new commit on [main] with a rescan that succeeds. *)
Lemma snapshot_fresh_witness :
  snapshot_is (after (handleGitChange new_commit started_watcher)) "main" "def456".
Proof.
  apply (snapshot_fresh started_watcher new_commit "main" "def456");
    reflexivity.
Defined.

(** The branch switch and the commit-only change of the test suite. *)
Lemma branch_change_announced_before_rescan_witness :
  (exists rest,
     trace (handleGitChange branch_switch started_watcher)
     = Emit (BranchChanged "main" "feature/test" "feature/test" false me)
       :: CallScan :: rest
     /\ forallb quiet rest = true) /\
  (exists rest,
     trace (handleGitChange new_commit started_watcher) = CallScan :: rest
     /\ forallb quiet rest = true).
Proof.
  split.
  - refine (proj1 (branch_change_announced_before_rescan
                     started_watcher branch_switch
                     {| branch := "main"; commit := "abc123"; isDetached := false |}
                     "feature/test" "abc123"
                     eq_refl eq_refl eq_refl eq_refl eq_refl) _ "main" _);
      [ discriminate | reflexivity ].
  - refine (proj2 (branch_change_announced_before_rescan
                     started_watcher new_commit
                     {| branch := "main"; commit := "abc123"; isDetached := false |}
                     "main" "def456"
                     eq_refl eq_refl eq_refl eq_refl eq_refl) _ _);
      [ reflexivity | discriminate ].
Defined.

(** C7 as stated fails: the cycle observes the switch from [main] to
    [feature/test], the base branch is not cached and [getBaseBranch]
    rejects.  The cycle ends normally with the error logged: no
    [BranchChanged] is emitted, [scan()] is not entered, and the snapshot
    still holds [main]. *)
Lemma branch_change_unannounced_without_base_branch :
  currentState started_unresolved
  = Some {| branch := "main"; commit := "abc123"; isDetached := false |} /\
  cBranch branch_switch_without_base = Ok "feature/test" /\
  outcome (handleGitChange branch_switch_without_base started_unresolved)
  = Ok tt /\
  trace (handleGitChange branch_switch_without_base started_unresolved)
  = [ConsoleError "[GitWatcher] Error handling git change:"] /\
  after (handleGitChange branch_switch_without_base started_unresolved)
  = started_unresolved.
Proof. repeat split; reflexivity. Qed.

(** C8, where the code departs from it. A tracked file named
    [my  file.ts], with two consecutive spaces, is reported as [my file.ts]
    by the full scan and, although the batched command quotes the name
    verbatim, by the differential scan too. *)
Theorem consecutive_spaces_are_collapsed :
  parse_ls_line (ls_line " " double_spaced) = Some ("my file.ts", "abc123") /\
  emitted (trace (scan (on_main [double_spaced]) fresh_watcher))
  = [ ScanStart "main" true me;
      FileChanged "my file.ts" "abc123" "main" true me;
      ScanEnd "main" true me ] /\
  commands (trace (scan (on_feature one_addition [double_spaced]) fresh_watcher))
  = [ "git ls-files -s " ++ quote "my  file.ts" ] /\
  emitted (trace (scan (on_feature one_addition [double_spaced]) fresh_watcher))
  = [ ScanStart "feature/test" false me;
      FileChanged "my file.ts" "abc123" "feature/test" false me;
      ScanEnd "feature/test" false me ].
Proof. repeat split; reflexivity. Qed.

End GitWatcherFacts.

(** ** Facts about the orchestrator *)

Module ManagedIndexerFacts.

Import Js ManagedIndexer Examples MoreExamples IndexerObs.
Import GitWatcher (WatcherRef, ref_id, ref_cwd, GitWatcherEvent, ev_watcher).

Section Facts.
Context `{Host}.

(** C10. When the watcher of an event resolves to a folder state whose
    project id or branch is null, [onEvent] leaves everything as it was:
    no field of any folder state changes, no fetch is started, no handler
    stays suspended, nothing is handed to the limiter and no call is made. *)
Theorem uninitialised_root_ignores_events (w : World) (event : GitWatcherEvent)
    (i : nat) (state : FolderState) :
  list_find (fun s => watcher s = Some (ref_id (ev_watcher event))) (states w)
  = Some (i, state) ->
  projectId state = None \/ gitBranch state = None ->
  onEvent event w = w.
Proof.
  intros Hfind Hnull. unfold onEvent.
  destruct (isActive (indexer w)); [|done]. simpl. rewrite Hfind.
  destruct (bool_decide (is_Some (watcher state))); [|done]. simpl.
  destruct Hnull as [-> | ->]; simpl; [done|].
  by rewrite orb_true_r.
Qed.

Lemma on_state_other i j f w :
  i <> j -> states (on_state i f w) !! j = states w !! j.
Proof. intros Hne. unfold on_state, states. simpl. by apply list_lookup_alter_ne. Qed.

Lemma getManifest_other i j st b w :
  i <> j -> states (getManifest i st b w).2 !! j = states w !! j.
Proof.
  intros Hne. unfold getManifest.
  destruct (manifestFetchPromise st) as [p|];
    destruct (on_branch st b); destruct (manifest st); simpl; try done;
    by rewrite on_state_other, <- (on_state_other i j (set_gitBranch (Some b)) w).
Qed.

(** A folder state without a watcher, as a failure of the git information
    leaves it, stays in the list and is never touched by an event. *)
Lemma root_without_watcher_is_never_touched w event j st :
  states w !! j = Some st -> watcher st = None ->
  states (onEvent event w) !! j = Some st.
Proof.
  intros Hj Hnone. unfold onEvent.
  destruct (isActive (indexer w)); [|done]. simpl.
  destruct (list_find _ (states w)) as [[i state]|] eqn:Hfind; [|done].
  apply list_find_Some in Hfind as (Hi & Hw & _).
  assert (i <> j) as Hne by (intros ->; congruence).
  destruct (bool_decide (is_Some (watcher state))); [|done]. simpl.
  destruct (negb (truthy_opt (projectId state))
            || negb (truthy_opt (gitBranch state))); [done|].
  destruct event as [b ib wr|b ib wr|p h b ib wr|p b ib wr|pb nb b ib wr].
  - by rewrite !on_state_other.
  - by rewrite on_state_other.
  - destruct (negb (supported p)); [done|].
    pose proof (getManifest_other i j state b w Hne) as E.
    destruct (getManifest i state b w) as [q w1]. simpl in *.
    change (states (suspend _ w1)) with (states w1). congruence.
  - done.
  - pose proof (getManifest_other i j state nb w Hne) as E.
    destruct (getManifest i state nb w) as [q w1]. simpl in *.
    change (states (suspend _ w1)) with (states w1). congruence.
Qed.

Lemma getManifest_frame i st b w :
  handlers (getManifest i st b w).2 = handlers w /\
  uploads (getManifest i st b w).2 = uploads w /\
  List.filter is_upsert (calls (getManifest i st b w).2)
  = List.filter is_upsert (calls w).
Proof.
  unfold getManifest.
  destruct (manifestFetchPromise st) as [p|];
    destruct (on_branch st b); destruct (manifest st); simpl; try done;
    by rewrite List.filter_app, app_nil_r.
Qed.

Lemma already_indexed_In m p h :
  already_indexed m p h = true
  <-> In {| filePath := p; fileHash := h |} (files m).
Proof.
  unfold already_indexed. rewrite existsb_exists. split.
  - intros ([p' h'] & Hin & Heq). simpl in Heq.
    apply andb_prop in Heq as [->%String.eqb_eq ->%String.eqb_eq]. done.
  - intros Hin. eexists. split; [done|]. simpl. by rewrite !String.eqb_refl.
Qed.

Lemma states_on_state_eq i g w :
  states (on_state i g w) !! i = g <$> states w !! i.
Proof.
  unfold on_state, states. simpl. rewrite list_lookup_alter.
  by rewrite decide_True.
Qed.

Lemma states_with_fetches g w : states (with_fetches g w) = states w.
Proof. done. Qed.
Lemma states_call c w : states (call c w) = states w.
Proof. done. Qed.
Lemma states_suspend x w : states (suspend x w) = states w.
Proof. done. Qed.
Lemma fetches_on_state i g w : fetches (on_state i g w) = fetches w.
Proof. done. Qed.
Lemma fetches_call c w : fetches (call c w) = fetches w.
Proof. done. Qed.
Lemma fetches_suspend x w : fetches (suspend x w) = fetches w.
Proof. done. Qed.
Lemma fetches_with_fetches g w : fetches (with_fetches g w) = g (fetches w).
Proof. done. Qed.
Lemma handlers_on_state i g w : handlers (on_state i g w) = handlers w.
Proof. done. Qed.
Lemma handlers_call c w : handlers (call c w) = handlers w.
Proof. done. Qed.
Lemma handlers_with_fetches g w : handlers (with_fetches g w) = handlers w.
Proof. done. Qed.
Lemma handlers_suspend x w : handlers (suspend x w) = (handlers w ++ [x])%list.
Proof. done. Qed.
Lemma uploads_on_state i g w : uploads (on_state i g w) = uploads w.
Proof. done. Qed.
Lemma uploads_call c w : uploads (call c w) = uploads w.
Proof. done. Qed.
Lemma uploads_with_fetches g w : uploads (with_fetches g w) = uploads w.
Proof. done. Qed.
Lemma uploads_suspend x w : uploads (suspend x w) = uploads w.
Proof. done. Qed.
Lemma calls_on_state i g w : calls (on_state i g w) = calls w.
Proof. done. Qed.
Lemma calls_call c w : calls (call c w) = (calls w ++ [c])%list.
Proof. done. Qed.
Lemma calls_with_fetches g w : calls (with_fetches g w) = calls w.
Proof. done. Qed.
Lemma calls_suspend x w : calls (suspend x w) = calls w.
Proof. done. Qed.
Lemma config_on_state i g w : config (indexer (on_state i g w)) = config (indexer w).
Proof. done. Qed.
Lemma config_call c w : config (indexer (call c w)) = config (indexer w).
Proof. done. Qed.
Lemma config_with_fetches g w :
  config (indexer (with_fetches g w)) = config (indexer w).
Proof. done. Qed.
Lemma config_suspend x w : config (indexer (suspend x w)) = config (indexer w).
Proof. done. Qed.

Create Rewrite HintDb world.
#[local] Hint Rewrite states_on_state_eq states_with_fetches states_call states_suspend
  fetches_on_state fetches_call fetches_suspend fetches_with_fetches
  handlers_on_state handlers_call handlers_with_fetches handlers_suspend
  uploads_on_state uploads_call uploads_with_fetches uploads_suspend
  calls_on_state calls_call calls_with_fetches calls_suspend
  config_on_state config_call config_with_fetches config_suspend : world.

Lemma manifest_settles_ok w p f m :
  fetches w !! p = Some f -> f_stage f = AwaitingManifest ->
  manifest_settles p (Ok m) w
  = with_fetches (alter (set_stage (Fulfilled m)) p)
      (on_state (f_state f) (set_manifestFetchPromise None)
         (on_state (f_state f) (clear_error_of E_manifest)
            (on_state (f_state f) (set_manifest (Some m)) w))).
Proof. intros Hf Hs. unfold manifest_settles. by rewrite Hf, Hs. Qed.

Lemma config_settles_ok w p f projectId token organizationId :
  fetches w !! p = Some f -> f_stage f = AwaitingConfig ->
  truthy projectId = true ->
  config (indexer w)
  = Some {| kilocodeToken := Some token;
            kilocodeOrganizationId := Some organizationId |} ->
  truthy token = true -> truthy organizationId = true ->
  config_settles p (Ok (Some projectId)) w
  = with_fetches (alter (set_stage AwaitingManifest) p)
      (call (GetServerManifest organizationId projectId (f_branch f) token)
         (on_state (f_state f) (set_projectId (Some projectId)) w)).
Proof.
  intros Hf Hs Hp Hc Ht Ho. unfold config_settles. rewrite Hf, Hs.
  cbn [truthy_opt]. rewrite Hp. cbn [negb]. cbv zeta.
  rewrite config_on_state, Hc, Ht, Ho. done.
Qed.

Lemma lookup_alter_eq {A} (g : A -> A) (l : list A) i x :
  l !! i = Some x -> alter g i l !! i = Some (g x).
Proof. intros Hl. rewrite list_lookup_alter, decide_True by done. by rewrite Hl. Qed.

Lemma holds_manifest_settled w i st m b :
  states w !! i = Some st -> gitBranch st = Some b ->
  holds_manifest
    (on_state i (set_manifestFetchPromise None)
       (on_state i (clear_error_of E_manifest)
          (on_state i (set_manifest (Some m)) w))) i b m.
Proof.
  intros Hs Hb. unfold holds_manifest. autorewrite with world. rewrite Hs. simpl.
  eexists. split; [done|].
  unfold clear_error_of. by destruct (has_error_type _ _).
Qed.

Lemma onEvent_file_changed w i state path hash branch ib wr :
  isActive (indexer w) = true ->
  list_find (fun s => watcher s = Some (ref_id wr)) (states w) = Some (i, state) ->
  truthy_opt (projectId state) = true ->
  truthy_opt (gitBranch state) = true ->
  supported path = true ->
  onEvent (GitWatcher.FileChanged path hash branch ib wr) w
  = suspend (OnFileChanged i path hash branch ib wr
               (getManifest i state branch w).1)
            (getManifest i state branch w).2.
Proof.
  intros Hact Hfind Hpid Hbr Hsup. unfold onEvent. rewrite Hact. simpl.
  rewrite Hfind. apply list_find_Some in Hfind as (_ & Hw & _).
  rewrite bool_decide_true by (rewrite Hw; eauto).
  rewrite Hpid, Hbr, Hsup. simpl. by destruct (getManifest i state branch w).
Qed.

Lemma resume_on_manifest w h i path hash branch ib wr p m :
  handlers w !! h = Some (OnFileChanged i path hash branch ib wr p) ->
  settled p w = Some (Ok m) ->
  reconciled w (resume h w) m (queued i path hash branch ib wr) /\
  calls (resume h w) = calls w /\ states (resume h w) = states w.
Proof.
  intros Hh Hs. unfold resume, reconciled. rewrite Hh, Hs. simpl.
  destruct (already_indexed m path hash); simpl; [|done].
  by rewrite app_nil_r.
Qed.



Lemma getManifest_joins_pending i st b w p :
  manifestFetchPromise st = Some p -> gitBranch st = Some b ->
  getManifest i st b w = (Fetching p, w).
Proof.
  intros Hp Hb. unfold getManifest, on_branch. rewrite Hp, Hb.
  by rewrite bool_decide_true.
Qed.

Lemma failed_manifest_skips_file w h i path hash branch base wr p e :
  handlers w !! h = Some (OnFileChanged i path hash branch base wr p) ->
  settled p w = Some (Err e) ->
  uploads (resume h w) = uploads w /\ calls (resume h w) = calls w.
Proof. intros Hh Hs. unfold resume. by rewrite Hh, Hs. Qed.

Lemma slot_alter i f w :
  slot i (on_state i f w) = (f <$> states w !! i) ≫= manifestFetchPromise.
Proof. unfold slot, on_state, states. simpl. by rewrite list_lookup_alter_eq. Qed.

Lemma slot_with_fetches i g w : slot i (with_fetches g w) = slot i w.
Proof. done. Qed.

Lemma fetch_completion_clears_slot w fetch f r :
  fetches w !! fetch = Some f ->
  f_stage f = AwaitingManifest ->
  slot (f_state f) (manifest_settles fetch r w) = None.
Proof.
  intros Hf Hs. unfold manifest_settles, fetch_fails. rewrite Hf, Hs.
  destruct r; rewrite slot_with_fetches, slot_alter;
    by destruct (states _ !! f_state f).
Qed.
End Facts.

Lemma start_folder_settles cwd env :
  is_ok (r_isGitRepository env) = true ->
  exists r, start_folder cwd env = Ok r.
Proof.
  unfold start_folder. destruct (r_isGitRepository env) as [[|]|]; [|by eauto|done].
  intros _.
  destruct (r_getGitRepositoryInfo env), (r_getCurrentBranch env); eauto.
  destruct (r_getKilocodeConfig env) as [pid|]; eauto.
  destruct (negb (truthy_opt pid)); eauto.
  destruct (r_getServerManifest env); eauto.
  destruct (r_newGitWatcher env); eauto.
  destruct (r_onEvent env); eauto.
Qed.

Lemma build_states_nil : build_states [] = Ok [].
Proof. reflexivity. Qed.

Lemma build_states_cons cwd env rest r states :
  start_folder cwd env = Ok r ->
  build_states rest = Ok states ->
  build_states ((cwd, env) :: rest) = Ok (option_list r ++ states)%list.
Proof.
  unfold build_states. simpl. intros ->.
  destruct (promise_all (map _ rest)) as [l|]; [|done].
  intros [= <-]. by destruct r.
Qed.

Lemma build_states_settles folders :
  forallb check_settles folders = true ->
  exists states, build_states folders = Ok states.
Proof.
  induction folders as [|[cwd env] rest IH]; [by eauto|].
  simpl. intros [Hg Hrest]%andb_prop.
  destruct (IH Hrest) as [states Hs].
  destruct (start_folder_settles cwd env Hg) as [r Hr].
  eexists. by apply build_states_cons.
Qed.

Lemma build_states_app l1 l2 s1 s2 :
  build_states l1 = Ok s1 -> build_states l2 = Ok s2 ->
  build_states (l1 ++ l2) = Ok (s1 ++ s2)%list.
Proof.
  revert s1. induction l1 as [|[cwd env] rest IH]; intros s1.
  - intros [= <-]. done.
  - unfold build_states at 1. simpl.
    destruct (start_folder cwd env) as [r|] eqn:Hr; [|done].
    destruct (promise_all (map _ rest)) as [l|] eqn:Hl; [|done].
    intros [= <-] H2. simpl.
    erewrite build_states_cons; [|done|apply IH; [|done]].
    + destruct r; simpl; [|done]. done.
    + unfold build_states. by rewrite Hl.
Qed.


Lemma start_assigns_states cfg folders this states :
  Js.truthy_opt (kilocodeOrganizationId cfg) = true ->
  Js.truthy_opt (kilocodeToken cfg) = true ->
  folders <> [] ->
  build_states folders = Ok states ->
  start cfg true folders this
  = (Ok tt, {| config := Some cfg; isActive := true;
               workspaceFolderState := states |}).
Proof.
  intros Ho Ht Hne Hb. unfold start.
  destruct folders; [done|]. simpl List.length. simpl.
  rewrite Ho, Ht, Hb. done.
Qed.

(** C9. With every folder a git repository or not (the check itself not
    failing), [start()] keeps, around the state of any one folder, the
    states the folders before and after it get on their own, whatever that
    folder runs into.  A failure of its git information leaves a state with
    a [git] error and nothing resolved; a failure of its manifest fetch a
    state with a [manifest] error that keeps branch, repository and project
    but has no manifest and no watcher; a failure of the construction of
    its watcher a state with a [scan] error that keeps the manifest too. *)
Theorem startup_failures_are_isolated
    (cfg : ManagedIndexerConfig) (this : Indexer)
    (before after : list (string * RootEnv)) (cwd : string) (env : RootEnv) :
  truthy_opt (kilocodeOrganizationId cfg) = true ->
  truthy_opt (kilocodeToken cfg) = true ->
  forallb check_settles (before ++ after) = true ->
  r_isGitRepository env = Ok true ->
  exists sb sa,
    build_states before = Ok sb /\ build_states after = Ok sa /\
    (* whatever happens to this folder, the others keep their states *)
    (exists r, start_folder cwd env = Ok r /\
       start cfg true (before ++ (cwd, env) :: after) this
       = (Ok tt, {| config := Some cfg; isActive := true;
                    workspaceFolderState := (sb ++ option_list r ++ sa)%list |})) /\
    (* a failure of the git information *)
    (is_ok (r_getGitRepositoryInfo env) && is_ok (r_getCurrentBranch env) = false ->
     exists st, start_folder cwd env = Ok (Some st) /\
       has_error_type E_git st = true /\ workspaceFolder st = cwd /\
       gitBranch st = None /\ projectId st = None /\
       manifest st = None /\ watcher st = None) /\
    (* a failure of the manifest fetch *)
    (forall url b pid e,
       r_getGitRepositoryInfo env = Ok url -> r_getCurrentBranch env = Ok b ->
       r_getKilocodeConfig env = Ok pid -> truthy_opt pid = true ->
       r_getServerManifest env = Err e ->
       exists st, start_folder cwd env = Ok (Some st) /\
         has_error_type E_manifest st = true /\ workspaceFolder st = cwd /\
         gitBranch st = Some b /\ repositoryUrl st = url /\ projectId st = pid /\
         manifest st = None /\ watcher st = None) /\
    (* a failure of the construction of the watcher *)
    (forall url b pid m e,
       r_getGitRepositoryInfo env = Ok url -> r_getCurrentBranch env = Ok b ->
       r_getKilocodeConfig env = Ok pid -> truthy_opt pid = true ->
       r_getServerManifest env = Ok m -> r_newGitWatcher env = Err e ->
       exists st, start_folder cwd env = Ok (Some st) /\
         has_error_type E_scan st = true /\ workspaceFolder st = cwd /\
         gitBranch st = Some b /\ repositoryUrl st = url /\ projectId st = pid /\
         manifest st = Some m /\ watcher st = None).
Proof.
  intros Horg Htok Hall Hgit. rewrite forallb_app in Hall.
  apply andb_prop in Hall as [Hb Ha].
  destruct (build_states_settles _ Hb) as [sb Hsb].
  destruct (build_states_settles _ Ha) as [sa Hsa].
  exists sb, sa. split; [done|]. split; [done|]. split; [|split; [|split]].
  - destruct (start_folder_settles cwd env) as [r Hr]; [by rewrite Hgit|].
    exists r. split; [done|].
    apply start_assigns_states; [done|done|by destruct before|].
    apply build_states_app; [done|]. by apply build_states_cons.
  - unfold start_folder. rewrite Hgit.
    destruct (r_getGitRepositoryInfo env), (r_getCurrentBranch env);
      simpl; [done|..]; intros _; by eexists.
  - intros url b pid e Hu Hbr Hp Ht Hm. unfold start_folder.
    rewrite Hgit, Hu, Hbr, Hp, Ht, Hm. simpl. by eexists.
  - intros url b pid m e Hu Hbr Hp Ht Hm Hw. unfold start_folder.
    rewrite Hgit, Hu, Hbr, Hp, Ht, Hm, Hw. simpl. by eexists.
Qed.

(** A folder state with a watcher and no project id. *)
Lemma uninitialised_root_ignores_events_witness :
  onEvent (file_changed "test.ts" "abc123" "main") (boot half_initialised)
  = boot half_initialised.
Proof.
  apply (uninitialised_root_ignores_events (boot half_initialised)
           (file_changed "test.ts" "abc123" "main") 0
           (set_watcher (Some 7)
              (set_gitBranch (Some "main") (initial_state "/test/repo"))));
    [ reflexivity | left; reflexivity ].
Defined.


(** Three folders: the manifest service fails for the first, git for the
    third, and the second completes its start-up. *)
Lemma startup_failures_are_isolated_witness :
  exists a b,
    workspaceFolderState
      (start test_config true
         [("/test/a", manifest_down); ("/test/repo", healthy 7);
          ("/test/c", git_down)] stopped).2
    = [a; b; set_error (Some (startup_error E_git "Failed to get git information: "
                                 "Git command failed" "get-git-info" None))
               (initial_state "/test/c")]
    /\ has_error_type E_manifest a = true /\ watcher a = None
    /\ watcher b = Some 7 /\ manifest b = Some manifest_of_main
    /\ error b = None.
Proof.
  destruct (startup_failures_are_isolated test_config stopped
              [("/test/a", manifest_down)] [("/test/c", git_down)]
              "/test/repo" (healthy 7) eq_refl eq_refl eq_refl eq_refl)
    as (sb & sa & Hsb & Hsa & (r & Hr & Hstart) & _).
  injection Hsb as <-. injection Hsa as <-. injection Hr as <-.
  simpl in Hstart. rewrite Hstart.
  eexists _, _. repeat split; reflexivity.
Defined.

(** C1, where the code departs from it. The branch goes to [feature/a],
    to [feature/b] and back to [feature/a] before the manifest service
    answers: the third call of [getManifest] does not join the fetch the
    first one started, two fetches for [feature/a] are in flight on the
    same root and the manifest API is called twice for that branch.  When
    the first of them completes it empties the slot although the other one
    is still in flight. *)
Theorem second_fetch_while_first_is_pending :
  let w := run (boot started) back_and_forth in
  handlers w
  = [ OnBranchChanged (Fetching 0); OnBranchChanged (Fetching 1);
      OnBranchChanged (Fetching 2) ] /\
  in_flight_for 0 "feature/a" w
  = [ {| f_state := 0; f_branch := "feature/a"; f_stage := AwaitingManifest |};
      {| f_state := 0; f_branch := "feature/a"; f_stage := AwaitingManifest |} ] /\
  manifest_calls "feature/a" w
  = [ GetServerManifest "test-org-id" "test-project-id" "feature/a" "test-token";
      GetServerManifest "test-org-id" "test-project-id" "feature/a" "test-token" ] /\
  (let w' := step w (ManifestSettles 0 (Ok manifest_of_main)) in
   slot 0 w' = None /\
   in_flight_for 0 "feature/a" w'
   = [ {| f_state := 0; f_branch := "feature/a"; f_stage := AwaitingManifest |} ]).
Proof. repeat split; reflexivity. Qed.

(** C5, where the code departs from it. The root started on [main] with
    the manifest of [main].  A file of [feature/test] arrives and the fetch
    for that branch fails, so the file is skipped; when the same file
    arrives again, [getManifest] answers with the manifest of [main], and
    the file is taken for indexed and never uploaded. *)
Theorem manifest_of_previous_branch_is_reused :
  let w := run (boot started) failed_fetch_then_retry in
  (gitBranch <$> states (boot started) !! 0 = Some (Some "main") /\
   manifest <$> states (boot started) !! 0 = Some (Some manifest_of_main)) /\
  manifest_calls "feature/test" w
  = [ GetServerManifest "test-org-id" "test-project-id" "feature/test"
        "test-token" ] /\
  fetches w
  = [ {| f_state := 0; f_branch := "feature/test";
         f_stage := Rejected "API error" |} ] /\
  handlers w
  = [ Finished;
      OnFileChanged 0 "test.ts" "abc123" "feature/test" false me
        (Cached manifest_of_main) ] /\
  uploads (resume 1 w) = [] /\
  handlers (resume 1 w) = [ Finished; Finished ].
Proof. repeat split; reflexivity. Qed.

(** The single-flight scenario of the test suite: one call of the manifest
    API, both handlers on the same fetch, the slot emptied on completion. *)
Example two_events_share_one_fetch :
  let w := run (boot started) two_events_one_branch in
  manifest_calls "feature/test" w
  = [ GetServerManifest "test-org-id" "test-project-id" "feature/test"
        "test-token" ] /\
  handlers w
  = [ OnBranchChanged (Fetching 0);
      OnFileChanged 0 "test.ts" "abc123" "feature/test" false me (Fetching 0) ] /\
  settled (Fetching 0) w = Some (Ok {| files := [] |}) /\
  slot 0 w = None /\
  uploads (run w [Resume 0; Resume 1])
  = [ queued 0 "test.ts" "abc123" "feature/test" false me ].
Proof. repeat split; reflexivity. Qed.

(** The scheduled upload, once run, calls the upsert API once. *)
Example scheduled_upload_calls_upsert_once :
  let w := run (boot started)
             (two_events_one_branch ++
              [ Resume 0; Resume 1; StartUpload 0;
                ReadSettles 0 (Ok "content"); UpsertSettles 0 (Ok tt) ]) in
  List.filter is_upsert (calls w)
  = [ UpsertFile "content" "abc123" "test.ts" "feature/test" false
        (Some "test-org-id") "test-project-id" (Some "test-token") ].
Proof. reflexivity. Qed.

End ManagedIndexerFacts.

(** ** Further facts about the watcher *)

Module WatcherMoreFacts.

Import Js GitWatcher JsFacts Examples MoreExamples WatcherObs GitWatcherFacts.

Lemma emitted_file_events_of b base me lines :
  Forall (file_event_of b base me)
    (emitted (file_events (fun p h => FileChanged p h b base me) lines)).
Proof.
  rewrite emitted_file_events.
  induction (omap parse_ls_line lines) as [|[p h] l IH]; constructor; [|done].
  left. by eexists _, _.
Qed.

Lemma for_await_lines_shape exec cmd b base me w :
  for_await_lines exec cmd (fun p h => FileChanged p h b base me) w
  = (match failure (exec cmd) with Some e => Err e | None => Ok tt end, w,
     ExecGetLines cmd
     :: file_events (fun p h => FileChanged p h b base me) (yielded (exec cmd))).
Proof.
  unfold for_await_lines, bind, tell. rewrite emit_lines_run.
  destruct (failure (exec cmd)); simpl; by rewrite app_nil_r.
Qed.

Lemma emitted_console t tag : emitted (t ++ [ConsoleError tag]) = emitted t.
Proof. rewrite emitted_app. simpl. by rewrite app_nil_r. Qed.

(** X1. Whatever git answers, the events of one [scan()] are none at all,
    or [ScanStart], then only [FileChanged] and [FileDeleted] events of the
    same branch, base flag and watcher, then [ScanEnd]; [ScanEnd] is
    emitted exactly when [scan()] returns normally, and missing exactly
    when it throws after [ScanStart]. *)
Theorem scan_brackets (env : ScanEnv) (w : GitWatcher) :
  emitted (trace (scan env w)) = [] \/
  exists b base middle,
    Forall (file_event_of b base (this_ref w)) middle /\
    ((outcome (scan env w) = Ok tt /\
      emitted (trace (scan env w))
      = (ScanStart b base (this_ref w) :: middle
         ++ [ScanEnd b base (this_ref w)])%list) \/
     ((exists e, outcome (scan env w) = Err e) /\
      emitted (trace (scan env w)) = ScanStart b base (this_ref w) :: middle)).
Proof.
  unfold scan, logged, try_catch, bind, tell, await, ret.
  destruct (sDetached env) as [[|]|e]; [by left| |by left].
  destruct (sBranch env) as [b|e]; [|by left].
  destruct (getDefaultBranch_run (sBase env) w) as (r & w' & -> & Hsame).
  destruct r as [d|e]; [|by left].
  pose proof (this_ref_same _ _ Hsame) as Hme.
  right. destruct (toLowerCase b =? toLowerCase d).
  - exists b, true.
    unfold scanAllFiles, logged, try_catch, bind, this, tell.
    rewrite for_await_lines_shape, Hme.
    eexists. split; [apply (emitted_file_events_of b true (this_ref w)
                       (yielded (sExec env "git ls-files -s")))|].
    destruct (failure (sExec env "git ls-files -s")); simpl;
      unfold outcome, trace; simpl; [right|left]; (split; [by eauto|]);
      rewrite ?app_nil_r, ?emitted_app; simpl; by rewrite ?app_nil_r.
  - exists b, false.
    unfold scanDiffFiles, logged, try_catch, bind, this, tell, await.
    rewrite Hme.
    destruct (sDiff env b d) as [diff|e].
    2:{ exists []. split; [done|]. right. unfold outcome, trace. simpl.
        split; by eauto. }
    rewrite emit_deleted_run.
    assert (Forall (file_event_of b false (this_ref w))
              (map (fun f => FileDeleted f b false (this_ref w)) (deleted diff)))
      as Hdel.
    { apply Forall_forall. intros e (f & -> & _)%list_elem_of_fmap.
      right. by eexists. }
    destruct (List.length (added diff ++ modified diff) =? 0)%nat.
    + eexists. split; [exact Hdel|]. left. unfold outcome, trace. simpl.
      split; [done|]. by rewrite !emitted_app, emitted_deleted.
    + rewrite for_await_lines_shape.
      eexists. split.
      { apply Forall_app. split; [exact Hdel|].
        apply (emitted_file_events_of b false (this_ref w)
                 (yielded (sExec env (diff_command (added diff ++ modified diff))))). }
      destruct (failure (sExec env _)); simpl; unfold outcome, trace; simpl;
        [right|left]; (split; [by eauto|]);
        rewrite ?app_nil_r, ?emitted_app, ?emitted_deleted; simpl;
        rewrite ?emitted_app, ?app_nil_r; simpl; by rewrite <- ?app_assoc.
Qed.

Lemma set_isProcessing_id w :
  isProcessing w = false -> set_isProcessing false (set_isProcessing true w) = w.
Proof. destruct w. simpl. by intros ->. Qed.

Lemma idle_cycle_changes_nothing (env : CycleEnv) (w : GitWatcher) :
  isProcessing w = true \/
  (isProcessing w = false /\ cDetached env = Ok false /\
   exists s, currentState w = Some s /\
             cBranch env = Ok (branch s) /\ cCommit env = Ok (commit s)) ->
  handleGitChange env w = (Ok tt, w, []).
Proof.
  intros [Hp | (Hp & Hd & s & Hs & Hb & Hc)];
    unfold handleGitChange, try_finally, try_catch, bind, this, update, await,
      tell, ret; rewrite Hp; [done|].
  rewrite Hd, Hb, Hc. simpl. rewrite Hs. simpl.
  rewrite !String.eqb_refl. simpl. by rewrite set_isProcessing_id.
Qed.

(** X2. A change-handling cycle that starts with the guard free never
    throws and always ends with the guard free again, whatever git
    answers or fails at. *)
Theorem guard_is_always_released (env : CycleEnv) (w : GitWatcher) :
  isProcessing w = false ->
  outcome (handleGitChange env w) = Ok tt /\
  isProcessing (after (handleGitChange env w)) = false.
Proof.
  intros Hp.
  unfold handleGitChange, try_finally, try_catch, bind, this, update, await,
    tell, ret. rewrite Hp.
  destruct (cDetached env) as [[|]|e]; simpl; [done| |done].
  destruct (cBranch env) as [b|e]; simpl; [|done].
  destruct (cCommit env) as [c|e]; simpl; [|done].
  destruct (currentState w) as [cur|]; simpl; [|done].
  destruct (negb (branch cur =? b)) eqn:Eb; simpl.
  - destruct (getDefaultBranch_run (cBase env) (set_isProcessing true w))
      as (r & w1 & -> & _).
    destruct r as [d|e]; simpl; [|done].
    destruct (scan_run (cScan env) w1) as (r & w2 & t & -> & _ & _).
    by destruct r.
  - destruct (negb (commit cur =? c)); simpl; [|done].
    destruct (scan_run (cScan env) (set_isProcessing true w))
      as (r & w2 & t & -> & _ & _).
    by destruct r.
Qed.

(** X3. A cycle that finds HEAD detached drops the cached snapshot and
    emits nothing; the next cycle, on whatever branch and commit, only
    records them: it emits no [BranchChanged] and does not rescan. *)
Theorem passage_through_detached_head_is_silent
    (env1 env2 : CycleEnv) (w : GitWatcher) (b c : string) :
  isProcessing w = false ->
  cDetached env1 = Ok true ->
  cDetached env2 = Ok false ->
  cBranch env2 = Ok b ->
  cCommit env2 = Ok c ->
  let w1 := after (handleGitChange env1 w) in
  trace (handleGitChange env1 w) = [] /\
  currentState w1 = None /\
  trace (handleGitChange env2 w1) = [] /\
  currentState (after (handleGitChange env2 w1))
  = Some {| branch := b; commit := c; isDetached := false |}.
Proof.
  intros Hp H1 H2 Hb Hc.
  unfold handleGitChange, try_finally, try_catch, bind, this, update, await,
    tell, ret. rewrite Hp, H1. simpl. rewrite H2, Hb, Hc. done.
Qed.

(** With a default-branch override configured, [scan()] does not
    depend on what [getBaseBranch] answers, be it an error. *)
Theorem override_bypasses_base_branch_resolver
    (env : ScanEnv) (w : GitWatcher) (base : Res string) :
  truthy_opt (defaultBranchOverride (config w)) = true ->
  scan (with_base base env) w = scan env w.
Proof.
  intros Ho.
  unfold scan, logged, try_catch, bind, tell, await, ret. simpl.
  destruct (sDetached env) as [[|]|e]; [done| |done].
  destruct (sBranch env) as [b|e]; [|done].
  assert (getDefaultBranch base w = getDefaultBranch (sBase env) w) as ->.
  { unfold getDefaultBranch, bind, this, ret, update, await.
    destruct (truthy_opt (defaultBranch w)); [done|]. simpl. by rewrite Ho. }
  destruct (getDefaultBranch (sBase env) w) as [[[d|e] w1] t1]; [|done].
  destruct (toLowerCase b =? toLowerCase d).
  - done.
  - done.
Qed.

(** X4. Once the default branch has been resolved to a non-empty name, a
    later [getDefaultBranch()] returns that name whatever git would answer
    then, and changes nothing. *)
Theorem base_branch_is_resolved_once
    (w : GitWatcher) (base base' : Res string) (d : string) :
  outcome (getDefaultBranch base w) = Ok d ->
  truthy d = true ->
  outcome (getDefaultBranch base' (after (getDefaultBranch base w))) = Ok d /\
  after (getDefaultBranch base' (after (getDefaultBranch base w)))
  = after (getDefaultBranch base w).
Proof.
  unfold outcome, after, getDefaultBranch, bind, this, ret, update, await.
  destruct (defaultBranch w) as [cached|] eqn:Hc; simpl.
  - destruct (truthy cached) eqn:Ht; simpl.
    + intros [= <-] _. rewrite Hc. simpl. by rewrite Ht.
    + destruct (defaultBranchOverride (config w)) as [o|] eqn:Ho; simpl.
      * destruct (truthy o) eqn:Hto; simpl.
        -- intros [= <-] _. simpl. by rewrite Hto.
        -- destruct base; simpl; [|done]. intros [= <-] Hd. simpl. by rewrite Hd.
      * destruct base; simpl; [|done]. intros [= <-] Hd. simpl. by rewrite Hd.
  - destruct (defaultBranchOverride (config w)) as [o|] eqn:Ho; simpl.
    + destruct (truthy o) eqn:Hto; simpl.
      * intros [= <-] _. simpl. by rewrite Hto.
      * destruct base; simpl; [|done]. intros [= <-] Hd. simpl. by rewrite Hd.
    + destruct base; simpl; [|done]. intros [= <-] Hd. simpl. by rewrite Hd.
Qed.

(** X5. A record whose path is made of pieces without white space
    separated by single spaces is parsed back to that very path and to its
    hash. *)
Theorem single_spaced_path_round_trips
    (sep : string) (r : LsRecord) (words : list string) :
  is_separator sep = true ->
  is_field (mode r) = true -> is_field (hash r) = true ->
  is_field (stage r) = true ->
  words <> [] -> Forall (fun f => is_field f = true) words ->
  path r = join " " words ->
  parse_ls_line (ls_line sep r) = Some (path r, hash r).
Proof.
  intros Hsep H1 H2 H3 Hne Hw Hp.
  rewrite parse_ls_record; [|done|].
  - rewrite Hp. by rewrite normalized_single_spaced.
  - unfold well_formed. rewrite H1, H2, H3, Hp. simpl.
    by rewrite join_not_blank.
Qed.

Lemma cons_head_no_space c l :
  is_space c = false ->
  Forall (fun t => no_space t = true) l ->
  Forall (fun t => no_space t = true) (cons_head c l).
Proof.
  intros Hc [|t ts Ht Hts]; constructor; simpl; rewrite ?Hc; done.
Qed.

Lemma split_run_no_space b s :
  Forall (fun t => no_space t = true) (split_run b s).
Proof.
  revert b. induction s as [|c s IH]; intros b; simpl; [by repeat constructor|].
  destruct (is_space c) eqn:Hc.
  - destruct b; [apply IH|]. constructor; [done|apply IH].
  - by apply cons_head_no_space.
Qed.

(** Pieces after the first, and all pieces when a separator precedes. *)
Lemma split_run_fields s :
  trimEnd s = s ->
  Forall (fun t => is_field t = true) (tail (split_run false s)) /\
  (s <> EmptyString -> Forall (fun t => is_field t = true) (split_run true s)).
Proof.
  induction s as [|c s IH]; [by split|].
  simpl. intros Ht.
  destruct (is_space c) eqn:Hc; simpl in Ht.
  - destruct (is_empty (trimEnd s)) eqn:He; [done|].
    injection Ht as Ht. destruct (IH Ht) as [_ IH2].
    assert (s <> EmptyString) as Hne by (intros ->; done).
    split; [|intros _]; by apply IH2.
  - injection Ht as Ht. destruct (IH Ht) as [IH1 _].
    pose proof (split_run_nonempty false s) as Hn.
    pose proof (split_run_no_space false s) as Hns.
    destruct (split_run false s) as [|t ts]; [done|]. simpl in *.
    split; [done|]. intros _. constructor; [|done].
    unfold is_field. simpl. rewrite Hc. simpl.
    by apply Forall_cons in Hns as [-> _].
Qed.

Lemma trimEnd_idemp s : trimEnd (trimEnd s) = trimEnd s.
Proof.
  induction s as [|c s IH]; [done|]. simpl.
  destruct (is_space c && is_empty (trimEnd s)) eqn:E; [done|].
  simpl. rewrite IH, E. done.
Qed.

Lemma trimStart_head s c s' :
  trimStart s = String c s' -> is_space c = false.
Proof.
  induction s as [|a s IH]; [done|]. simpl.
  destruct (is_space a) eqn:Ha; [done|]. by intros [= <- _].
Qed.

Lemma trimEnd_head c s :
  is_space c = false -> exists r, trimEnd (String c s) = String c r.
Proof. intros Hc. simpl. rewrite Hc. by eexists. Qed.

Lemma trim_fields s :
  is_empty (trim s) = false ->
  split_ws (trim s) <> [] /\
  Forall (fun t => is_field t = true) (split_ws (trim s)).
Proof.
  intros Hne. unfold split_ws. split; [apply split_run_nonempty|].
  unfold trim in *.
  destruct (trimStart s) as [|c s'] eqn:Hs; [done|].
  pose proof (trimStart_head _ _ _ Hs) as Hc.
  destruct (trimEnd_head c s' Hc) as [r Hr].
  pose proof (trimEnd_idemp (String c s')) as Hid. rewrite Hr in *.
  destruct (split_run_fields _ Hid) as [_ H2].
  specialize (H2 ltac:(done)). simpl in *. by rewrite Hc in *.
Qed.

Lemma parsed_entries_are_clean (line p h : string) :
  parse_ls_line line = Some (p, h) ->
  is_field h = true /\ truthy p = true /\ normalized p = p.
Proof.
  unfold parse_ls_line.
  destruct (is_empty (trim line)) eqn:He; [done|].
  destruct (trim_fields line He) as [_ Hf].
  destruct (split_ws (trim line)) as [|f1 [|f2 [|f3 [|f4 rest]]]]; try done.
  change (slice 3 (f1 :: f2 :: f3 :: f4 :: rest)) with (f4 :: rest).
  change (nth 1 (f1 :: f2 :: f3 :: f4 :: rest) EmptyString) with f2.
  intros [= <- <-].
  apply Forall_cons in Hf as [_ Hf]. apply Forall_cons in Hf as [H2 Hf].
  apply Forall_cons in Hf as [_ Hf].
  split; [done|]. split.
  - pose proof (join_not_blank (f4 :: rest) ltac:(done) Hf) as Hb.
    change (truthy (join " " (f4 :: rest)) = true).
    by destruct (join " " (f4 :: rest)).
  - change (normalized (join " " (f4 :: rest)) = join " " (f4 :: rest)).
    by apply normalized_single_spaced.
Qed.

Lemma clean_file_events b base me lines :
  Forall clean_entry (file_events (fun p h => FileChanged p h b base me) lines).
Proof.
  unfold file_events. induction lines as [|l lines IH]; [done|].
  simpl. destruct (parse_ls_line l) as [[p h]|] eqn:Hp; [|done].
  simpl. constructor; [|done]. simpl. by eapply parsed_entries_are_clean.
Qed.

Lemma clean_deleted b me (files : list string) :
  Forall clean_entry (map (fun f => Emit (FileDeleted f b false me)) files).
Proof. induction files; by constructor. Qed.

(** X6. Whatever git prints, every [FileChanged] event of a scan carries a
    non-empty hash without white space and a non-empty path without
    leading, trailing or repeated white space. *)
Theorem scan_emits_clean_entries (env : ScanEnv) (w : GitWatcher) :
  Forall clean_entry (trace (scan env w)).
Proof.
  unfold scan, logged, try_catch, bind, tell, await, ret.
  destruct (sDetached env) as [[|]|e]; [by repeat constructor| |by repeat constructor].
  destruct (sBranch env) as [b|e]; [|by repeat constructor].
  destruct (getDefaultBranch_run (sBase env) w) as (r & w' & -> & Hsame).
  destruct r as [d|e]; [|by repeat constructor].
  destruct (toLowerCase b =? toLowerCase d).
  - unfold scanAllFiles, logged, try_catch, bind, this, tell.
    rewrite for_await_lines_shape.
    pose proof (clean_file_events b true (this_ref w')
                  (yielded (sExec env "git ls-files -s"))) as Hc.
    destruct (failure (sExec env "git ls-files -s")); simpl; unfold trace; simpl;
      repeat (first [ apply Forall_cons; split; [done|]
                    | apply Forall_app; split ]);
      try done; by repeat constructor.
  - unfold scanDiffFiles, logged, try_catch, bind, this, tell, await.
    destruct (sDiff env b d) as [diff|e]; [|by repeat constructor].
    rewrite emit_deleted_run.
    pose proof (clean_deleted b (this_ref w') (deleted diff)) as Hd.
    destruct (List.length (added diff ++ modified diff) =? 0)%nat.
    + simpl. unfold trace. simpl.
      repeat (first [ apply Forall_cons; split; [done|]
                    | apply Forall_app; split ]);
        try done; by repeat constructor.
    + rewrite for_await_lines_shape.
      pose proof (clean_file_events b false (this_ref w')
        (yielded (sExec env (diff_command (added diff ++ modified diff))))) as Hc.
      destruct (failure (sExec env _)); simpl; unfold trace; simpl;
        repeat (first [ apply Forall_cons; split; [done|]
                      | apply Forall_app; split ]);
        try done; by repeat constructor.
Qed.

(** The commit-only change whose rescan fails ends with the guard free. *)
Lemma guard_is_always_released_witness :
  outcome (handleGitChange new_commit_failing_rescan started_watcher) = Ok tt /\
  isProcessing (after (handleGitChange new_commit_failing_rescan started_watcher))
  = false.
Proof.
  apply (guard_is_always_released new_commit_failing_rescan started_watcher).
  reflexivity.
Defined.

(** From [main] through a detached HEAD to [feature/test]. *)
Lemma passage_through_detached_head_is_silent_witness :
  let w1 := after (handleGitChange head_detached started_watcher) in
  trace (handleGitChange head_detached started_watcher) = [] /\
  currentState w1 = None /\
  trace (handleGitChange branch_switch w1) = [] /\
  currentState (after (handleGitChange branch_switch w1))
  = Some {| branch := "feature/test"; commit := "abc123"; isDetached := false |}.
Proof.
  apply (passage_through_detached_head_is_silent head_detached branch_switch
           started_watcher "feature/test" "abc123"); reflexivity.
Defined.

(** The override [develop], with a base-branch resolver that fails. *)
Lemma override_bypasses_base_branch_resolver_witness :
  scan (with_base (Err "no remote") (on_main tracked)) overridden_watcher
  = scan (on_main tracked) overridden_watcher.
Proof.
  apply (override_bypasses_base_branch_resolver (on_main tracked)
           overridden_watcher (Err "no remote")).
  reflexivity.
Defined.

(** [main] is resolved first; a later answer [develop] is not used. *)
Lemma base_branch_is_resolved_once_witness :
  outcome (getDefaultBranch (Ok "develop")
             (after (getDefaultBranch (Ok "main") fresh_watcher))) = Ok "main" /\
  after (getDefaultBranch (Ok "develop")
           (after (getDefaultBranch (Ok "main") fresh_watcher)))
  = after (getDefaultBranch (Ok "main") fresh_watcher).
Proof.
  apply (base_branch_is_resolved_once fresh_watcher (Ok "main") (Ok "develop")
           "main"); reflexivity.
Defined.

(** The path with spaces of the test suite, after git's TAB. *)
Lemma single_spaced_path_round_trips_witness :
  parse_ls_line (ls_line tab spaced_record)
  = Some ("path with spaces/file.ts", "abc123").
Proof.
  apply (single_spaced_path_round_trips tab spaced_record
           ["path"; "with"; "spaces/file.ts"]);
    first [ reflexivity | discriminate | repeat constructor ].
Defined.

End WatcherMoreFacts.

(** ** Further facts about the orchestrator *)

Module IndexerMoreFacts.

Import Js ManagedIndexer Examples MoreExamples IndexerObs ManagedIndexerFacts.
Import GitWatcher (WatcherRef, ref_id, ref_cwd, GitWatcherEvent, ev_watcher).

Section Orchestration.
Context `{Host}.

Lemma states_on_state i g w j :
  states (on_state i g w) !! j
  = if decide (i = j) then g <$> states w !! i else states w !! j.
Proof. unfold on_state, states. simpl. apply list_lookup_alter. Qed.

Lemma inv_keep i g w :
  (forall st, manifestFetchPromise (g st) = manifestFetchPromise st /\
              gitBranch (g st) = gitBranch st) ->
  slots_name_pending_fetches w -> slots_name_pending_fetches (on_state i g w).
Proof.
  intros Hg Hinv j st p Hst Hp. rewrite states_on_state in Hst.
  case_decide; [subst j|by apply (Hinv j st p)].
  destruct (states w !! i) as [st0|] eqn:E; simplify_eq/=.
  destruct (Hg st0) as [E1 E2]. rewrite E2.
  apply (Hinv i st0 p); [done|congruence].
Qed.

Lemma inv_clear i g w :
  (forall st, manifestFetchPromise (g st) = None) ->
  slots_name_pending_fetches w -> slots_name_pending_fetches (on_state i g w).
Proof.
  intros Hg Hinv j st p Hst Hp. rewrite states_on_state in Hst.
  case_decide; [subst j|by apply (Hinv j st p)].
  destruct (states w !! i) as [st0|] eqn:E; simplify_eq/=.
  pose proof (Hg st0). congruence.
Qed.

Lemma inv_call c w :
  slots_name_pending_fetches w -> slots_name_pending_fetches (call c w).
Proof. done. Qed.

Lemma inv_handlers g w :
  slots_name_pending_fetches w -> slots_name_pending_fetches (with_handlers g w).
Proof. done. Qed.

Lemma inv_uploads g w :
  slots_name_pending_fetches w -> slots_name_pending_fetches (with_uploads g w).
Proof. done. Qed.

Lemma inv_advance fetch w :
  slots_name_pending_fetches w ->
  slots_name_pending_fetches
    (with_fetches (alter (set_stage AwaitingManifest) fetch) w).
Proof.
  intros Hinv i st p Hst Hp. destruct (Hinv i st p Hst Hp) as (f & Hf & ?&?&?).
  unfold with_fetches. simpl.
  destruct (decide (fetch = p)) as [->|Hne].
  - rewrite list_lookup_alter_eq, Hf. simpl. by eexists.
  - rewrite list_lookup_alter_ne by done. by eexists.
Qed.

Lemma inv_settle fetch f s w :
  fetches w !! fetch = Some f ->
  slot (f_state f) w = None ->
  slots_name_pending_fetches w ->
  slots_name_pending_fetches (with_fetches (alter (set_stage s) fetch) w).
Proof.
  intros Hf Hslot Hinv i st p Hst Hp.
  destruct (Hinv i st p Hst Hp) as (f' & Hf' & ?&?&?).
  unfold with_fetches. simpl.
  destruct (decide (fetch = p)) as [->|Hne].
  - exfalso. assert (f' = f) as -> by congruence. subst i.
    unfold slot in Hslot. change (states (with_fetches _ w)) with (states w) in Hst.
    rewrite Hst in Hslot. simpl in Hslot. congruence.
  - rewrite list_lookup_alter_ne by done. by eexists.
Qed.

Lemma slot_cleared i g w :
  (forall st, manifestFetchPromise (g st) = None) -> slot i (on_state i g w) = None.
Proof.
  intros Hg. rewrite slot_alter. destruct (states w !! i); simpl; [apply Hg|done].
Qed.

Lemma inv_fetch_fails fetch f msg w :
  fetches w !! fetch = Some f ->
  slots_name_pending_fetches w ->
  slots_name_pending_fetches (fetch_fails fetch f msg w).
Proof.
  intros Hf Hinv. unfold fetch_fails.
  eapply inv_settle.
  - exact Hf.
  - by apply slot_cleared.
  - apply inv_clear; [done|]. by apply inv_keep.
Qed.

Lemma inv_getManifest i st b w :
  states w !! i = Some st ->
  slots_name_pending_fetches w ->
  slots_name_pending_fetches (getManifest i st b w).2.
Proof.
  intros Hst Hinv. unfold getManifest.
  destruct (match manifestFetchPromise st with
            | Some p => if on_branch st b then Some p else None
            | None => None end); [done|].
  destruct (match manifest st with
            | Some m => if on_branch st b then Some m else None
            | None => None end); [done|].
  simpl. intros j st' p Hst' Hp.
  rewrite states_on_state in Hst'.
  change (states (with_fetches ?g (call ?c ?x))) with (states x) in Hst'.
  rewrite !states_on_state in Hst'.
  change (fetches (on_state ?i ?g (with_fetches ?k (call ?c (on_state ?i' ?g' w)))))
    with (k (fetches w)).
  case_decide as Hij.
  - subst j. rewrite decide_True in Hst' by done. rewrite Hst in Hst'.
    simplify_eq/=. rewrite lookup_app_r by done. rewrite Nat.sub_diag. simpl.
    by eexists.
  - destruct (Hinv j st' p Hst' Hp) as (f & Hf & ?&?&?).
    exists f. rewrite lookup_app_l by (by eapply lookup_lt_Some). done.
Qed.

Lemma inv_step w a :
  slots_name_pending_fetches w -> slots_name_pending_fetches (step w a).
Proof.
  intros Hinv. destruct a as [e|fetch r|fetch r|h|t|t r|t r]; simpl.
  - unfold onEvent. destruct (negb (isActive (indexer w))); [done|].
    destruct (list_find _ (states w)) as [[i st]|] eqn:Hfind; [|done].
    apply list_find_Some in Hfind as (Hst & _ & _).
    destruct (negb (bool_decide (is_Some (watcher st)))); [done|].
    destruct (negb (truthy_opt (projectId st))
              || negb (truthy_opt (gitBranch st))); [done|].
    destruct e as [b ib wr|b ib wr|p h b ib wr|p b ib wr|pb nb b ib wr].
    + apply inv_keep; [done|]. by apply inv_keep.
    + by apply inv_keep.
    + destruct (negb (supported p)); [done|].
      pose proof (inv_getManifest i st b w Hst Hinv) as Hg.
      destruct (getManifest i st b w) as [q w1]. by apply inv_handlers.
    + done.
    + pose proof (inv_getManifest i st nb w Hst Hinv) as Hg.
      destruct (getManifest i st nb w) as [q w1]. by apply inv_handlers.
  - unfold config_settles. destruct (fetches w !! fetch) as [f|] eqn:Hf; [|done].
    destruct (f_stage f); try done.
    destruct r as [pid|e]; [|by apply inv_fetch_fails].
    destruct (negb (truthy_opt pid)); [by apply inv_fetch_fails|].
    assert (slots_name_pending_fetches (on_state (f_state f) (set_projectId pid) w))
      as Hinv' by (by apply inv_keep).
    change (config (indexer (on_state (f_state f) (set_projectId pid) w)))
      with (config (indexer w)).
    destruct (config (indexer w)) as [[[tok|] [org|]]|];
      try (by apply inv_fetch_fails).
    destruct (truthy tok && truthy org); [|by apply inv_fetch_fails].
    apply inv_advance. by apply inv_call.
  - unfold manifest_settles. destruct (fetches w !! fetch) as [f|] eqn:Hf; [|done].
    destruct (f_stage f); try done.
    destruct r as [m|e]; [|by apply inv_fetch_fails].
    eapply inv_settle; [exact Hf|by apply slot_cleared|].
    apply inv_clear; [done|]. apply inv_keep.
    { intros st. unfold clear_error_of. by destruct (has_error_type _ st). }
    by apply inv_keep.
  - unfold resume. destruct (handlers w !! h) as [[p|i p0 h0 b ib wr p|]|]; try done.
    + destruct (settled p w); [by apply inv_handlers|done].
    + destruct (settled p w) as [[m|e]|]; [|by apply inv_handlers|done].
      destruct (already_indexed m p0 h0); [by apply inv_handlers|].
      by apply inv_uploads, inv_handlers.
  - unfold start_upload. destruct (uploads w !! t) as [u|]; [|done].
    destruct (is_queued u && may_start t w); [|done].
    destruct (states w !! u_state u) as [st|]; [|by apply inv_uploads].
    destruct (_ && truthy_opt (projectId st)); [|by apply inv_uploads].
    by apply inv_uploads, inv_call.
  - unfold read_settles. destruct (uploads w !! t) as [u|]; [|done].
    destruct (u_stage u); try done.
    destruct r as [buf|e].
    + destruct (config (indexer w)).
      * by apply inv_uploads, inv_call.
      * unfold upload_fails, finish_upload. apply inv_uploads. by apply inv_keep.
    + unfold upload_fails, finish_upload. apply inv_uploads. by apply inv_keep.
  - unfold upsert_settles. destruct (uploads w !! t) as [u|]; [|done].
    destruct (u_stage u); try done.
    destruct r as [[]|e]; unfold upload_fails, finish_upload; apply inv_uploads;
      apply inv_keep; try done.
    intros st. unfold clear_error_of. by destruct (has_error_type _ st).
Qed.

Lemma inv_run w l :
  slots_name_pending_fetches w -> slots_name_pending_fetches (run w l).
Proof.
  revert w. induction l as [|a l IH]; intros w Hinv; [done|].
  simpl. apply IH. by apply inv_step.
Qed.

(** X7. In every state reached from one where each set slot names a
    pending fetch of its own state and branch (as after [start()]), a
    caller of [getManifest] that is handed a fetch is handed one that is
    in flight for the requested root and the requested branch. *)
Theorem answered_fetch_serves_requested_branch
    (w : World) (l : list Action) (i : nat) (st : FolderState) (b : string)
    (p : nat) :
  slots_name_pending_fetches w ->
  states (run w l) !! i = Some st ->
  (getManifest i st b (run w l)).1 = Fetching p ->
  exists f, fetches (getManifest i st b (run w l)).2 !! p = Some f /\
            f_state f = i /\ f_branch f = b /\ in_flight f = true.
Proof.
  intros Hinv Hst. pose proof (inv_run w l Hinv) as Hrun.
  unfold getManifest, on_branch.
  destruct (manifestFetchPromise st) as [q|] eqn:Hq.
  - case_bool_decide as Hb.
    + simpl. intros [= <-].
      destruct (Hrun i st q Hst Hq) as (f & Hf & Hfl & Hi & Hbr).
      exists f. repeat split; [done|done| |done]. congruence.
    + destruct (manifest st); simpl; intros [= <-].
      all: rewrite lookup_app_r by done; rewrite Nat.sub_diag; by eexists.
  - destruct (manifest st) as [m|].
    + case_bool_decide; simpl; [done|]. intros [= <-].
      rewrite lookup_app_r by done. rewrite Nat.sub_diag. by eexists.
    + simpl. intros [= <-].
      rewrite lookup_app_r by done. rewrite Nat.sub_diag. by eexists.
Qed.

Lemma count_app {A} (P : A -> bool) l1 l2 :
  count P (l1 ++ l2) = count P l1 + count P l2.
Proof. unfold count. by rewrite List.filter_app, length_app. Qed.

Lemma count_alter {A} (P : A -> bool) (g : A -> A) t l u :
  l !! t = Some u ->
  count P (alter g t l) + (if P u then 1 else 0)
  = count P l + (if P (g u) then 1 else 0).
Proof.
  revert t. induction l as [|x l IH]; intros [|t] Hl; simplify_eq/=.
  - unfold count. simpl. destruct (P u), (P (g u)); simpl; lia.
  - specialize (IH t Hl). unfold count in *. simpl.
    destruct (P x); simpl; lia.
Qed.

Lemma count_insert {A} (P : A -> bool) t l u v :
  l !! t = Some u ->
  count P (<[t:=v]> l) + (if P u then 1 else 0)
  = count P l + (if P v then 1 else 0).
Proof.
  revert t. induction l as [|x l IH]; intros [|t] Hl; simplify_eq/=.
  - unfold count. simpl. destruct (P u), (P v); simpl; lia.
  - specialize (IH t Hl). unfold count in *. simpl.
    destruct (P x); simpl; lia.
Qed.

Lemma count_le_length {A} (P : A -> bool) l : count P l <= List.length l.
Proof. unfold count. apply List.filter_length_le. Qed.

Ltac wsimpl :=
  unfold upload_fails, finish_upload, fetch_fails, suspend, on_state,
    with_states, with_fetches, with_handlers, with_uploads, call in *;
  simpl in *.

Lemma getManifest_uploads i st b w : uploads (getManifest i st b w).2 = uploads w.
Proof. apply getManifest_frame. Qed.

Lemma onEvent_uploads e w : uploads (onEvent e w) = uploads w.
Proof.
  unfold onEvent. destruct (negb (isActive (indexer w))); [done|].
  destruct (list_find _ (states w)) as [[i st]|]; [|done].
  destruct (negb (bool_decide (is_Some (watcher st)))); [done|].
  destruct (negb (truthy_opt (projectId st))
            || negb (truthy_opt (gitBranch st))); [done|].
  destruct e as [b ib wr|b ib wr|q h b ib wr|q b ib wr|pb nb b ib wr]; try done.
  - destruct (negb (supported q)); [done|].
    pose proof (getManifest_uploads i st b w).
    by destruct (getManifest i st b w).
  - pose proof (getManifest_uploads i st nb w).
    by destruct (getManifest i st nb w).
Qed.

Lemma config_settles_uploads f r w : uploads (config_settles f r w) = uploads w.
Proof.
  unfold config_settles. destruct (fetches w !! f) as [g|]; [|done].
  destruct (f_stage g); try done.
  destruct r as [pid|e]; [|done].
  destruct (negb (truthy_opt pid)); [done|].
  change (config (indexer (on_state (f_state g) (set_projectId pid) w)))
    with (config (indexer w)).
  destruct (config (indexer w)) as [[[tok|] [org|]]|]; try done.
  by destruct (truthy tok && truthy org).
Qed.

Lemma manifest_settles_uploads f r w : uploads (manifest_settles f r w) = uploads w.
Proof.
  unfold manifest_settles. destruct (fetches w !! f) as [g|]; [|done].
  destruct (f_stage g); try done. by destruct r.
Qed.

Lemma running_step w a :
  running w <= MANAGED_MAX_CONCURRENT_FILES ->
  running (step w a) <= MANAGED_MAX_CONCURRENT_FILES.
Proof.
  unfold running. intros Hb.
  destruct a as [e|fetch r|fetch r|h|t|t r|t r]; simpl.
  - by rewrite onEvent_uploads.
  - by rewrite config_settles_uploads.
  - by rewrite manifest_settles_uploads.
  - unfold resume. destruct (handlers w !! h) as [[p|i p0 h0 b ib wr p|]|]; try done.
    + by destruct (settled p w).
    + destruct (settled p w) as [[m|e]|]; try done.
      destruct (already_indexed m p0 h0); [done|]. wsimpl.
      rewrite count_app. unfold count at 2. simpl. lia.
  - unfold start_upload. destruct (uploads w !! t) as [u|] eqn:Hu; [|done].
    destruct (is_queued u) eqn:Hq; [|done]. simpl.
    destruct (may_start t w) eqn:Hm; [|done].
    assert (is_running u = false) as Hr
      by (unfold is_queued, is_running in *; by destruct (u_stage u)).
    unfold may_start in Hm. apply andb_prop in Hm as [_ Hm].
    apply Nat.ltb_lt in Hm. fold (count is_running (uploads w)) in Hm.
    destruct (states w !! u_state u) as [st|].
    + destruct (_ && truthy_opt (projectId st)); wsimpl.
      * pose proof (count_alter is_running
          (set_upload_stage (Reading (default EmptyString (projectId st))
             (if path_isAbsolute (u_filePath u) then u_filePath u
              else path_join (ref_cwd (u_watcher u)) (u_filePath u))))
          t _ u Hu) as Hc.
        rewrite Hr in Hc. simpl in Hc. lia.
      * pose proof (count_alter is_running (set_upload_stage Done) t _ u Hu) as Hc.
        rewrite Hr in Hc. simpl in Hc. lia.
    + wsimpl.
      pose proof (count_alter is_running (set_upload_stage Done) t _ u Hu) as Hc.
      rewrite Hr in Hc. simpl in Hc. lia.
  - unfold read_settles. destruct (uploads w !! t) as [u|] eqn:Hu; [|done].
    destruct (u_stage u) eqn:Hs; try done.
    assert (is_running u = true) as Hr by (unfold is_running; by rewrite Hs).
    destruct r as [buf|e].
    + destruct (config (indexer w)); wsimpl.
      * pose proof (count_alter is_running (set_upload_stage Upserting) t _ u Hu) as Hc.
        rewrite Hr in Hc. simpl in Hc. lia.
      * pose proof (count_alter is_running (set_upload_stage Done) t _ u Hu) as Hc.
        rewrite Hr in Hc. simpl in Hc. lia.
    + wsimpl.
      pose proof (count_alter is_running (set_upload_stage Done) t _ u Hu) as Hc.
      rewrite Hr in Hc. simpl in Hc. lia.
  - unfold upsert_settles. destruct (uploads w !! t) as [u|] eqn:Hu; [|done].
    destruct (u_stage u) eqn:Hs; try done.
    assert (is_running u = true) as Hr by (unfold is_running; by rewrite Hs).
    destruct r as [[]|e]; wsimpl;
      pose proof (count_alter is_running (set_upload_stage Done) t _ u Hu) as Hc;
      rewrite Hr in Hc; simpl in Hc; lia.
Qed.

(** X9. However events, answers and upload steps interleave, the number
    of uploads reading their file or calling the upsert API never exceeds
    [MANAGED_MAX_CONCURRENT_FILES]. *)
Theorem uploads_stay_within_the_limit (w : World) (l : list Action) :
  running w <= MANAGED_MAX_CONCURRENT_FILES ->
  running (run w l) <= MANAGED_MAX_CONCURRENT_FILES.
Proof.
  revert w. induction l as [|a l IH]; intros w Hb; [done|].
  simpl. apply IH. by apply running_step.
Qed.

Lemma getManifest_upserts i st b w :
  upserts (getManifest i st b w).2 = upserts w.
Proof.
  unfold upserts, count. by destruct (getManifest_frame i st b w) as (_ & _ & ->).
Qed.

Lemma getManifest_handlers i st b w :
  handlers (getManifest i st b w).2 = handlers w.
Proof. apply getManifest_frame. Qed.

Lemma onEvent_upserts e w : upserts (onEvent e w) = upserts w.
Proof.
  unfold onEvent. destruct (negb (isActive (indexer w))); [done|].
  destruct (list_find _ (states w)) as [[i st]|]; [|done].
  destruct (negb (bool_decide (is_Some (watcher st)))); [done|].
  destruct (negb (truthy_opt (projectId st))
            || negb (truthy_opt (gitBranch st))); [done|].
  destruct e as [b ib wr|b ib wr|q h b ib wr|q b ib wr|pb nb b ib wr]; try done.
  - destruct (negb (supported q)); [done|].
    pose proof (getManifest_upserts i st b w).
    by destruct (getManifest i st b w).
  - pose proof (getManifest_upserts i st nb w).
    by destruct (getManifest i st nb w).
Qed.

Lemma config_settles_upserts f r w : upserts (config_settles f r w) = upserts w.
Proof.
  unfold config_settles. destruct (fetches w !! f) as [g|]; [|done].
  destruct (f_stage g); try done.
  destruct r as [pid|e]; [|done].
  destruct (negb (truthy_opt pid)); [done|].
  change (config (indexer (on_state (f_state g) (set_projectId pid) w)))
    with (config (indexer w)).
  destruct (config (indexer w)) as [[[tok|] [org|]]|]; try done.
  destruct (truthy tok && truthy org); [|done].
  unfold upserts. wsimpl. rewrite count_app. unfold count at 2. simpl. lia.
Qed.

Lemma manifest_settles_upserts f r w : upserts (manifest_settles f r w) = upserts w.
Proof.
  unfold manifest_settles. destruct (fetches w !! f) as [g|]; [|done].
  destruct (f_stage g); try done. by destruct r.
Qed.

(** Every call of the upsert API belongs to an upload that got past its
    read. *)
Lemma upserts_step w a :
  upserts w <= count past_read (uploads w) ->
  upserts (step w a) <= count past_read (uploads (step w a)).
Proof.
  intros Hb.
  destruct a as [e|fetch r|fetch r|h|t|t r|t r]; simpl.
  - by rewrite onEvent_upserts, onEvent_uploads.
  - by rewrite config_settles_upserts, config_settles_uploads.
  - by rewrite manifest_settles_upserts, manifest_settles_uploads.
  - unfold resume. destruct (handlers w !! h) as [[p|i p0 h0 b ib wr p|]|]; try done.
    + by destruct (settled p w).
    + destruct (settled p w) as [[m|e]|]; try done.
      destruct (already_indexed m p0 h0); [done|]. unfold upserts in *. wsimpl.
      rewrite count_app. lia.
  - unfold start_upload. destruct (uploads w !! t) as [u|] eqn:Hu; [|done].
    destruct (is_queued u) eqn:Hq; [|done]. simpl.
    destruct (may_start t w); [|done].
    assert (past_read u = false) as Hr
      by (unfold is_queued, past_read in *; by destruct (u_stage u)).
    destruct (states w !! u_state u) as [st|].
    + destruct (_ && truthy_opt (projectId st)); unfold upserts in *; wsimpl.
      * rewrite count_app. unfold count at 2. simpl.
        pose proof (count_alter past_read
          (set_upload_stage (Reading (default EmptyString (projectId st))
             (if path_isAbsolute (u_filePath u) then u_filePath u
              else path_join (ref_cwd (u_watcher u)) (u_filePath u))))
          t _ u Hu) as Hc.
        rewrite Hr in Hc. simpl in Hc. lia.
      * pose proof (count_alter past_read (set_upload_stage Done) t _ u Hu) as Hc.
        rewrite Hr in Hc. simpl in Hc. lia.
    + unfold upserts in *. wsimpl.
      pose proof (count_alter past_read (set_upload_stage Done) t _ u Hu) as Hc.
      rewrite Hr in Hc. simpl in Hc. lia.
  - unfold read_settles. destruct (uploads w !! t) as [u|] eqn:Hu; [|done].
    destruct (u_stage u) eqn:Hs; try done.
    assert (past_read u = false) as Hr by (unfold past_read; by rewrite Hs).
    destruct r as [buf|e].
    + destruct (config (indexer w)); unfold upserts in *; wsimpl.
      * rewrite count_app. unfold count at 2. simpl.
        pose proof (count_alter past_read (set_upload_stage Upserting) t _ u Hu) as Hc.
        rewrite Hr in Hc. simpl in Hc. lia.
      * pose proof (count_alter past_read (set_upload_stage Done) t _ u Hu) as Hc.
        rewrite Hr in Hc. simpl in Hc. lia.
    + unfold upserts in *. wsimpl.
      pose proof (count_alter past_read (set_upload_stage Done) t _ u Hu) as Hc.
      rewrite Hr in Hc. simpl in Hc. lia.
  - unfold upsert_settles. destruct (uploads w !! t) as [u|] eqn:Hu; [|done].
    destruct (u_stage u) eqn:Hs; try done.
    assert (past_read u = true) as Hr by (unfold past_read; by rewrite Hs).
    destruct r as [[]|e]; unfold upserts in *; wsimpl;
      pose proof (count_alter past_read (set_upload_stage Done) t _ u Hu) as Hc;
      rewrite Hr in Hc; simpl in Hc; lia.
Qed.

Lemma config_settles_handlers f r w : handlers (config_settles f r w) = handlers w.
Proof.
  unfold config_settles. destruct (fetches w !! f) as [g|]; [|done].
  destruct (f_stage g); try done.
  destruct r as [pid|e]; [|done].
  destruct (negb (truthy_opt pid)); [done|].
  change (config (indexer (on_state (f_state g) (set_projectId pid) w)))
    with (config (indexer w)).
  destruct (config (indexer w)) as [[[tok|] [org|]]|]; try done.
  by destruct (truthy tok && truthy org).
Qed.

Lemma manifest_settles_handlers f r w :
  handlers (manifest_settles f r w) = handlers w.
Proof.
  unfold manifest_settles. destruct (fetches w !! f) as [g|]; [|done].
  destruct (f_stage g); try done. by destruct r.
Qed.

(** Files waiting for their manifest or handed to the limiter: only the
    delivery of a changed file adds one. *)
Lemma pending_files_step w a :
  pending_files (step w a)
  <= pending_files w + (if is_file_delivery a then 1 else 0).
Proof.
  unfold pending_files.
  destruct a as [e|fetch r|fetch r|h|t|t r|t r];
    [change (step w (Deliver e)) with (onEvent e w)|simpl..].
  - rewrite onEvent_uploads.
    assert (count is_file_handler (handlers (onEvent e w))
            <= count is_file_handler (handlers w)
               + (if is_file_delivery (Deliver e) then 1 else 0)); [|lia].
    unfold onEvent. destruct (negb (isActive (indexer w))); [lia|].
    destruct (list_find _ (states w)) as [[i st]|]; [|lia].
    destruct (negb (bool_decide (is_Some (watcher st)))); [lia|].
    destruct (negb (truthy_opt (projectId st))
              || negb (truthy_opt (gitBranch st))); [lia|].
    destruct e as [b ib wr|b ib wr|q h b ib wr|q b ib wr|pb nb b ib wr];
      simpl; try lia.
    + destruct (negb (supported q)); [lia|].
      pose proof (getManifest_handlers i st b w) as E.
      destruct (getManifest i st b w) as [p w1]. wsimpl. rewrite E.
      rewrite count_app. unfold count at 2. simpl. lia.
    + pose proof (getManifest_handlers i st nb w) as E.
      destruct (getManifest i st nb w) as [p w1]. wsimpl. rewrite E.
      rewrite count_app. unfold count at 2. simpl. lia.
  - rewrite config_settles_uploads, config_settles_handlers. lia.
  - rewrite manifest_settles_uploads, manifest_settles_handlers. lia.
  - unfold resume.
    destruct (handlers w !! h) as [[p|i p0 h0 b ib wr p|]|] eqn:Hh; try lia.
    + destruct (settled p w); [|lia]. wsimpl.
      pose proof (count_insert is_file_handler h _ _ Finished Hh) as Hc.
      simpl in Hc. lia.
    + pose proof (count_insert is_file_handler h _ _ Finished Hh) as Hc.
      simpl in Hc.
      destruct (settled p w) as [[m|e]|]; [|wsimpl; lia|lia].
      destruct (already_indexed m p0 h0); wsimpl; rewrite ?length_app; simpl; lia.
  - unfold start_upload. destruct (uploads w !! t) as [u|]; [|lia].
    destruct (is_queued u && may_start t w); [|lia].
    destruct (states w !! u_state u) as [st|].
    + destruct (_ && truthy_opt (projectId st)); wsimpl;
        rewrite length_alter; lia.
    + wsimpl. rewrite length_alter. lia.
  - unfold read_settles. destruct (uploads w !! t) as [u|]; [|lia].
    destruct (u_stage u); try lia.
    destruct r as [buf|e]; [destruct (config (indexer w))|]; wsimpl;
      rewrite length_alter; lia.
  - unfold upsert_settles. destruct (uploads w !! t) as [u|]; [|lia].
    destruct (u_stage u); try lia.
    destruct r as [[]|e]; wsimpl; rewrite length_alter; lia.
Qed.

Lemma upserts_run w l :
  upserts w <= count past_read (uploads w) ->
  upserts (run w l) <= count past_read (uploads (run w l)).
Proof.
  revert w. induction l as [|a l IH]; intros w Hb; [done|].
  simpl. apply IH. by apply upserts_step.
Qed.

Lemma pending_files_run w l :
  pending_files (run w l) <= pending_files w + count is_file_delivery l.
Proof.
  revert w. induction l as [|a l IH]; intros w; [simpl; unfold count; simpl; lia|].
  simpl. specialize (IH (step w a)). pose proof (pending_files_step w a).
  unfold count in *. simpl. destruct (is_file_delivery a); simpl; lia.
Qed.

(** X10. In every run from a fresh orchestrator the upsert API is called
    at most once per delivered [FileChanged] event: nothing is uploaded
    twice or without an event. *)
Theorem at_most_one_upsert_per_changed_file (this : Indexer) (l : list Action) :
  count is_upsert (calls (run (boot this) l)) <= count is_file_delivery l.
Proof.
  pose proof (upserts_run (boot this) l) as H1.
  pose proof (pending_files_run (boot this) l) as H2.
  pose proof (count_le_length past_read (uploads (run (boot this) l))) as H3.
  unfold upserts, pending_files in *.
  change (count is_upsert (calls (boot this))) with 0 in H1.
  change (count past_read (uploads (boot this))) with 0 in H1.
  change (Datatypes.length (uploads (boot this))) with 0 in H2.
  change (count is_file_handler (handlers (boot this))) with 0 in H2.
  specialize (H1 ltac:(lia)). lia.
Qed.

Lemma find_alter (P : FolderState -> Prop) `{!forall s, Decision (P s)}
    (g : FolderState -> FolderState) j l i st :
  (forall s, P (g s) <-> P s) ->
  list_find P l = Some (i, st) ->
  list_find P (alter g j l)
  = Some (i, if decide (j = i) then g st else st).
Proof.
  intros Hg (Hi & HP & Hlt)%list_find_Some. apply list_find_Some.
  split; [|split].
  - rewrite list_lookup_alter. case_decide; [subst; by rewrite Hi|done].
  - case_decide; [by apply Hg|done].
  - intros k y Hk Hki. rewrite list_lookup_alter in Hk.
    case_decide; [subst|by eapply Hlt].
    destruct (l !! k) as [y0|] eqn:E; simplify_eq/=.
    rewrite Hg. by eapply Hlt.
Qed.

Lemma owns_on_state id i v j g w :
  benign g -> owns id i v w -> owns id i v (on_state j g w).
Proof.
  intros Hg (Hact & st & Hfind & Hp & Hb & Hv). split; [done|].
  unfold on_state, states. simpl.
  erewrite find_alter; [|intros s; by destruct (Hg s) as [-> _]|exact Hfind].
  eexists. split; [done|].
  destruct (Hg st) as (? & ? & ? & ?).
  case_decide; [|done]. repeat split; auto. congruence.
Qed.

Lemma benign_set_error e : benign (set_error e).
Proof. by intros s. Qed.
Lemma benign_set_manifest m : benign (set_manifest m).
Proof. by intros s. Qed.
Lemma benign_set_slot p : benign (set_manifestFetchPromise p).
Proof. by intros s. Qed.
Lemma benign_clear t : benign (clear_error_of t).
Proof. intros s. unfold clear_error_of. by destruct (has_error_type t s). Qed.
Lemma benign_set_projectId pid :
  truthy_opt pid = true -> benign (set_projectId pid).
Proof. by intros Hp s. Qed.
Lemma benign_set_gitBranch b : truthy b = true -> benign (set_gitBranch (Some b)).
Proof. by intros Hb s. Qed.

Lemma owns_fetch_fails id i v fetch f msg w :
  owns id i v w -> owns id i v (fetch_fails fetch f msg w).
Proof.
  intros Ho. unfold fetch_fails.
  change (owns id i v (on_state (f_state f) (set_manifestFetchPromise None)
            (on_state (f_state f)
               (set_error (Some (manifest_error msg (f_branch f)))) w))).
  apply owns_on_state; [apply benign_set_slot|].
  apply owns_on_state; [apply benign_set_error|done].
Qed.

Lemma owns_upload_fails id i v t u msg w :
  owns id i v w -> owns id i v (upload_fails t u msg w).
Proof.
  intros Ho. unfold upload_fails, finish_upload.
  change (owns id i v (on_state (u_state u)
                         (set_error (Some (upsert_error msg u))) w)).
  apply owns_on_state; [apply benign_set_error|done].
Qed.

Lemma owns_getManifest id i v j st b w :
  truthy b = true -> owns id i v w -> owns id i v (getManifest j st b w).2.
Proof.
  intros Hb Ho. unfold getManifest.
  destruct (match manifestFetchPromise st with
            | Some p => if on_branch st b then Some p else None
            | None => None end); [done|].
  destruct (match manifest st with
            | Some m => if on_branch st b then Some m else None
            | None => None end); [done|].
  simpl.
  change (owns id i v (on_state j (set_manifestFetchPromise
                                     (Some (List.length (fetches w))))
                         (on_state j (set_gitBranch (Some b)) w))).
  apply owns_on_state; [apply benign_set_slot|].
  apply owns_on_state; [by apply benign_set_gitBranch|done].
Qed.

Lemma owns_continuation id i v w a :
  (forall e, a <> Deliver e) -> owns id i v w -> owns id i v (step w a).
Proof.
  intros Hnd Ho. destruct a as [e|fetch r|fetch r|h|t|t r|t r]; simpl.
  - by destruct (Hnd e).
  - unfold config_settles. destruct (fetches w !! fetch) as [f|]; [|done].
    destruct (f_stage f); try done.
    destruct r as [pid|e]; [|by apply owns_fetch_fails].
    destruct (negb (truthy_opt pid)) eqn:Hpid; [by apply owns_fetch_fails|].
    apply negb_false_iff in Hpid.
    assert (owns id i v (on_state (f_state f) (set_projectId pid) w)) as Ho'
      by (apply owns_on_state; [by apply benign_set_projectId|done]).
    change (config (indexer (on_state (f_state f) (set_projectId pid) w)))
      with (config (indexer w)).
    destruct (config (indexer w)) as [[[tok|] [org|]]|];
      try (by apply owns_fetch_fails).
    destruct (truthy tok && truthy org); [done|by apply owns_fetch_fails].
  - unfold manifest_settles. destruct (fetches w !! fetch) as [f|]; [|done].
    destruct (f_stage f); try done.
    destruct r as [m|e]; [|by apply owns_fetch_fails].
    change (owns id i v
      (on_state (f_state f) (set_manifestFetchPromise None)
         (on_state (f_state f) (clear_error_of E_manifest)
            (on_state (f_state f) (set_manifest (Some m)) w)))).
    apply owns_on_state; [apply benign_set_slot|].
    apply owns_on_state; [apply benign_clear|].
    apply owns_on_state; [apply benign_set_manifest|done].
  - unfold resume. destruct (handlers w !! h) as [[p|j p0 h0 b ib wr p|]|]; try done.
    + by destruct (settled p w).
    + destruct (settled p w) as [[m|e]|]; try done.
      by destruct (already_indexed m p0 h0).
  - unfold start_upload. destruct (uploads w !! t) as [u|]; [|done].
    destruct (is_queued u && may_start t w); [|done].
    destruct (states w !! u_state u) as [st|]; [|done].
    by destruct (_ && truthy_opt (projectId st)).
  - unfold read_settles. destruct (uploads w !! t) as [u|]; [|done].
    destruct (u_stage u); try done.
    destruct r as [buf|e]; [|by apply owns_upload_fails].
    destruct (config (indexer w)); [done|by apply owns_upload_fails].
  - unfold upsert_settles. destruct (uploads w !! t) as [u|]; [|done].
    destruct (u_stage u); try done.
    destruct r as [[]|e]; [|by apply owns_upload_fails].
    change (owns id i v (on_state (u_state u) (clear_error_of E_file_upsert) w)).
    apply owns_on_state; [apply benign_clear|done].
Qed.

Lemma owns_delivery id i v w e :
  ref_id (ev_watcher e) = id -> names_its_branch e = true ->
  owns id i v w -> owns id i (scanning v [e]) (onEvent e w).
Proof.
  intros Hid Hnb Ho. pose proof Ho as (Hact & st & Hfind & Hp & Hb & Hv).
  unfold onEvent. rewrite Hact, Hid. simpl. rewrite Hfind.
  pose proof Hfind as (_ & Hw & _)%list_find_Some.
  rewrite bool_decide_true by (rewrite Hw; eauto).
  rewrite Hp, Hb. simpl.
  destruct e as [b ib wr|b ib wr|q h b ib wr|q b ib wr|pb nb b ib wr]; simpl in *.
  - split; [done|]. unfold on_state, states. simpl.
    erewrite find_alter; [|done|].
    2:{ unfold with_states, states. simpl.
        erewrite find_alter; [|done|exact Hfind]. done. }
    rewrite !decide_True by done. by eexists.
  - split; [done|]. unfold on_state, states. simpl.
    erewrite find_alter; [|done|exact Hfind].
    rewrite decide_True by done. by eexists.
  - destruct (negb (supported q)); [done|].
    pose proof (owns_getManifest id i v i st b w Hnb Ho) as Hg.
    by destruct (getManifest i st b w).
  - done.
  - pose proof (owns_getManifest id i v i st nb w Hnb Ho) as Hg.
    by destruct (getManifest i st nb w).
Qed.

Lemma scanning_cons v e l : scanning v (e :: l) = scanning (scanning v [e]) l.
Proof. done. Qed.

Lemma owns_run id i l : forall v w,
  Forall (fun e => ref_id (ev_watcher e) = id /\ names_its_branch e = true)
         (deliveries l) ->
  owns id i v w -> owns id i (scanning v (deliveries l)) (run w l).
Proof.
  induction l as [|a l IH]; intros v w Hall Ho; [done|].
  destruct a as [e|fetch r|fetch r|h|t|t r|t r];
    try (apply IH; [exact Hall|by apply owns_continuation]).
  change (deliveries (Deliver e :: l)) with (e :: deliveries l) in *.
  apply Forall_cons in Hall as [[Hid Hnb] Hall].
  rewrite scanning_cons. apply IH; [done|]. by apply owns_delivery.
Qed.

(** X11. For an initialised root of an active orchestrator, after any
    interleaving in which the events delivered are those of its watcher
    and none of them names an empty branch, [isIndexing] is true exactly
    when the last bracket event delivered was [ScanStart], and unchanged
    when there was none: no manifest answer, failure or upload step
    touches the flag.  (An event of the watcher with an empty branch
    makes [getManifest] store the empty branch, after which the guard of
    [onEvent] drops every event of the root, brackets included.) *)
Theorem indexing_flag_follows_scan_brackets
    (w : World) (l : list Action) (id i : nat) (st : FolderState) :
  isActive (indexer w) = true ->
  list_find (fun s => watcher s = Some id) (states w) = Some (i, st) ->
  truthy_opt (projectId st) = true ->
  truthy_opt (gitBranch st) = true ->
  Forall (fun e => ref_id (ev_watcher e) = id /\ names_its_branch e = true)
         (deliveries l) ->
  exists st', states (run w l) !! i = Some st' /\
              isIndexing st' = scanning (isIndexing st) (deliveries l).
Proof.
  intros Hact Hfind Hp Hb Hall.
  destruct (owns_run id i l (isIndexing st) w Hall) as (_ & st' & Hf & _ & _ & Hv).
  { split; [done|]. by eexists. }
  apply list_find_Some in Hf as (Hi & _). by eexists.
Qed.

(** X12. Delivering an event leaves the state of every folder that does
    not carry the event's watcher exactly as it was. *)
Theorem event_touches_only_its_root
    (w : World) (event : GitWatcherEvent) (j : nat) (st : FolderState) :
  states w !! j = Some st ->
  watcher st <> Some (ref_id (ev_watcher event)) ->
  states (onEvent event w) !! j = Some st.
Proof.
  intros Hj Hother. unfold onEvent.
  destruct (isActive (indexer w)); [|done]. simpl.
  destruct (list_find _ (states w)) as [[i state]|] eqn:Hfind; [|done].
  apply list_find_Some in Hfind as (Hi & Hw & _).
  assert (i <> j) as Hne by (intros ->; congruence).
  destruct (bool_decide (is_Some (watcher state))); [|done]. simpl.
  destruct (negb (truthy_opt (projectId state))
            || negb (truthy_opt (gitBranch state))); [done|].
  destruct event as [b ib wr|b ib wr|p h b ib wr|p b ib wr|pb nb b ib wr].
  - by rewrite !on_state_other.
  - by rewrite on_state_other.
  - destruct (negb (supported p)); [done|].
    pose proof (getManifest_other i j state b w Hne) as E.
    destruct (getManifest i state b w) as [q w1]. simpl in *.
    change (states (suspend _ w1)) with (states w1). congruence.
  - done.
  - pose proof (getManifest_other i j state nb w Hne) as E.
    destruct (getManifest i state nb w) as [q w1]. simpl in *.
    change (states (suspend _ w1)) with (states w1). congruence.
Qed.

(** X13. An event delivered while the orchestrator is inactive, or from a
    watcher no folder state carries, and any [FileDeleted] event or
    [FileChanged] event for an unsupported extension, changes nothing at
    all: no state, no fetch, no handler, no upload, no call. *)
Theorem ignored_events_change_nothing (w : World) (event : GitWatcherEvent) :
  isActive (indexer w) = false \/
  list_find (fun s => watcher s = Some (ref_id (ev_watcher event))) (states w)
  = None \/
  is_file_deleted event = true \/
  (exists p h b ib wr, event = GitWatcher.FileChanged p h b ib wr /\
                       supported p = false) ->
  onEvent event w = w.
Proof.
  unfold onEvent. intros [->|[->|[Hd|(p & h & b & ib & wr & -> & Hs)]]].
  - done.
  - by destruct (negb (isActive (indexer w))).
  - destruct (negb (isActive (indexer w))); [done|].
    destruct (list_find _ (states w)) as [[i st]|]; [|done].
    destruct (negb (bool_decide (is_Some (watcher st)))); [done|].
    destruct (negb (truthy_opt (projectId st))
              || negb (truthy_opt (gitBranch st))); [done|].
    by destruct event.
  - destruct (negb (isActive (indexer w))); [done|].
    destruct (list_find _ (states w)) as [[i st]|]; [|done].
    destruct (negb (bool_decide (is_Some (watcher st)))); [done|].
    destruct (negb (truthy_opt (projectId st))
              || negb (truthy_opt (gitBranch st))); [done|].
    by rewrite Hs.
Qed.


End Orchestration.


Lemma promise_all_rejects {A} (l1 l2 : list (Res A)) e :
  exists e', promise_all (l1 ++ Err e :: l2) = Err e'.
Proof.
  induction l1 as [|[a|e1] l1 [e' IH]]; simpl; [by eexists| |by eexists].
  rewrite IH. by eexists.
Qed.

(** X14. When [isGitRepository] rejects for one folder, [start()] rejects
    as a whole: no state of any folder is assigned, and the orchestrator
    is left active with the configuration stored. *)
Theorem repository_check_failure_aborts_startup
    (cfg : ManagedIndexerConfig) (this : Indexer)
    (before after : list (string * RootEnv)) (cwd : string) (env : RootEnv)
    (e : string) :
  truthy_opt (kilocodeOrganizationId cfg) = true ->
  truthy_opt (kilocodeToken cfg) = true ->
  r_isGitRepository env = Err e ->
  exists e',
    start cfg true (before ++ (cwd, env) :: after) this
    = (Err e', {| config := Some cfg; isActive := true;
                  workspaceFolderState := workspaceFolderState this |}).
Proof.
  intros Ho Ht He. unfold start.
  assert ((List.length (before ++ (cwd, env) :: after) =? 0)%nat = false) as ->.
  { rewrite length_app. simpl. apply Nat.eqb_neq. lia. }
  simpl. rewrite Ho, Ht. simpl. unfold build_states.
  rewrite map_app. simpl. unfold start_folder at 2. rewrite He.
  destruct (promise_all_rejects
              (map (fun f => start_folder f.1 f.2) before)
              (map (fun f => start_folder f.1 f.2) after) e) as [e' ->].
  by eexists.
Qed.

Lemma start_folder_consistent cwd env r :
  start_folder cwd env = Ok r ->
  match r with
  | Some st => consistent st /\ workspaceFolder st = cwd /\ skipped env = false
  | None => skipped env = true
  end.
Proof.
  unfold start_folder, consistent, skipped.
  destruct (r_isGitRepository env) as [[|]|]; [|by intros [= <-]|done].
  destruct (r_getGitRepositoryInfo env) as [url|], (r_getCurrentBranch env) as [b|];
    try (intros [= <-]; simpl; repeat split; try done; by intros [? [=]]).
  destruct (r_getKilocodeConfig env) as [pid|];
    [|intros [= <-]; simpl; repeat split; try done; by intros [? [=]]].
  destruct (truthy_opt pid) eqn:Hpid; simpl; [|by intros [= <-]].
  destruct (r_getServerManifest env) as [m|];
    [|intros [= <-]; simpl; repeat split; try done; by intros [? [=]]].
  destruct (r_newGitWatcher env) as [wid|];
    [destruct (r_onEvent env)|];
    intros [= <-]; simpl; repeat split; try done; by intros [? [=]].
Qed.

(** X15. Every state [start()] assigns has no fetch pending and is not
    indexing; it carries a watcher only together with a manifest, a
    manifest only with a non-empty project id, a project id only with a
    branch, and it carries a watcher whenever it carries no error.  The
    states are those of the given folders, in their order, the skipped
    ones left out: the folders that are no git repository and those whose
    configuration has no project id. *)
Theorem started_states_are_consistent
    (folders : list (string * RootEnv)) (sts : list FolderState) :
  build_states folders = Ok sts ->
  Forall consistent sts /\
  map workspaceFolder sts
  = map fst (List.filter (fun f => negb (skipped f.2)) folders).
Proof.
  revert sts. induction folders as [|[cwd env] rest IH]; intros sts.
  - by intros [= <-].
  - unfold build_states. simpl.
    destruct (start_folder cwd env) as [r|] eqn:Hr; [|done].
    destruct (promise_all (map _ rest)) as [l|] eqn:Hl; [|done].
    intros [= <-].
    destruct (IH (non_null l)) as [IH1 IH2].
    { unfold build_states. by rewrite Hl. }
    pose proof (start_folder_consistent cwd env r Hr) as Hc.
    destruct r as [st|]; simpl.
    + destruct Hc as (Hc & -> & ->). simpl.
      split; [by constructor|]. by rewrite IH2.
    + rewrite Hc. simpl. by split.
Qed.

(** X16. [start()] on an inactive orchestrator activates it exactly when
    there is a workspace folder, the feature is enabled, and both the
    organisation id and the token are non-empty. *)
Theorem start_activates_only_when_configured
    (cfg : ManagedIndexerConfig) (enabled : bool)
    (folders : list (string * RootEnv)) (this : Indexer) :
  isActive this = false ->
  (isActive (start cfg enabled folders this).2 = true <->
   folders <> [] /\ enabled = true /\
   truthy_opt (kilocodeOrganizationId cfg) = true /\
   truthy_opt (kilocodeToken cfg) = true).
Proof.
  intros Hoff. unfold start.
  destruct folders as [|f folders]; simpl.
  { rewrite Hoff. split; [done|]. by intros [? _]. }
  destruct enabled; simpl; [|rewrite Hoff; split; [done|by intros (_&?&_)]].
  destruct (truthy_opt (kilocodeOrganizationId cfg)); simpl;
    [|rewrite Hoff; split; [done|by intros (_&_&?&_)]].
  destruct (truthy_opt (kilocodeToken cfg)); simpl;
    [|rewrite Hoff; split; [done|by intros (_&_&_&?)]].
  destruct (build_states (f :: folders)); simpl; by split.
Qed.

(** A world whose slots are all empty satisfies the slot invariant. *)
Lemma empty_slots_name_pending_fetches (w : World) :
  Forall (fun st => manifestFetchPromise st = None) (states w) ->
  slots_name_pending_fetches w.
Proof.
  intros Hall i st p Hst Hp.
  rewrite Forall_lookup in Hall. specialize (Hall i st Hst). congruence.
Qed.

(** After a switch to [feature/a], a second request for [feature/a] is
    handed fetch 0, which is pending for root 0 and [feature/a]. *)
Lemma answered_fetch_serves_requested_branch_witness :
  exists f,
    fetches (getManifest 0 (folder_state on_feature_a 0) "feature/a"
               on_feature_a).2 !! 0 = Some f /\
    f_state f = 0 /\ f_branch f = "feature/a" /\ in_flight f = true.
Proof.
  apply (answered_fetch_serves_requested_branch (boot started)
           [Deliver (branch_changed "main" "feature/a")] 0
           (folder_state on_feature_a 0) "feature/a" 0).
  - apply empty_slots_name_pending_fetches. repeat constructor.
  - reflexivity.
  - reflexivity.
Defined.

Lemma uploads_stay_within_the_limit_witness :
  running (run (boot started)
             (two_events_one_branch ++ [Resume 0; Resume 1; StartUpload 0]))
  <= MANAGED_MAX_CONCURRENT_FILES.
Proof.
  apply (uploads_stay_within_the_limit (boot started)
           (two_events_one_branch ++ [Resume 0; Resume 1; StartUpload 0])).
  vm_compute. lia.
Defined.

(** A scan of [main] that has started and reported one file. *)
Lemma indexing_flag_follows_scan_brackets_witness :
  exists st',
    states (run (boot started) scan_under_way) !! 0 = Some st' /\
    isIndexing st' = true.
Proof.
  exact (indexing_flag_follows_scan_brackets (boot started) scan_under_way 7 0
           (folder_state (boot started) 0) eq_refl eq_refl eq_refl eq_refl
           ltac:(repeat constructor)).
Defined.

(** A branch change of the first root leaves the second root alone. *)
Lemma event_touches_only_its_root_witness :
  states (onEvent (branch_changed "main" "feature/a") (boot two_roots)) !! 1
  = Some (folder_state (boot two_roots) 1).
Proof.
  apply (event_touches_only_its_root (boot two_roots)
           (branch_changed "main" "feature/a") 1
           (folder_state (boot two_roots) 1)).
  - reflexivity.
  - discriminate.
Defined.

(** An image is not among the scanner's extensions. *)
Lemma ignored_events_change_nothing_witness :
  onEvent (file_changed "logo.png" "abc123" "main") (boot started)
  = boot started.
Proof.
  apply (ignored_events_change_nothing (boot started)
           (file_changed "logo.png" "abc123" "main")).
  right. right. right.
  exists "logo.png", "abc123", "main", false, me. split; reflexivity.
Defined.

Lemma repository_check_failure_aborts_startup_witness :
  exists e',
    start test_config true
      ([("/test/repo", healthy 7)] ++ ("/test/broken", unreadable) :: []) stopped
    = (Err e', {| config := Some test_config; isActive := true;
                  workspaceFolderState := [] |}).
Proof.
  apply (repository_check_failure_aborts_startup test_config stopped
           [("/test/repo", healthy 7)] [] "/test/broken" unreadable
           "EACCES"); reflexivity.
Defined.

(** Five folders: one is no repository and one has no project id. *)
Lemma started_states_are_consistent_witness :
  Forall consistent (workspaceFolderState five_roots) /\
  map workspaceFolder (workspaceFolderState five_roots)
  = ["/test/repo"; "/test/other"; "/test/third"].
Proof.
  apply (started_states_are_consistent
           [("/test/repo", healthy 7); ("/test/plain", not_a_repository);
            ("/test/other", manifest_down); ("/test/bare", no_project);
            ("/test/third", git_down)]
           (workspaceFolderState five_roots)).
  reflexivity.
Defined.

Lemma start_activates_only_when_configured_witness :
  isActive (start test_config false [("/test/repo", healthy 7)] stopped).2 = true
  <-> [("/test/repo", healthy 7)] <> [] /\ false = true /\
      truthy_opt (kilocodeOrganizationId test_config) = true /\
      truthy_opt (kilocodeToken test_config) = true.
Proof.
  apply (start_activates_only_when_configured test_config false
           [("/test/repo", healthy 7)] stopped).
  reflexivity.
Defined.

(** Why the events of X11 must name their branch: after an event with an
    empty branch the root answers no bracket any more. *)
Example empty_branch_blocks_brackets :
  let w := run (boot started)
             [ Deliver (branch_changed "main" EmptyString);
               Deliver (GitWatcher.ScanStart "main" true me) ] in
  (gitBranch <$> states w !! 0) = Some (Some EmptyString) /\
  (isIndexing <$> states w !! 0) = Some false.
Proof. split; reflexivity. Qed.

End IndexerMoreFacts.

(** ** Facts about the watcher's life cycle *)

Module LifecycleFacts.
Import Js Node GitWatcher Lifecycle Examples RulesExamples LifeExamples
  GitWatcherFacts WatcherMoreFacts.

Section Facts.
Context `{Path}.

Lemma watch_run env guard d tag w :
  (watch env guard d tag w).1
  = {| object := object w;
       disposables := disposables w ++ installed env guard d;
       listeners := listeners w |}.
Proof.
  unfold watch, installed. destruct guard; simpl.
  - destruct (aWatch env d); simpl; [done|]. rewrite app_nil_r. by destruct w.
  - rewrite app_nil_r. by destruct w.
Qed.

(** X17. When the path of HEAD is found, [setupGitWatchers] keeps a handle
    for HEAD exactly when [fs.watch] opens it, and for [refs/heads] and
    [packed-refs] exactly when they exist and [fs.watch] opens them:
    whether one of them is watched does not depend on the two others.
    It touches nothing else of the object. *)
Theorem watchers_are_set_up_independently
    (env : StartEnv) (w : Live) (gitHeadPath : string) :
  aGitHeadPath env = Ok gitHeadPath ->
  (setupGitWatchers env w).1
  = {| object := object w;
       disposables :=
         disposables w
         ++ handles env (absolute_head (cwd (config (object w))) gitHeadPath);
       listeners := listeners w |}.
Proof.
  intros Hp. unfold setupGitWatchers. rewrite Hp.
  fold (absolute_head (cwd (config (object w))) gitHeadPath).
  set (head := absolute_head _ _).
  pose proof (watch_run env true {| target := head; recursive := false |}
                "[GitWatcher] Could not watch HEAD:" w) as H1.
  destruct (watch env true _ _ w) as [w1 n1]. simpl in H1. subst w1.
  match goal with
  | |- context [watch env ?g ?d ?t ?w] =>
      pose proof (watch_run env g d t w) as H2;
      destruct (watch env g d t w) as [w2 n2]
  end.
  simpl in H2. subst w2.
  match goal with
  | |- context [watch env ?g ?d ?t ?w] =>
      pose proof (watch_run env g d t w) as H3;
      destruct (watch env g d t w) as [w3 n3]
  end.
  simpl in H3. subst w3. simpl. unfold handles. by rewrite <- !app_assoc.
Qed.

Lemma installed_length env guard d : List.length (installed env guard d) <= 1.
Proof. unfold installed. destruct (_ && _); simpl; lia. Qed.

Lemma setupGitWatchers_frame env w :
  exists opened,
    (setupGitWatchers env w).1
    = {| object := object w; disposables := disposables w ++ opened;
         listeners := listeners w |} /\
    List.length opened <= 3.
Proof.
  unfold setupGitWatchers.
  destruct (aGitHeadPath env) as [p|e].
  - repeat match goal with
           | |- context [watch env ?g ?d ?t ?w] =>
               let E := fresh "E" in
               pose proof (watch_run env g d t w) as E;
               destruct (watch env g d t w) as [? ?]; simpl in E; subst
           end.
    simpl. eexists. split; [by rewrite <- !app_assoc|].
    rewrite !length_app.
    repeat match goal with
           | |- context [installed env ?g ?d] =>
               pose proof (installed_length env g d);
               generalize dependent (installed env g d); intros
           end.
    lia.
  - exists []. simpl. rewrite app_nil_r. split; [by destruct w|lia].
Qed.

Lemma start_disposables env w :
  exists opened,
    disposables (start env w).1 = (disposables w ++ opened)%list /\
    listeners (start env w).1 = listeners w /\
    List.length opened <= 3.
Proof.
  unfold start.
  destruct (initial_snapshot env) as [[snapshot|]|].
  - destruct (setupGitWatchers_frame env
                (with_object (set_currentState (Some snapshot)) w))
      as (opened & -> & Hlen).
    by exists opened.
  - destruct (setupGitWatchers_frame env w) as (opened & -> & Hlen).
    by exists opened.
  - exists []. rewrite app_nil_r. simpl. split; [done|]. split; [done|lia].
Qed.

(** X18. Whatever [start()] finds, it opens at most three file watchers and
    registers or removes no listener; [dispose()] after it closes every
    handle that is open, those opened by [start()] among them, each once,
    and leaves no handle and no listener. *)
Theorem dispose_closes_what_start_opened (env : StartEnv) (w : Live) :
  exists opened,
    disposables (start env w).1 = (disposables w ++ opened)%list /\
    List.length opened <= 3 /\
    listeners (start env w).1 = listeners w /\
    closed (dispose (start env w).1).2 = (disposables w ++ opened)%list /\
    disposables (dispose (start env w).1).1 = [] /\
    listeners (dispose (start env w).1).1 = [].
Proof.
  destruct (start_disposables env w) as (opened & Hd & Hl & Hlen).
  exists opened. split; [done|]. split; [done|]. split; [done|].
  split; [|done].
  unfold dispose. simpl. rewrite Hd. clear.
  induction (disposables w ++ opened)%list as [|d l IH]; simpl; [done|].
  by rewrite IH.
Qed.

Lemma setupGitWatchers_object env w :
  object (setupGitWatchers env w).1 = object w.
Proof. by destruct (setupGitWatchers_frame env w) as (opened & -> & _). Qed.

(** X19. [start()] opens a file watcher only when its first look at the
    repository succeeded and the path of HEAD was found, and then it has
    logged no error.  So when [isDetachedHead], or on an attached HEAD
    the branch or the commit, cannot be read, [start()] returns normally
    but no later change of the repository reaches [handleGitChange]. *)
Theorem start_opens_watchers_only_on_success
    (env : StartEnv) (w : Live) :
  disposables (start env w).1 <> disposables w ->
  is_ok (initial_snapshot env) = true /\
  is_ok (aGitHeadPath env) = true /\
  errors (start env w).2 = [].
Proof.
  unfold start.
  assert (forall w0, disposables w0 = disposables w ->
            disposables (setupGitWatchers env w0).1 <> disposables w ->
            is_ok (aGitHeadPath env) = true /\
            errors (setupGitWatchers env w0).2 = []) as Hsetup.
  { intros w0 Hw0. unfold setupGitWatchers.
    destruct (aGitHeadPath env) as [p|e]; [|simpl; rewrite Hw0; by intros []].
    intros _. split; [done|]. unfold watch.
    repeat match goal with
           | |- context [aWatch env ?d] => destruct (aWatch env d)
           | |- context [aExists env ?p] => destruct (aExists env p)
           end; done. }
  destruct (initial_snapshot env) as [[snapshot|]|]; simpl.
  - intros Hd.
    by destruct (Hsetup (with_object (set_currentState (Some snapshot)) w)
                   eq_refl Hd).
  - intros Hd. by destruct (Hsetup w eq_refl Hd).
  - done.
Qed.

(** X20. After a [start()] that found HEAD attached, a change notification
    that finds the same branch and commit emits nothing, runs no git
    command and leaves the object as [start()] left it. *)
Theorem notification_without_change_is_silent
    (env : StartEnv) (cycle : CycleEnv) (w : Live) (s : GitStateSnapshot) :
  isProcessing (object w) = false ->
  initial_snapshot env = Ok (Some s) ->
  cDetached cycle = Ok false ->
  cBranch cycle = Ok (branch s) ->
  cCommit cycle = Ok (commit s) ->
  handleGitChange cycle (object (start env w).1)
  = (Ok tt, set_currentState (Some s) (object w), []).
Proof.
  intros Hp Hs Hd Hb Hc. unfold start. rewrite Hs.
  rewrite setupGitWatchers_object. simpl.
  apply idle_cycle_changes_nothing. right.
  split; [by destruct (object w)|]. split; [done|].
  exists s. by destruct (object w).
Qed.

End Facts.

(** HEAD and the loose refs are watched; [packed-refs] does not exist. *)
Lemma watchers_are_set_up_independently_witness :
  (setupGitWatchers repository constructed).1
  = {| object := fresh_watcher;
       disposables := [head_watcher; refs_watcher];
       listeners := [0] |}.
Proof.
  rewrite (watchers_are_set_up_independently repository constructed ".git/HEAD"
             eq_refl).
  reflexivity.
Defined.

Lemma start_opens_watchers_only_on_success_witness :
  is_ok (initial_snapshot repository) = true /\
  is_ok (aGitHeadPath repository) = true /\
  errors (start repository constructed).2 = [].
Proof.
  apply (start_opens_watchers_only_on_success repository constructed).
  discriminate.
Defined.

Lemma notification_without_change_is_silent_witness :
  handleGitChange nothing_new (object (start repository constructed).1)
  = (Ok tt,
     set_currentState
       (Some {| branch := "main"; commit := "abc123"; isDetached := false |})
       fresh_watcher, []).
Proof.
  apply (notification_without_change_is_silent repository nothing_new
           constructed
           {| branch := "main"; commit := "abc123"; isDetached := false |});
    reflexivity.
Defined.

End LifecycleFacts.

(** ** Facts about the directory chain *)

Module FindUpFacts.
Import Js Node FindUp ChainObs RulesExamples.

Section Facts.
Context `{Path}.

Lemma climb_head fuel stop current dirs :
  climb fuel stop current = Some dirs -> head dirs = Some current.
Proof.
  destruct fuel as [|fuel]; [done|]. simpl.
  destruct (_ && _); [by intros [= <-]|].
  case_bool_decide; [by intros [= <-]|].
  destruct (climb fuel stop (dirname current)); [|done]. by intros [= <-].
Qed.

(** X21. The chain starts at the resolved start directory; each next entry
    is the parent of the previous one and differs from it, and no entry
    but the last is the stop directory; the last entry is the stop
    directory or a directory that is its own parent. *)
Theorem chain_walks_upward
    (fuel : nat) (startDir : string) (stopDir : option string)
    (directories : list string) :
  findUpDirectoryChain fuel startDir stopDir = Some directories ->
  head directories = Some (resolve [startDir]) /\
  (forall i p q, directories !! i = Some p -> directories !! S i = Some q ->
                 q = dirname p /\ q <> p /\ at_stop (stop_of stopDir) p = false) /\
  (exists top, last directories = Some top /\
               (at_stop (stop_of stopDir) top = true \/ dirname top = top)).
Proof.
  unfold findUpDirectoryChain. fold (stop_of stopDir).
  generalize (stop_of stopDir) as stop. generalize (resolve [startDir]) as current.
  intros current stop. rename directories into dirs.
  revert current dirs. induction fuel as [|fuel IH]; intros current dirs; [done|].
  simpl. fold (at_stop stop current).
  destruct (at_stop stop current) eqn:Hstop.
  { intros [= <-]. split; [done|]. split; [by intros [|i] ?? [= <-]|].
    exists current. split; [done|]. by left. }
  case_bool_decide as Hroot.
  { intros [= <-]. split; [done|]. split; [by intros [|i] ?? [= <-]|].
    exists current. split; [done|]. by right. }
  destruct (climb fuel stop (dirname current)) as [rest|] eqn:Hrest; [|done].
  simpl. intros [= <-].
  destruct (IH _ _ Hrest) as (Hhead & Hsteps & top & Hlast & Htop).
  split; [done|]. split.
  - intros [|i] p q; simpl.
    + intros [= <-] Hq. destruct rest as [|r rest]; [done|].
      simpl in *. by simplify_eq.
    + apply Hsteps.
  - exists top. split; [|done]. destruct rest; [done|]. by rewrite last_cons, Hlast.
Qed.

Lemma climb_found n : forall fuel stop current,
  dirname (ancestor n current) = ancestor n current ->
  n < fuel ->
  exists dirs, climb fuel stop current = Some dirs /\ List.length dirs <= S n.
Proof.
  induction n as [|n IH]; intros [|fuel] stop current Hfix Hlt; try lia.
  - simpl in *. destruct (_ && _); [exists [current]; simpl; split; [done|lia]|].
    rewrite bool_decide_true by done. exists [current]. simpl. split; [done|lia].
  - simpl. destruct (_ && _); [exists [current]; simpl; split; [done|lia]|].
    case_bool_decide; [exists [current]; simpl; split; [done|lia]|].
    destruct (IH fuel stop (dirname current)) as (dirs & -> & Hlen); [|lia|].
    + unfold ancestor in *. by rewrite <- Nat.iter_succ_r.
    + exists (current :: dirs). simpl. split; [done|lia].
Qed.

Lemma climb_more_fuel fuel : forall fuel' stop current dirs,
  climb fuel stop current = Some dirs -> fuel <= fuel' ->
  climb fuel' stop current = Some dirs.
Proof.
  induction fuel as [|fuel IH]; intros [|fuel'] stop current dirs; try done; try lia.
  simpl. destruct (_ && _); [done|]. case_bool_decide; [done|].
  destruct (climb fuel stop (dirname current)) as [rest|] eqn:Hrest; [|done].
  intros Heq Hle. rewrite (IH fuel' stop _ rest Hrest) by lia. done.
Qed.

(** X22. When the [n]-th ancestor of the resolved start directory is its own
    parent, the walk ends within [n + 1] iterations: it returns a chain
    of at most [n + 1] directories, the same for every larger bound. *)
Theorem chain_is_found
    (n fuel : nat) (startDir : string) (stopDir : option string) :
  dirname (ancestor n (resolve [startDir])) = ancestor n (resolve [startDir]) ->
  n < fuel ->
  exists directories,
    findUpDirectoryChain fuel startDir stopDir = Some directories /\
    List.length directories <= S n /\
    forall fuel', fuel <= fuel' ->
      findUpDirectoryChain fuel' startDir stopDir = Some directories.
Proof.
  intros Hfix Hlt. unfold findUpDirectoryChain.
  destruct (climb_found n fuel (stop_of stopDir) (resolve [startDir]) Hfix Hlt)
    as (dirs & Hd & Hlen).
  exists dirs. split; [done|]. split; [done|].
  intros fuel' Hle. by apply (climb_more_fuel fuel).
Qed.

End Facts.

Lemma chain_walks_upward_witness :
  head ["/repo/services/api"; "/repo/services"; "/repo"]
  = Some (resolve ["/repo/services/api"]) /\
  (forall i p q,
     ["/repo/services/api"; "/repo/services"; "/repo"] !! i = Some p ->
     ["/repo/services/api"; "/repo/services"; "/repo"] !! S i = Some q ->
     q = dirname p /\ q <> p /\ at_stop (stop_of (Some "/repo")) p = false) /\
  (exists top,
     last ["/repo/services/api"; "/repo/services"; "/repo"] = Some top /\
     (at_stop (stop_of (Some "/repo")) top = true \/ dirname top = top)).
Proof.
  apply (chain_walks_upward 10 "/repo/services/api" (Some "/repo")).
  reflexivity.
Defined.

Lemma chain_is_found_witness :
  exists directories,
    findUpDirectoryChain 5 "/repo/services" None = Some directories /\
    List.length directories <= 3 /\
    forall fuel', 5 <= fuel' ->
      findUpDirectoryChain fuel' "/repo/services" None = Some directories.
Proof.
  apply (chain_is_found 2 5 "/repo/services" None); [reflexivity|lia].
Defined.

Example chain_without_stop_reaches_the_root :
  findUpDirectoryChain 5 "/repo/services" None
  = Some ["/repo/services"; "/repo"; "/"].
Proof. reflexivity. Qed.

End FindUpFacts.

(** ** Facts about the agent-rules output *)

Module AgentRulesFacts.
Import Js JsFacts Node AgentRules RulesObs RulesExamples.

Lemma len_app a b : len (a ++ b) = (len a + len b)%Z.
Proof.
  unfold len. induction a as [|c a IH]; [by rewrite append_nil_l|].
  rewrite append_cons. simpl String.length. lia.
Qed.

Lemma len_nonneg s : (0 <= len s)%Z.
Proof. unfold len. lia. Qed.

Lemma length_substring0 n s :
  String.length (substring 0 n s) = Nat.min n (String.length s).
Proof.
  revert n. induction s as [|c s IH]; intros [|n]; simpl; try done.
  by rewrite IH.
Qed.

Lemma substring0_prefix n s : String.prefix (substring 0 n s) s = true.
Proof.
  revert n. induction s as [|c s IH]; intros [|n]; simpl; try done.
  rewrite IH. by destruct (ascii_dec c c).
Qed.

Lemma substring0_all n s : String.length s <= n -> substring 0 n s = s.
Proof.
  revert n. induction s as [|c s IH]; intros [|n] Hn; simpl in *; try done; try lia.
  f_equal. apply IH. lia.
Qed.

Lemma len_slice_to s e :
  (0 <= e)%Z -> len (slice_to s e) = Z.min e (len s).
Proof.
  intros He. unfold slice_to.
  destruct (e <? 0)%Z eqn:E; [lia|].
  unfold len at 1. rewrite length_substring0. unfold len. lia.
Qed.

Lemma len_truncate content maxLength :
  (0 <= maxLength)%Z ->
  len (truncateAgentRulesContent content maxLength)
  = Z.min (len content) maxLength.
Proof.
  intros Hm. unfold truncateAgentRulesContent.
  pose proof (len_nonneg content) as Hc.
  destruct (len content <=? maxLength)%Z eqn:E1; [lia|].
  apply Z.leb_gt in E1.
  destruct (maxLength <=? len truncationNote)%Z eqn:E2.
  - rewrite len_slice_to by done. lia.
  - apply Z.leb_gt in E2. rewrite len_app, len_slice_to by lia. pose proof (len_nonneg truncationNote). lia.
Qed.

(** X23. For a budget that is not negative, the result is as long as the
    content or as the budget, whichever is smaller; it is the content
    itself exactly when the content fits; and when the budget exceeds the
    length of the note and the content does not fit, it is the start of
    the content followed by the note. *)
Theorem truncated_content_fits (content : string) (maxLength : Z) :
  (0 <= maxLength)%Z ->
  len (truncateAgentRulesContent content maxLength)
  = Z.min (len content) maxLength /\
  (truncateAgentRulesContent content maxLength = content <->
   (len content <= maxLength)%Z) /\
  ((len truncationNote < maxLength < len content)%Z ->
   truncateAgentRulesContent content maxLength
   = substring 0 (Z.to_nat (maxLength - len truncationNote)) content
     ++ truncationNote).
Proof.
  intros Hm. split; [by apply len_truncate|]. split.
  - split.
    + intros E. pose proof (len_truncate content maxLength Hm) as Hl.
      rewrite E in Hl. lia.
    + intros Hle. unfold truncateAgentRulesContent.
      by apply Z.leb_le in Hle as ->.
  - intros [H1 H2]. unfold truncateAgentRulesContent.
    apply Z.leb_gt in H2 as E1. rewrite E1.
    apply Z.leb_gt in H1 as E2. rewrite E2.
    unfold slice_to.
    assert ((maxLength - len truncationNote <? 0)%Z = false) as ->
      by (apply Z.ltb_ge; lia).
    pose proof (len_nonneg truncationNote).
    by rewrite Z.min_l by lia.
Qed.


(** *** Sorting *)

Lemma insert_by_perm {A} (cmp : A -> A -> Z) x l : insert_by cmp x l ≡ₚ x :: l.
Proof.
  induction l as [|y l IH]; simpl; [done|].
  destruct (cmp x y <=? 0)%Z; [done|]. rewrite IH. apply Permutation_swap.
Qed.

Lemma sort_by_perm {A} (cmp : A -> A -> Z) l : sort_by cmp l ≡ₚ l.
Proof.
  induction l as [|x l IH]; simpl; [done|].
  rewrite insert_by_perm. by rewrite IH.
Qed.

Lemma total_app l1 l2 : total (l1 ++ l2) = (total l1 + total l2)%Z.
Proof. induction l1 as [|p l1 IH]; simpl; [done|]. rewrite IH. lia. Qed.

Lemma total_perm l1 l2 : l1 ≡ₚ l2 -> total l1 = total l2.
Proof. induction 1; simpl; lia. Qed.

Lemma total_nonneg l : (0 <= total l)%Z.
Proof. induction l as [|p l IH]; simpl; [done|]. pose proof (len_nonneg p). lia. Qed.

Lemma len_join sep l :
  len (join sep l)
  = (total l + len sep * Z.max 0 (Z.of_nat (List.length l) - 1))%Z.
Proof.
  induction l as [|p [|q l] IH]; [unfold len; simpl; lia| |].
  - simpl. lia.
  - change (join sep (p :: q :: l)) with (p ++ sep ++ join sep (q :: l)).
    rewrite !len_app, IH. simpl total. simpl List.length. rewrite !Z.max_r by lia. nia.
Qed.

(** *** The selection loop *)

Lemma select_rules_total rules remaining :
  (0 <= remaining)%Z ->
  (total (map render (select_rules rules remaining)) <= remaining)%Z.
Proof.
  revert remaining. induction rules as [|rule rest IH]; intros R HR; simpl; [done|].
  destruct (R <=? len (rule_header (filename rule)))%Z eqn:E; [by apply IH|].
  apply Z.leb_gt in E.
  pose proof (len_truncate (content rule)
                (R - len (rule_header (filename rule))) ltac:(lia)) as Ht.
  pose proof (len_nonneg (content rule)).
  destruct (_ <=? 0)%Z eqn:E2.
  - simpl. unfold render at 1. simpl. rewrite len_app. lia.
  - apply Z.leb_gt in E2. simpl. unfold render at 1. simpl. rewrite len_app.
    match goal with
    | |- context [select_rules rest ?r] => specialize (IH r ltac:(lia))
    end.
    lia.
Qed.

Lemma select_rules_length rules remaining :
  List.length (select_rules rules remaining) <= List.length rules.
Proof.
  revert remaining. induction rules as [|rule rest IH]; intros R; simpl; [done|].
  destruct (R <=? _)%Z; [specialize (IH R); lia|].
  destruct (_ <=? 0)%Z; simpl; [lia|].
  specialize (IH (R - (len (rule_header (filename rule)) +
     len (truncateAgentRulesContent (content rule)
            (R - len (rule_header (filename rule))))))%Z). lia.
Qed.

Lemma budget_positive : (budget <=? 0)%Z = false.
Proof. reflexivity. Qed.

Lemma len_separator : len separator = 2%Z.
Proof. reflexivity. Qed.

(** X24. The output exceeds [MAX_AGENT_RULE_CHARS] by at most the two line
    feeds between consecutive sections. *)
Theorem output_stays_near_the_limit (ruleContents : list AgentRuleContent) :
  (len (buildAgentRulesOutput ruleContents)
   <= MAX_AGENT_RULE_CHARS
      + 2 * Z.max 0 (Z.of_nat (List.length ruleContents) - 1))%Z.
Proof.
  unfold buildAgentRulesOutput.
  destruct (List.length ruleContents =? 0)%nat; [change (len EmptyString) with 0%Z; unfold MAX_AGENT_RULE_CHARS; lia|].
  fold budget. rewrite budget_positive. fold separator.
  set (prioritized := sort_by _ ruleContents).
  set (selected := select_rules prioritized budget).
  set (sorted := sort_by _ selected).
  destruct (truthy _); [|change (len EmptyString) with 0%Z; unfold MAX_AGENT_RULE_CHARS; lia].
  rewrite !len_app, len_join, len_separator, length_map.
  assert (total (map render sorted) = total (map render selected)) as ->.
  { apply total_perm. apply Permutation_map. apply sort_by_perm. }
  assert (List.length sorted = List.length selected) as ->.
  { apply Permutation_length. apply sort_by_perm. }
  pose proof (select_rules_total prioritized budget) as Ht.
  pose proof (select_rules_length prioritized budget) as Hl.
  assert (List.length prioritized = List.length ruleContents) as Hp.
  { apply Permutation_length. apply sort_by_perm. }
  fold selected in Ht, Hl.
  assert (0 <= budget)%Z as Hb by (pose proof budget_positive; lia).
  specialize (Ht Hb).
  assert (len newline = 1%Z) as -> by reflexivity.
  unfold budget in Ht. lia.
Qed.


Lemma insert_by_last {A} (cmp : A -> A -> Z) x l :
  Forall (fun y => (0 < cmp x y)%Z) l -> insert_by cmp x l = (l ++ [x])%list.
Proof.
  induction 1 as [|y l Hy _ IH]; simpl; [done|].
  destruct (cmp x y <=? 0)%Z eqn:E; [lia|]. by rewrite IH.
Qed.

Lemma sort_by_reverse {A} (key : A -> Z) (l : list A) :
  StronglySorted (fun a b => (key a < key b)%Z) l ->
  sort_by (fun a b => (key b - key a)%Z) l = reverse l.
Proof.
  induction 1 as [|a l _ IH Ha]; [done|].
  simpl. rewrite IH, reverse_cons. apply insert_by_last.
  apply Forall_reverse. eapply Forall_impl; [exact Ha|]. simpl. lia.
Qed.

Lemma sort_by_reverse_back {A} (key : A -> Z) (l : list A) :
  StronglySorted (fun a b => (key a < key b)%Z) l ->
  sort_by (fun a b => (key a - key b)%Z) (reverse l) = l.
Proof.
  induction l as [|a l IH] using rev_ind; [done|].
  intros Hs. rewrite reverse_app. simpl.
  assert (StronglySorted (fun a b => (key a < key b)%Z) l /\
          Forall (fun y => (key y < key a)%Z) l) as [Hl Ha].
  { clear IH. induction l as [|b l IH]; [split; constructor|].
    simpl in Hs. apply StronglySorted_inv in Hs as [Hs Hb].
    destruct (IH Hs) as [IH1 IH2]. apply Forall_app in Hb as [Hb1 Hb2].
    split.
    - by constructor.
    - constructor; [|done]. by inversion Hb2. }
  rewrite IH by done. apply insert_by_last.
  eapply Forall_impl; [exact Ha|]. simpl. lia.
Qed.


(** *** Sections *)

Lemma rule_header_marker f : exists rest, rule_header f = marker ++ rest.
Proof. unfold rule_header. by eexists. Qed.

Lemma select_rules_headers rules remaining :
  Forall (fun s => exists f, header s = rule_header f)
         (select_rules rules remaining).
Proof.
  revert remaining. induction rules as [|rule rest IH]; intros R; simpl; [done|].
  destruct (R <=? _)%Z; [done|].
  destruct (_ <=? 0)%Z; repeat constructor; simpl; try by eexists.
  apply IH.
Qed.

Lemma select_rules_indices rules remaining :
  Forall (fun s => exists r, r ∈ rules /\ s_orderIndex s = orderIndex r)
         (select_rules rules remaining).
Proof.
  revert remaining. induction rules as [|rule rest IH]; intros R; simpl; [done|].
  assert (forall R', Forall (fun s => exists r, r ∈ rule :: rest /\
                                s_orderIndex s = orderIndex r)
                            (select_rules rest R')) as IH'.
  { intros R'. eapply Forall_impl; [apply IH|]. simpl.
    intros s (r & Hr & E). exists r. split; [by right|done]. }
  destruct (R <=? _)%Z; [done|].
  assert (exists r, r ∈ rule :: rest /\ orderIndex rule = orderIndex r) as Hhd
    by (exists rule; split; [by left|done]).
  destruct (_ <=? 0)%Z; by repeat constructor.
Qed.

Lemma select_rules_nil rules remaining :
  select_rules rules remaining = []
  <-> Forall (fun r => (remaining <= len (rule_header (filename r)))%Z) rules.
Proof.
  induction rules as [|rule rest IH]; simpl; [done|].
  destruct (remaining <=? _)%Z eqn:E.
  - apply Z.leb_le in E. rewrite IH. split; [by constructor|].
    by intros [_ ?]%Forall_cons.
  - apply Z.leb_gt in E. split.
    + by destruct (_ <=? 0)%Z.
    + intros [? _]%Forall_cons. lia.
Qed.

Lemma select_rules_whole rules remaining :
  (total (map section_of rules) < remaining)%Z ->
  select_rules rules remaining = map selected_whole rules.
Proof.
  revert remaining. induction rules as [|rule rest IH]; intros R; simpl; [done|].
  pose proof (total_nonneg (map section_of rest)) as Hr.
  pose proof (len_nonneg (content rule)) as Hc.
  unfold section_of at 1. rewrite len_app. intros Hlt.
  destruct (R <=? _)%Z eqn:E; [apply Z.leb_le in E; lia|].
  assert (truncateAgentRulesContent (content rule)
            (R - len (rule_header (filename rule))) = content rule) as ->.
  { unfold truncateAgentRulesContent.
    assert ((len (content rule) <=? R - len (rule_header (filename rule)))%Z
            = true) as -> by (apply Z.leb_le; lia).
    done. }
  destruct (_ <=? 0)%Z eqn:E2; [apply Z.leb_le in E2; lia|].
  unfold selected_whole at 1. f_equal. apply IH. lia.
Qed.

Lemma join_cons_nonempty sep p l : exists rest, join sep (p :: l) = p ++ rest.
Proof.
  destruct l as [|q l]; simpl.
  - exists EmptyString. by rewrite append_nil_r.
  - by eexists.
Qed.

Lemma join_snoc sep l x : exists before, join sep (l ++ [x]) = before ++ x.
Proof.
  induction l as [|p l [before IH]].
  - exists EmptyString. simpl. by rewrite append_nil_l.
  - destruct l as [|q l].
    + exists (p ++ sep). simpl. by rewrite append_assoc.
    + change (join sep ((p :: q :: l) ++ [x]))
        with (p ++ sep ++ join sep ((q :: l) ++ [x])).
      rewrite IH. exists (p ++ sep ++ before). by rewrite !append_assoc.
Qed.

Lemma truthy_app_l a b : truthy a = true -> truthy (a ++ b) = true.
Proof. destruct a; [done|]. by rewrite append_cons. Qed.

Lemma truthy_app_r a b : truthy b = true -> truthy (a ++ b) = true.
Proof.
  destruct a; [by rewrite append_nil_l|]. by rewrite append_cons.
Qed.

Lemma truthy_rule_header f : truthy (rule_header f) = true.
Proof. done. Qed.

(** X25. The output is empty exactly when no header fits the budget, and else
    starts with the notice, a line feed and the first header. *)
Theorem output_is_empty_or_starts_with_notice
    (ruleContents : list AgentRuleContent) :
  (buildAgentRulesOutput ruleContents = EmptyString
   <-> Forall header_too_long ruleContents) /\
  (buildAgentRulesOutput ruleContents = EmptyString \/
   exists rest,
     buildAgentRulesOutput ruleContents
     = AGENT_RULES_PRELOADED_NOTICE ++ newline ++ marker ++ rest).
Proof.
  unfold buildAgentRulesOutput.
  destruct (decide (ruleContents = [])) as [->|Hne]; [by split; [|left]|].
  assert ((List.length ruleContents =? 0)%nat = false) as ->.
  { apply Nat.eqb_neq. by destruct ruleContents. }
  fold budget. rewrite budget_positive. fold separator.
  set (prioritized := sort_by _ ruleContents).
  assert (prioritized ≡ₚ ruleContents) as Hperm by apply sort_by_perm.
  pose proof (select_rules_nil prioritized budget) as Hnil.
  pose proof (select_rules_headers prioritized budget) as Hhd.
  destruct (select_rules prioritized budget) as [|s1 ss] eqn:Hsel.
  - simpl. split; [|by left]. split; [|done]. intros _.
    unfold header_too_long. rewrite <- Hperm. by apply Hnil.
  - set (sorted := sort_by _ (s1 :: ss)).
    assert (sorted ≡ₚ s1 :: ss) as Hs by apply sort_by_perm.
    destruct sorted as [|s0 sorted'] eqn:Hsorted.
    { by apply Permutation_nil_cons in Hs. }
    assert (exists f, header s0 = rule_header f) as [f Hf].
    { rewrite <- Hs in Hhd. by apply Forall_cons in Hhd as [? _]. }
    destruct (join_cons_nonempty separator (render s0) (map render sorted'))
      as [rest Hjoin].
    change (map render (s0 :: sorted')) with (render s0 :: map render sorted').
    rewrite Hjoin.
    destruct (rule_header_marker f) as [rest' Hm].
    assert (render s0 ++ rest = marker ++ rest' ++ s_content s0 ++ rest) as ->.
    { unfold render. rewrite Hf, Hm. by rewrite !append_assoc. }
    assert (truthy (marker ++ rest' ++ s_content s0 ++ rest) = true) as ->
      by by apply truthy_app_l.
    split.
    + split; [done|]. intros Hall. unfold header_too_long in Hall.
      rewrite <- Hperm in Hall. apply Hnil in Hall. done.
    + right. by eexists.
Qed.


Lemma map_reverse {A B} (f : A -> B) l : map f (reverse l) = reverse (map f l).
Proof. unfold reverse. rewrite <- !rev_alt. apply map_rev. Qed.

Lemma render_selected_whole rules :
  map render (map selected_whole rules) = map section_of rules.
Proof. by rewrite map_map. Qed.

Lemma ascending_selected_whole rules :
  ascending rules ->
  StronglySorted (fun a b => (s_orderIndex a < s_orderIndex b)%Z)
                 (map selected_whole rules).
Proof.
  induction 1 as [|r rules _ IH Hr]; simpl; constructor; [done|].
  by apply Forall_map.
Qed.

(** X26. When the sections of all rules together stay below the budget, the
    output is the notice followed by every section in full, in the order
    of the order indices. *)
Theorem rules_within_budget_are_all_included
    (ruleContents : list AgentRuleContent) :
  ruleContents <> [] ->
  ascending ruleContents ->
  (total (map section_of ruleContents) < budget)%Z ->
  buildAgentRulesOutput ruleContents
  = AGENT_RULES_PRELOADED_NOTICE ++ newline
    ++ join separator (map section_of ruleContents).
Proof.
  intros Hne Hasc Hfit. unfold buildAgentRulesOutput.
  assert ((List.length ruleContents =? 0)%nat = false) as ->.
  { apply Nat.eqb_neq. by destruct ruleContents. }
  fold budget. rewrite budget_positive. fold separator.
  rewrite (sort_by_reverse orderIndex) by done.
  rewrite select_rules_whole.
  2:{ rewrite (total_perm _ (map section_of ruleContents)); [done|].
      apply Permutation_map. by rewrite reverse_Permutation. }
  rewrite map_reverse.
  rewrite (sort_by_reverse_back s_orderIndex)
    by by apply ascending_selected_whole.
  rewrite render_selected_whole.
  destruct ruleContents as [|r rules]; [done|].
  destruct (join_cons_nonempty separator (section_of r) (map section_of rules))
    as [rest Hj].
  change (map section_of (r :: rules)) with (section_of r :: map section_of rules).
  rewrite Hj.
  assert (truthy (section_of r ++ rest) = true) as ->; [|done].
  apply truthy_app_l. by apply truthy_app_l.
Qed.

Lemma select_rules_cons rule rest remaining :
  select_rules (rule :: rest) remaining
  = if (remaining <=? len (rule_header (filename rule)))%Z
    then select_rules rest remaining
    else
      let selected :=
        {| header := rule_header (filename rule);
           s_content := truncateAgentRulesContent (content rule)
                          (remaining - len (rule_header (filename rule)));
           s_orderIndex := orderIndex rule |} in
      if (remaining - (len (header selected) + len (s_content selected)) <=? 0)%Z
      then [selected] else selected :: select_rules rest
             (remaining - (len (header selected) + len (s_content selected))).
Proof. done. Qed.

Lemma foldr_insert_head {A} (cmp : A -> A -> Z) r acc others :
  Forall (fun o => (0 < cmp o r)%Z) others ->
  foldr (insert_by cmp) (r :: acc) others
  = r :: foldr (insert_by cmp) acc others.
Proof.
  induction 1 as [|o others Ho _ IH]; simpl; [done|].
  rewrite IH. simpl. by destruct (cmp o r <=? 0)%Z eqn:E; [lia|].
Qed.

(** X27. The rule with the largest order index is served first: its section
    ends the output, cut only when it alone exceeds the budget. *)
Theorem deepest_rule_is_served_first
    (others : list AgentRuleContent) (rule : AgentRuleContent) :
  Forall (fun o => (orderIndex o < orderIndex rule)%Z) others ->
  (len (rule_header (filename rule)) < budget)%Z ->
  exists before,
    buildAgentRulesOutput (others ++ [rule])
    = AGENT_RULES_PRELOADED_NOTICE ++ newline ++ before
      ++ rule_header (filename rule)
      ++ truncateAgentRulesContent (content rule)
           (budget - len (rule_header (filename rule))).
Proof.
  intros Hmax Hfit. unfold buildAgentRulesOutput.
  assert ((List.length (others ++ [rule]) =? 0)%nat = false) as ->.
  { apply Nat.eqb_neq. rewrite length_app. simpl. lia. }
  fold budget. rewrite budget_positive. fold separator.
  assert (sort_by (fun a b => (orderIndex b - orderIndex a)%Z) (others ++ [rule])
          = rule :: sort_by (fun a b => (orderIndex b - orderIndex a)%Z) others)
    as ->.
  { unfold sort_by. rewrite foldr_app. simpl. apply foldr_insert_head.
    eapply Forall_impl; [exact Hmax|]. simpl. lia. }
  set (rest := sort_by _ others).
  assert (rest ≡ₚ others) as Hperm by apply sort_by_perm.
  set (first := {| header := rule_header (filename rule);
                   s_content := truncateAgentRulesContent (content rule)
                                  (budget - len (rule_header (filename rule)));
                   s_orderIndex := orderIndex rule |}).
  assert (exists tail, select_rules (rule :: rest) budget = first :: tail /\
            Forall (fun s => (s_orderIndex s < orderIndex rule)%Z) tail)
    as (tail & -> & Htail).
  { rewrite select_rules_cons.
    destruct (budget <=? _)%Z eqn:E; [apply Z.leb_le in E; lia|].
    cbv zeta. fold first.
    destruct (_ <=? 0)%Z; [by exists []|].
    eexists. split; [done|].
    eapply Forall_impl; [apply select_rules_indices|]. simpl.
    intros s (r & Hr & ->). rewrite Hperm in Hr.
    by eapply Forall_forall in Hmax. }
  assert (sort_by (fun a b => (s_orderIndex a - s_orderIndex b)%Z) (first :: tail)
          = (sort_by (fun a b => (s_orderIndex a - s_orderIndex b)%Z) tail
             ++ [first])%list) as ->.
  { simpl. apply insert_by_last. rewrite sort_by_perm.
    eapply Forall_impl; [exact Htail|]. simpl. lia. }
  rewrite map_app. simpl.
  destruct (join_snoc separator (map render (sort_by
              (fun a b => (s_orderIndex a - s_orderIndex b)%Z) tail))
              (render first)) as [before ->].
  assert (truthy (before ++ render first) = true) as ->.
  { apply truthy_app_r. by apply truthy_app_l. }
  exists before. done.
Qed.

Lemma truncated_content_fits_witness :
  len (truncateAgentRulesContent (letters 40) 30) = Z.min (len (letters 40)) 30 /\
  (truncateAgentRulesContent (letters 40) 30 = letters 40
   <-> (len (letters 40) <= 30)%Z) /\
  ((len truncationNote < 30 < len (letters 40))%Z ->
   truncateAgentRulesContent (letters 40) 30
   = substring 0 (Z.to_nat (30 - len truncationNote)) (letters 40)
     ++ truncationNote).
Proof. apply (truncated_content_fits (letters 40) 30). lia. Defined.

Lemma rules_within_budget_are_all_included_witness :
  buildAgentRulesOutput nested_rules
  = AGENT_RULES_PRELOADED_NOTICE ++ newline
    ++ join separator (map section_of nested_rules).
Proof.
  apply (rules_within_budget_are_all_included nested_rules).
  - discriminate.
  - repeat constructor.
  - reflexivity.
Defined.

Lemma deepest_rule_is_served_first_witness :
  exists before,
    buildAgentRulesOutput (take 1 long_and_short ++ drop 1 long_and_short)
    = AGENT_RULES_PRELOADED_NOTICE ++ newline ++ before
      ++ "# Agent Rules Standard (services/AGENTS.md):" ++ newline
      ++ "Service rules".
Proof.
  apply (deepest_rule_is_served_first (take 1 long_and_short)
           {| filename := "services/AGENTS.md"; content := "Service rules";
              orderIndex := 1%Z |}).
  - repeat constructor.
  - reflexivity.
Defined.

Example limit_is_exceeded_by_separators :
  len (buildAgentRulesOutput long_and_short) = 10002%Z.
Proof. vm_compute. reflexivity. Qed.

End AgentRulesFacts.

(** ** Facts about the agent-rules loader *)

Module LoaderFacts.
Import Js JsFacts Node FindUp AgentRules RulesObs ChainObs RulesExamples
  AgentRulesFacts FindUpFacts.

Section Facts.
Context `{Path}.
Variable fs : Fs.

Lemma readAgentRulesFile_content filePath readFile resolvedPath content :
  readAgentRulesFile fs filePath readFile = Ok (Some (resolvedPath, content)) ->
  truthy content = true.
Proof.
  unfold readAgentRulesFile.
  destruct (resolveAgentRuleFilePath fs filePath) as [p|]; [|done].
  destruct (negb (truthy p)); [done|].
  destruct (readFile p) as [c|]; [|done].
  destruct (truthy c) eqn:E; simpl; [|done]. by intros [= _ <-].
Qed.

Lemma indexed_snoc localRules rule :
  indexed localRules ->
  f_orderIndex rule = Z.of_nat (List.length localRules) ->
  truthy (f_content rule) = true ->
  indexed (localRules ++ [rule]).
Proof.
  intros Hind Hi Hc i r Hr.
  apply lookup_app_Some in Hr as [Hr|[Hlen Hr]]; [by apply Hind|].
  apply list_lookup_singleton_Some in Hr as [Hz <-].
  split; [|done]. rewrite Hi. f_equal. lia.
Qed.

Lemma read_directories_indexed normalizedCwd readFile directories :
  forall seenPaths localRules seenPaths' localRules',
    read_directories fs normalizedCwd readFile directories seenPaths localRules
    = Ok (seenPaths', localRules') ->
    indexed localRules -> indexed localRules'.
Proof.
  induction directories as [|dirPath rest IH]; intros seen rules seen' rules';
    simpl; [by intros [= <- <-]|].
  destruct (readAgentRulesFile _ _ _) as [[[p c]|]|] eqn:Hread; [| |done].
  - case_bool_decide; [by apply IH|].
    intros Hrec Hind. eapply IH; [exact Hrec|].
    apply indexed_snoc; [done|done|].
    simpl. by eapply readAgentRulesFile_content.
  - by apply IH.
Qed.

Lemma indexed_sorted (l : list AgentRuleFile) (base : nat) :
  (forall i rule, l !! i = Some rule ->
     f_orderIndex rule = Z.of_nat (base + i)) ->
  StronglySorted (fun a b => (f_orderIndex a < f_orderIndex b)%Z) l.
Proof.
  revert base. induction l as [|a l IH]; intros base Hl; constructor.
  - apply (IH (S base)). intros i rule Hi. rewrite (Hl (S i) rule Hi).
    f_equal. lia.
  - apply Forall_lookup. intros i rule Hi.
    rewrite (Hl 0 a eq_refl), (Hl (S i) rule Hi). lia.
Qed.

Lemma slice_last_sorted n localRules :
  indexed localRules ->
  ascending (map content_of (slice_last n localRules)) /\
  Forall (fun r => (0 <= orderIndex r)%Z /\ truthy (content r) = true)
         (map content_of (slice_last n localRules)).
Proof.
  intros Hind. unfold slice_last.
  set (k := Z.to_nat _). split.
  - unfold ascending.
    assert (StronglySorted (fun a b => (f_orderIndex a < f_orderIndex b)%Z)
              (drop k localRules)) as Hs.
    { apply (indexed_sorted _ k). intros i rule Hi.
      rewrite lookup_drop in Hi. by apply Hind in Hi as [-> _]. }
    induction Hs as [|a l _ IH Ha]; simpl; constructor; [done|].
    by apply Forall_map.
  - apply Forall_map, Forall_lookup. intros i rule Hi.
    rewrite lookup_drop in Hi. apply Hind in Hi as [Hi Hc]. simpl.
    split; [lia|done].
Qed.

Lemma slice_last_length {A} n (l : list A) :
  (0 <= n)%Z -> (Z.of_nat (List.length (slice_last n l)) <= n)%Z.
Proof. intros Hn. unfold slice_last. rewrite length_drop. lia. Qed.


Lemma read_directories_missing lstat normalizedCwd readFile directories :
  fs_lstat fs = Some lstat ->
  (forall p, is_ok (lstat p) = false) ->
  forall seenPaths localRules,
    read_directories fs normalizedCwd readFile directories seenPaths localRules
    = Ok (seenPaths, localRules).
Proof.
  intros Hl Hmiss. induction directories as [|d rest IH]; intros seen rules;
    simpl; [done|].
  unfold readAgentRulesFile, resolveAgentRuleFilePath. rewrite Hl.
  specialize (Hmiss (join_paths [d; AGENT_RULE_FILENAME])).
  destruct (lstat _); [done|]. apply IH.
Qed.

Lemma loader_chain n fuel options :
  dirname (ancestor n (resolve [start_directory options]))
  = ancestor n (resolve [start_directory options]) ->
  n < fuel ->
  exists first rest,
    findUpDirectoryChain fuel (start_directory options)
      (Some (normalizePathForCompare (cwd options)))
    = Some (first :: rest).
Proof.
  intros Hfix Hlt. unfold findUpDirectoryChain.
  destruct (climb_found n fuel
              (if truthy (normalizePathForCompare (cwd options))
               then Some (resolve [normalizePathForCompare (cwd options)])
               else None)
              (resolve [start_directory options]) Hfix Hlt)
    as (dirs & Hd & _).
  rewrite Hd. apply climb_head in Hd. destruct dirs as [|d dirs]; [done|].
  by eexists _, _.
Qed.

(** X29. When the walk from the start directory reaches the root within
    the given bound and [lstat] rejects for every candidate (no rule file
    exists), the loader returns the empty string, and never calls
    [readFile]: the result is the same for every [readFile]. *)
Theorem missing_rule_files_give_empty_output
    (n fuel : nat) (options : AgentRulesOptions)
    (lstat : string -> Res (option bool)) :
  dirname (ancestor n (resolve [start_directory options]))
  = ancestor n (resolve [start_directory options]) ->
  n < fuel ->
  fs_lstat fs = Some lstat ->
  (forall p, is_ok (lstat p) = false) ->
  loadAgentRulesContent fs fuel options = Some (Ok EmptyString).
Proof.
  intros Hfix Hlt Hl Hmiss.
  destruct (loader_chain n fuel options Hfix Hlt) as (first & rest & Hchain).
  unfold start_directory in Hchain. cbv zeta in Hchain.
  unfold loadAgentRulesContent, collect_rules. cbv zeta. rewrite Hchain.
  rewrite (read_directories_missing lstat) by done.
  unfold readAgentRulesFile, resolveAgentRuleFilePath. rewrite Hl.
  specialize (Hmiss (join_paths [homedir; ".kilocode"; AGENT_RULE_FILENAME])).
  by destruct (lstat _).
Qed.

(** X30. A rejection of [readFile] is not caught: when the walk from the
    start directory reaches the root within the given bound, every
    candidate is a regular file and [readFile] rejects, the loader rejects
    with the error of the first read. *)
Theorem unreadable_rule_file_rejects_load
    (n fuel : nat) (options : AgentRulesOptions)
    (lstat : string -> Res (option bool)) (e : string) :
  dirname (ancestor n (resolve [start_directory options]))
  = ancestor n (resolve [start_directory options]) ->
  n < fuel ->
  (forall segments, truthy (join_paths segments) = true) ->
  fs_lstat fs = Some lstat ->
  (forall p, lstat p = Ok (Some false)) ->
  (forall p, readFile options p = Err e) ->
  loadAgentRulesContent fs fuel options = Some (Err e).
Proof.
  intros Hfix Hlt Hjoin Hl Hreg Hread.
  destruct (loader_chain n fuel options Hfix Hlt) as (first & rest & Hchain).
  unfold start_directory in Hchain. cbv zeta in Hchain.
  unfold loadAgentRulesContent, collect_rules. cbv zeta. rewrite Hchain.
  destruct (reverse (first :: rest)) as [|d ds] eqn:Hrev.
  { apply (f_equal reverse) in Hrev. by rewrite reverse_involutive in Hrev. }
  simpl. unfold readAgentRulesFile at 1, resolveAgentRuleFilePath.
  rewrite Hl, Hreg. simpl. rewrite Hjoin. simpl. by rewrite Hread.
Qed.

End Facts.


(** From [/repo/services] the root is two steps up. *)
Lemma missing_rule_files_give_empty_output_witness :
  loadAgentRulesContent (fs_of []) 10 (in_service (read_from nested_files))
  = Some (Ok EmptyString).
Proof.
  apply (missing_rule_files_give_empty_output (fs_of []) 2 10
           (in_service (read_from nested_files)) (fun _ => Err "ENOENT"));
    [ reflexivity | lia | reflexivity | reflexivity ].
Defined.

Lemma unreadable_rule_file_rejects_load_witness :
  loadAgentRulesContent locked_fs 10 (in_service (fun _ => Err "EACCES"))
  = Some (Err "EACCES").
Proof.
  apply (unreadable_rule_file_rejects_load locked_fs 2 10
           (in_service (fun _ => Err "EACCES")) (fun _ => Ok (Some false))
           "EACCES");
    [ reflexivity | lia | | reflexivity | reflexivity | reflexivity ].
  intros segments. simpl. unfold posix_join.
  by destruct (join "/" (List.filter truthy segments)).
Defined.

End LoaderFacts.
